(** * Hotcue core of the video player component

    A shallow embedding of [src/CustomVideoPlayer.js]: the hotcue store and
    its normalisation, the keyboard dispatcher, the progress-bar scrub
    handlers and the save / discard / dirty-check coordinator; then the
    buttons of the hotcue panel, the label editor and the clock of the
    same component, the id extraction of [src/YouTubePlayer.js], the URL
    form and the page that holds the player ([MainApp]) with its
    unsaved-changes modal.

    JavaScript objects are heap cells addressed by references, so that the
    sharing created by spread copies and by plain assignments of references
    is visible.  Numbers are IEEE 754 binary64 values ([spec_float] with
    precision 53 and maximal exponent 1024).

    A handler is a function from the state it finds to the state it
    leaves, together with the calls it makes on the player; an exception
    that leaves a handler is [None].  State updates of a handler are
    visible to the next handler (the component re-renders in between).
    The keyboard listener is registered on the window and on the
    document, so a keystroke is two runs of it ([keystroke]); the scrub
    handlers are bound to no element ([receivePointer]).
    The request of a save is split at its [await].  Console output and
    the timers that clear the visual flash are left out. *)

From Stdlib Require Import ZArith String Ascii List Bool Lia SpecFloat.
From stdpp Require Import base option list gmap strings fin_maps.

Local Open Scope string_scope.
Local Open Scope list_scope.
Local Open Scope stdpp_scope.

(** ** JavaScript values *)

Module Js.

(** Numbers: binary64, in the canonical representation of
    [spec_float] (what [num_of] and the arithmetic below produce). *)
Definition prec : Z := 53.
Definition emax : Z := 1024.

Abbreviation num := spec_float.

(** [num_of m e] is the double nearest to [m * 2^e]. *)
Definition num_of (m e : Z) : num := binary_normalize prec emax m e false.

Definition zero : num := S754_zero false.
Definition one : num := num_of 1 0.

Definition is_nan (x : num) : bool :=
  match x with S754_nan => true | _ => false end.

Definition is_zero (x : num) : bool :=
  match x with S754_zero _ => true | _ => false end.

Definition num_eqb (x y : num) : bool := SFeqb x y.
Definition num_ltb (x y : num) : bool := SFltb x y.
Definition num_sub (x y : num) : num := SFsub prec emax x y.
Definition num_mul (x y : num) : num := SFmul prec emax x y.
Definition num_div (x y : num) : num := SFdiv prec emax x y.

(** [Math.min] and [Math.max] on two arguments: NaN is contagious and
    the negative zero is below the positive one. *)
Definition math_min (x y : num) : num :=
  if is_nan x || is_nan y then S754_nan
  else match SFcompare x y with
       | Some Lt => x
       | Some Gt => y
       | _ => match x with S754_zero true => x | _ => y end
       end.

Definition math_max (x y : num) : num :=
  if is_nan x || is_nan y then S754_nan
  else match SFcompare x y with
       | Some Lt => y
       | Some Gt => x
       | _ => match x with S754_zero false => x | _ => y end
       end.

(** References into the object heap. *)
Abbreviation loc := nat.

Inductive JsVal : Type :=
  | VUndefined
  | VNull
  | VBool (b : bool)
  | VNum (x : num)
  | VStr (s : string)
  | VRef (l : loc).

Global Instance spec_float_eq_dec : EqDecision spec_float.
Proof. solve_decision. Defined.

Global Instance JsVal_eq_dec : EqDecision JsVal.
Proof. solve_decision. Defined.

Global Instance JsVal_inhabited : Inhabited JsVal := populate VUndefined.

(** The own enumerable properties of an object, and the heap of objects.
    A fresh object is appended to the heap; its reference is its index. *)
Abbreviation Obj := (gmap string JsVal).
Abbreviation Heap := (list (gmap string JsVal)).

Inductive JsType := TUndefined | TObject | TBoolean | TNumber | TString.

Global Instance JsType_eq_dec : EqDecision JsType.
Proof. solve_decision. Defined.

(** [typeof v] *)
Definition typeof (v : JsVal) : JsType :=
  match v with
  | VUndefined => TUndefined
  | VNull => TObject
  | VBool _ => TBoolean
  | VNum _ => TNumber
  | VStr _ => TString
  | VRef _ => TObject
  end.

Definition is_number (v : JsVal) : bool := bool_decide (typeof v = TNumber).
Definition is_object (v : JsVal) : bool := bool_decide (typeof v = TObject).

(** ToBoolean: what [if (v)], [!v], [v && ..] and [v || ..] test. *)
Definition truthy (v : JsVal) : bool :=
  match v with
  | VUndefined | VNull => false
  | VBool b => b
  | VNum x => negb (is_zero x || is_nan x)
  | VStr s => negb (bool_decide (s = ""))
  | VRef _ => true
  end.

(** [a || b] *)
Definition js_or (a b : JsVal) : JsVal := if truthy a then a else b.

(** [a === b] *)
Definition strict_eq (a b : JsVal) : bool :=
  match a, b with
  | VUndefined, VUndefined => true
  | VNull, VNull => true
  | VBool x, VBool y => bool_decide (x = y)
  | VNum x, VNum y => num_eqb x y
  | VStr x, VStr y => bool_decide (x = y)
  | VRef x, VRef y => bool_decide (x = y)
  | _, _ => false
  end.

(** [isNaN(v)] for a value already known to be a number. *)
Definition isNaN (v : JsVal) : bool :=
  match v with VNum x => is_nan x | _ => false end.

(** The properties of the object a value refers to.  Primitives have no
    own enumerable properties in this model (a string's index properties,
    each a one-character string, are left out). *)
Definition obj_of (h : Heap) (v : JsVal) : Obj :=
  match v with
  | VRef l => default ∅ (h !! l)
  | _ => ∅
  end.

(** [Object.keys(v)] *)
Definition object_keys (h : Heap) (v : JsVal) : list string :=
  (map_to_list (obj_of h v)).*1.

(** [v[k]] where [v] is not null or undefined. *)
Definition prop (h : Heap) (v : JsVal) (k : string) : JsVal :=
  default VUndefined (obj_of h v !! k).

(** [v[k]] in general: reading a property of null or undefined throws a
    TypeError, here [None]. *)
Definition get_prop (h : Heap) (v : JsVal) (k : string) : option JsVal :=
  match v with
  | VUndefined | VNull => None
  | _ => Some (prop h v k)
  end.

(** An object literal / a spread copy allocates a new object. *)
Definition alloc (o : Obj) (h : Heap) : JsVal * Heap :=
  (VRef (length h), h ++ [o]).

(** [target[k] = v] on an object reference, in place.  An assignment at
    the key [__proto__] of an object that has no property of that name
    of its own reaches the setter inherited from [Object.prototype]: it
    replaces the prototype of the object (or does nothing, when [v] is
    neither an object nor null) and adds no property.  The heap holds
    the own properties of the objects, which are what [Object.keys] and
    a spread copy see, and not their prototypes; so that assignment
    leaves the heap as it is.  An object literal with a computed key, a
    spread copy and [JSON.parse] define the property instead, also at
    [__proto__]. *)
Definition set_prop (target : JsVal) (k : string) (v : JsVal) (h : Heap) : Heap :=
  match target with
  | VRef l => match h !! l with
              | Some o =>
                  if bool_decide (k = "__proto__") && bool_decide (o !! k = None)
                  then h
                  else <[l := <[k := v]> o]> h
              | None => h
              end
  | _ => h
  end.

(** The structured hotcue literal [{ time: t, name: n }]. *)
Definition entry (t n : JsVal) : Obj := <["time" := t]> (<["name" := n]> ∅).

End Js.

Export Js.

(** ** The hotcue store *)

Module Store.

(** The body of the [forEach] callback of [normalizeHotcues] for one value:
    the object literal stored under the key, or nothing.  The outer option
    is the TypeError of a property read on null or undefined. *)
Definition normalizeEntry (h : Heap) (value : JsVal) : option (option Obj) :=
  if is_number value then
    Some (Some (entry value (VStr "")))
  else if truthy value && is_object value then
    t ← get_prop h value "time";
    if is_number t then
      n ← get_prop h value "name";
      Some (Some (entry t (js_or n (VStr ""))))
    else Some None
  else Some None.

(** [Object.keys(hotcues).forEach(key => ...)], writing into [normalized]. *)
Fixpoint normalizeLoop (hotcues normalized : JsVal) (keys : list string)
    (h : Heap) : option Heap :=
  match keys with
  | [] => Some h
  | key :: rest =>
      value ← get_prop h hotcues key;
      lit ← normalizeEntry h value;
      match lit with
      | Some o =>
          let '(e, h1) := alloc o h in
          normalizeLoop hotcues normalized rest (set_prop normalized key e h1)
      | None => normalizeLoop hotcues normalized rest h
      end
  end.

(** [normalizeHotcues(hotcues)]: the reference of the new object and the
    heap after the call; [None] if the call throws. *)
Definition normalizeHotcues (hotcues : JsVal) (h : Heap) : option (JsVal * Heap) :=
  if negb (truthy hotcues) then Some (alloc ∅ h)
  else
    let '(normalized, h0) := alloc ∅ h in
    h' ← normalizeLoop hotcues normalized (object_keys h hotcues) h0;
    Some (normalized, h').

(** *** Reading a store by value

    What a deep comparison of two hotcue sets looks at: for every key the
    properties of the entry object (or the entry itself when it is a
    primitive, as in the legacy wire format). *)
Inductive EntryView :=
  | Prim (v : JsVal)
  | Fields (o : Obj).

Global Instance EntryView_eq_dec : EqDecision EntryView.
Proof. solve_decision. Defined.

Definition view_val (h : Heap) (v : JsVal) : EntryView :=
  match v with
  | VRef l => match h !! l with
              | Some o => Fields o
              | None => Prim v
              end
  | _ => Prim v
  end.

Definition view (h : Heap) (store : JsVal) : gmap string EntryView :=
  view_val h <$> obj_of h store.

(** No dangling references: a reference points into the heap, and so do
    the entries of the object it points to. *)
Definition valid_ref (h : Heap) (v : JsVal) : bool :=
  match v with VRef l => bool_decide (l < length h) | _ => true end.

Definition closed (h : Heap) (x : JsVal) : Prop :=
  valid_ref h x = true ∧ map_Forall (λ _ v, valid_ref h v = true) (obj_of h x).

(** What the wire format promises for one raw value, in the words of the
    specification: a bare number [n] becomes [{time: n, name: ''}], an
    object with a numeric [time] becomes [{time, name}] with the name
    defaulted to the empty string, anything else is dropped. *)
Definition wire_entry (h : Heap) (value : JsVal) : option Obj :=
  match value with
  | VNum n => Some (entry (VNum n) (VStr ""))
  | VRef _ =>
      match prop h value "time" with
      | VNum t => Some (entry (VNum t) (js_or (prop h value "name") (VStr "")))
      | _ => None
      end
  | _ => None
  end.

(** A well-formed entry: an object with exactly a numeric [time] and a
    [name] that is the empty string or a truthy value. *)
Definition well_formed (ev : EntryView) : Prop :=
  ∃ t n, ev = Fields (entry (VNum t) n) ∧ js_or n (VStr "") = n.

End Store.

Export Store.

(** ** Strings *)

Module Str.

(** [s.toLowerCase()] on the ASCII letters. *)
Definition lower_ascii (c : ascii) : ascii :=
  let n := nat_of_ascii c in
  if (65 <=? n)%nat && (n <=? 90)%nat then ascii_of_nat (n + 32) else c.

Fixpoint toLowerCase (s : string) : string :=
  match s with
  | EmptyString => EmptyString
  | String c r => String (lower_ascii c) (toLowerCase r)
  end.

Fixpoint startsWith (p s : string) : bool :=
  match p, s with
  | EmptyString, _ => true
  | String a p', String b s' => bool_decide (a = b) && startsWith p' s'
  | String _ _, EmptyString => false
  end.

(** [s.includes(p)] *)
Fixpoint includes (p s : string) : bool :=
  startsWith p s ||
  match s with
  | EmptyString => false
  | String _ s' => includes p s'
  end.

(** White space removed by [trim()], among the ASCII characters: tab,
    line feed, vertical tab, form feed, carriage return and space. *)
Definition is_space (c : ascii) : bool :=
  let n := nat_of_ascii c in
  ((9 <=? n)%nat && (n <=? 13)%nat) || (n =? 32)%nat.

Fixpoint trimStart (s : string) : string :=
  match s with
  | EmptyString => EmptyString
  | String c r => if is_space c then trimStart r else s
  end.

Fixpoint trimEnd (s : string) : string :=
  match s with
  | EmptyString => EmptyString
  | String c r =>
      let r' := trimEnd r in
      if is_space c && bool_decide (r' = EmptyString) then EmptyString
      else String c r'
  end.

(** [s.trim()] *)
Definition trim (s : string) : string := trimEnd (trimStart s).

(** [l.join(sep)] on an array of strings. *)
Fixpoint join (sep : string) (l : list string) : string :=
  match l with
  | [] => ""
  | [x] => x
  | x :: rest => x +:+ sep +:+ join sep rest
  end.

(** A string-or-missing value is falsy when missing or empty. *)
Definition present (o : option string) : bool :=
  match o with
  | Some s => negb (bool_decide (s = ""))
  | None => false
  end.

End Str.

Export Str.

(** ** The component *)

Definition LETTER_KEYS : list string :=
  ["q"; "w"; "e"; "r"; "t"; "y"; "u"; "i"; "o"; "p"; "a"; "s"; "d"; "f";
   "g"; "h"; "j"; "k"; "l"; "z"; "x"; "c"; "v"; "b"; "n"; "m"].

(** [PlayerStates.PLAYING] *)
Definition PLAYING : JsVal := VNum one.
Definition PAUSED : JsVal := VNum (num_of 2 0).

(** The embedded player, seen from the component: what each method
    returns at the moment of the call, or that it throws. *)
Record Player := {
  getCurrentTime : option JsVal;
  getPlayerState : option JsVal;
  seekTo_returns : bool;
  playVideo_returns : bool;
  pauseVideo_returns : bool
}.

(** Calls made on the player, in order. *)
Inductive PlayerCall :=
  | GetCurrentTime
  | GetPlayerState
  | SeekTo (seconds : JsVal) (allowSeekAhead : bool)
  | PlayVideo
  | PauseVideo.

Global Instance PlayerCall_eq_dec : EqDecision PlayerCall.
Proof. solve_decision. Defined.

(** The body of a [try] block that talks to the player: the calls made
    and the value reached, [None] when a call threw and the [catch]
    took over. *)
Definition Try (A : Type) : Type := list PlayerCall * option A.

Definition ret {A} (a : A) : Try A := ([], Some a).

Definition bind {A B} (m : Try A) (f : A → Try B) : Try B :=
  match m with
  | (c, Some a) => let '(c', b) := f a in (c ++ c', b)
  | (c, None) => (c, None)
  end.

Notation "'let!' x ':=' m 'in' f" := (bind m (fun x => f))
  (at level 10, x name, m at level 100, f at level 200, only parsing).
Notation "'do!' m 'in' f" := (bind m (fun _ => f))
  (at level 10, m at level 100, f at level 200, only parsing).

Definition command (c : PlayerCall) (returns : bool) : Try unit :=
  ([c], if returns then Some tt else None).

Definition query (c : PlayerCall) (result : option JsVal) : Try JsVal :=
  ([c], result).

Definition seekTo (p : Player) (t : JsVal) (ahead : bool) : Try unit :=
  command (SeekTo t ahead) (seekTo_returns p).
Definition playVideo (p : Player) : Try unit :=
  command PlayVideo (playVideo_returns p).
Definition pauseVideo (p : Player) : Try unit :=
  command PauseVideo (pauseVideo_returns p).

(** Component state.  [hotcues] is the React state, [hotcuesRef] and
    [initialHotcuesRef] are the [.current] of the two refs; all three
    hold references into [heap]. *)
Record Cues := {
  heap : Heap;
  hotcues : JsVal;
  hotcuesRef : JsVal;
  initialHotcuesRef : JsVal
}.

Record Flash := {
  isSettingHotcue : option string;
  triggeredHotcue : option string
}.

Record Editor := {
  editingHotcue : option string;
  editingLabel : string
}.

Record Scrub := {
  isDragging : bool;
  dragTime : num;
  currentTime : num;
  duration : num
}.

Inductive MessageType := MsgSuccess | MsgError.

Global Instance MessageType_eq_dec : EqDecision MessageType.
Proof. solve_decision. Defined.

Record SaveUi := {
  isSaving : bool;
  saveMessage : option (MessageType * string)
}.

(** [getBoundingClientRect()] of the progress bar element. *)
Record Rect := { rect_left : num; rect_width : num }.

Record State := {
  cues : Cues;
  flash : Flash;
  editor : Editor;
  scrub : Scrub;
  saveUi : SaveUi;
  playerRef : option Player;
  isPlayerReady : bool;
  isPlayerReadyRef : bool;
  progressBarRef : option Rect
}.

Definition with_cues (c : Cues) (σ : State) : State :=
  {| cues := c; flash := flash σ; editor := editor σ; scrub := scrub σ;
     saveUi := saveUi σ; playerRef := playerRef σ;
     isPlayerReady := isPlayerReady σ; isPlayerReadyRef := isPlayerReadyRef σ;
     progressBarRef := progressBarRef σ |}.

Definition with_flash (f : Flash) (σ : State) : State :=
  {| cues := cues σ; flash := f; editor := editor σ; scrub := scrub σ;
     saveUi := saveUi σ; playerRef := playerRef σ;
     isPlayerReady := isPlayerReady σ; isPlayerReadyRef := isPlayerReadyRef σ;
     progressBarRef := progressBarRef σ |}.

Definition with_editor (e : Editor) (σ : State) : State :=
  {| cues := cues σ; flash := flash σ; editor := e; scrub := scrub σ;
     saveUi := saveUi σ; playerRef := playerRef σ;
     isPlayerReady := isPlayerReady σ; isPlayerReadyRef := isPlayerReadyRef σ;
     progressBarRef := progressBarRef σ |}.

Definition with_scrub (s : Scrub) (σ : State) : State :=
  {| cues := cues σ; flash := flash σ; editor := editor σ; scrub := s;
     saveUi := saveUi σ; playerRef := playerRef σ;
     isPlayerReady := isPlayerReady σ; isPlayerReadyRef := isPlayerReadyRef σ;
     progressBarRef := progressBarRef σ |}.

Definition with_saveUi (s : SaveUi) (σ : State) : State :=
  {| cues := cues σ; flash := flash σ; editor := editor σ; scrub := scrub σ;
     saveUi := s; playerRef := playerRef σ;
     isPlayerReady := isPlayerReady σ; isPlayerReadyRef := isPlayerReadyRef σ;
     progressBarRef := progressBarRef σ |}.

(** The two effects that mirror state into refs (run after a render in
    which [hotcues], resp. [isPlayerReady], changed). *)
Definition syncRefs (σ : State) : State :=
  {| cues := {| heap := heap (cues σ); hotcues := hotcues (cues σ);
                hotcuesRef := hotcues (cues σ);
                initialHotcuesRef := initialHotcuesRef (cues σ) |};
     flash := flash σ; editor := editor σ; scrub := scrub σ;
     saveUi := saveUi σ; playerRef := playerRef σ;
     isPlayerReady := isPlayerReady σ; isPlayerReadyRef := isPlayerReady σ;
     progressBarRef := progressBarRef σ |}.

(** The live Hotcue Set (what the dispatcher reads) and the Saved
    Snapshot, read by value. *)
Definition live (σ : State) : gmap string EntryView :=
  view (heap (cues σ)) (hotcuesRef (cues σ)).

Definition saved (σ : State) : gmap string EntryView :=
  view (heap (cues σ)) (initialHotcuesRef (cues σ)).

(** *** The keyboard dispatcher *)

Record KeyEvent := {
  target_tagName : string;   (* e.target.tagName *)
  ev_key : string;           (* e.key *)
  ev_code : string           (* e.code *)
}.

(** What one run of a handler leaves behind: the new state, the calls
    made on the player, and whether [e.preventDefault()] was called. *)
Record Outcome := {
  state : State;
  calls : list PlayerCall;
  defaultPrevented : bool
}.

(** [typeof hotcue === 'number' ? hotcue : hotcue.time] *)
Definition time_of (h : Heap) (hotcue : JsVal) : option JsVal :=
  if is_number hotcue then Some hotcue else get_prop h hotcue "time".

(** The jump branch: [seekTo(hotcueTime, true)] then [playVideo()],
    inside one [try]. *)
Definition jump (p : Player) (hotcueTime : JsVal) : Try unit :=
  do! seekTo p hotcueTime true in
  playVideo p.

(** The play/pause toggle, inside one [try]. *)
Definition toggle (p : Player) : Try unit :=
  let! st := query GetPlayerState (getPlayerState p) in
  if strict_eq st PLAYING then pauseVideo p else playVideo p.

(** [{ ...currentHotcues, [key]: { time: currentTime, name: '' } }] *)
Definition spread_with (h : Heap) (source : JsVal) (key : string)
    (t n : JsVal) : JsVal * Heap :=
  let '(e, h1) := alloc (entry t n) h in
  alloc (<[key := e]> (obj_of h1 source)) h1.

(** [handleKeyPress(e)].  [None] is an exception that leaves the handler.
    The timers that clear the flash after 250ms are not part of the
    model. *)
Definition handleKeyPress (e : KeyEvent) (σ : State) : option Outcome :=
  if bool_decide (target_tagName e = "INPUT")
     || bool_decide (target_tagName e = "TEXTAREA") then
    Some {| state := σ; calls := []; defaultPrevented := false |}
  else
    let key := toLowerCase (ev_key e) in
    let currentPlayer := playerRef σ in
    let currentReady := isPlayerReadyRef σ in
    let currentHotcues := hotcuesRef (cues σ) in
    let h := heap (cues σ) in
    match (if bool_decide (key ∈ LETTER_KEYS) && currentReady
           then currentPlayer else None) with
    | Some p =>
        hotcue ← get_prop h currentHotcues key;
        if negb (strict_eq hotcue VUndefined) then
          hotcueTime ← time_of h hotcue;
          let σ1 := with_flash {| isSettingHotcue := None;
                                  triggeredHotcue := Some key |} σ in
          Some {| state := σ1; calls := (jump p hotcueTime).1;
                  defaultPrevented := true |}
        else
          match getCurrentTime p with
          | Some currentTime =>
              if is_number currentTime && negb (isNaN currentTime) then
                let '(newHotcues, h') :=
                  spread_with h currentHotcues key currentTime (VStr "") in
                let c := {| heap := h'; hotcues := newHotcues;
                            hotcuesRef := newHotcues;
                            initialHotcuesRef := initialHotcuesRef (cues σ) |} in
                let σ1 := with_flash {| isSettingHotcue := isSettingHotcue (flash σ);
                                        triggeredHotcue := Some key |}
                            (with_cues c σ) in
                Some {| state := σ1; calls := [GetCurrentTime];
                        defaultPrevented := true |}
              else
                Some {| state := σ; calls := [GetCurrentTime];
                        defaultPrevented := true |}
          | None =>
              let σ1 := with_flash {| isSettingHotcue := None;
                                      triggeredHotcue := None |} σ in
              Some {| state := σ1; calls := [GetCurrentTime];
                      defaultPrevented := true |}
          end
    | None =>
        if bool_decide (ev_code e = "Space") || bool_decide (ev_key e = "k") then
          let made :=
            match currentPlayer with
            | Some p => if currentReady then (toggle p).1 else []
            | None => []
            end in
          Some {| state := σ; calls := made; defaultPrevented := true |}
        else Some {| state := σ; calls := []; defaultPrevented := false |}
    end.

(** One run of the listener inside the dispatch of a [keydown] event.
    An exception that leaves a listener is reported by the dispatch,
    which then goes on with the next listener.  The two reads that can
    throw, [currentHotcues[key]] and [hotcue.time], come after
    [e.preventDefault()] and before any update or call. *)
Definition runListener (e : KeyEvent) (σ : State) : Outcome :=
  match handleKeyPress e σ with
  | Some o => o
  | None => {| state := σ; calls := []; defaultPrevented := true |}
  end.

(** A keystroke.  The effect registers [handleKeyPress] for [keydown]
    twice, on [window] and on [document], both in the capture phase:

      window.addEventListener('keydown', handleKeyPress, true);
      document.addEventListener('keydown', handleKeyPress, true);

    so the dispatch of one keystroke runs it for [window] and then for
    [document].  The second run reads the refs as the first left them
    ([hotcuesRef.current] is assigned in the handler itself), and the
    state updates of both are applied in order.  The player is the same
    record for both runs: its getters answer from what the embedded
    frame last reported, and no report arrives inside one dispatch. *)
Definition keystroke (e : KeyEvent) (σ : State) : Outcome :=
  let o1 := runListener e σ in
  let o2 := runListener e (state o1) in
  {| state := state o2; calls := calls o1 ++ calls o2;
     defaultPrevented := defaultPrevented o1 || defaultPrevented o2 |}.

(** *** Label edits and clearing *)

(** The updater of [handleHotcueLabelBlur]: a spread copy of [prev] whose
    entry for [key], when truthy, is replaced by a new entry with the same
    time and the given name. *)
Definition relabelled (h : Heap) (prev : JsVal) (key : string)
    (name : string) : JsVal * Heap :=
  let '(newHotcues, h1) := alloc (obj_of h prev) h in
  let currentHotcue := prop h1 newHotcues key in
  if truthy currentHotcue then
    let time := if is_number currentHotcue then currentHotcue
                else prop h1 currentHotcue "time" in
    let '(e, h2) := alloc (entry time (VStr name)) h1 in
    (newHotcues, set_prop newHotcues key e h2)
  else (newHotcues, h1).

(** [handleHotcueLabelBlur(key)] *)
Definition handleHotcueLabelBlur (key : string) (σ : State) : option State :=
  let c := cues σ in
  let name := trim (editingLabel (editor σ)) in
  let '(newState, h1) := relabelled (heap c) (hotcues c) key name in
  currentHotcue ← get_prop h1 (hotcuesRef c) key;
  let '(newRef, h2) :=
    if truthy currentHotcue then
      let time := if is_number currentHotcue then currentHotcue
                  else prop h1 currentHotcue "time" in
      spread_with h1 (hotcuesRef c) key time (VStr name)
    else (hotcuesRef c, h1) in
  Some (with_editor {| editingHotcue := None; editingLabel := "" |}
          (with_cues {| heap := h2; hotcues := newState; hotcuesRef := newRef;
                        initialHotcuesRef := initialHotcuesRef c |} σ)).

(** [delete target[k]] *)
Definition delete_prop (target : JsVal) (k : string) (h : Heap) : Heap :=
  match target with
  | VRef l => match h !! l with
              | Some o => <[l := delete k o]> h
              | None => h
              end
  | _ => h
  end.

(** [clearHotcue(key)]: the updater runs on the React state and stores
    its result in the ref as well. *)
Definition clearHotcue (key : string) (σ : State) : State :=
  let c := cues σ in
  let '(newHotcues, h1) := alloc (obj_of (heap c) (hotcues c)) (heap c) in
  let h2 := delete_prop newHotcues key h1 in
  with_cues {| heap := h2; hotcues := newHotcues; hotcuesRef := newHotcues;
               initialHotcuesRef := initialHotcuesRef c |} σ.

(** *** Dirty check *)

(** [typeof hotcue === 'object' ? (hotcue.name || '') : ''] *)
Definition name_of (h : Heap) (hotcue : JsVal) : option JsVal :=
  if is_object hotcue then
    n ← get_prop h hotcue "name"; Some (js_or n (VStr ""))
  else Some (VStr "").

(** The first loop of [hasUnsavedChanges]: [Some true] when the loop
    returns true, [Some false] when it runs to its end. *)
Fixpoint changedLoop (h : Heap) (current initial : JsVal)
    (keys : list string) : option bool :=
  match keys with
  | [] => Some false
  | key :: rest =>
      currentHotcue ← get_prop h current key;
      initialHotcue ← get_prop h initial key;
      if negb (truthy initialHotcue) then Some true
      else
        currentTime ← time_of h currentHotcue;
        initialTime ← time_of h initialHotcue;
        if negb (strict_eq currentTime initialTime) then Some true
        else
          currentName ← name_of h currentHotcue;
          initialName ← name_of h initialHotcue;
          if negb (strict_eq currentName initialName) then Some true
          else changedLoop h current initial rest
  end.

(** The second loop: a key of the snapshot with no truthy live entry. *)
Fixpoint deletedLoop (h : Heap) (current : JsVal)
    (keys : list string) : option bool :=
  match keys with
  | [] => Some false
  | key :: rest =>
      v ← get_prop h current key;
      if negb (truthy v) then Some true else deletedLoop h current rest
  end.

(** [Object.keys(v || {})] *)
Definition keys_or_empty (h : Heap) (v : JsVal) : list string :=
  if truthy v then object_keys h v else [].

(** [hasUnsavedChanges()] *)
Definition hasUnsavedChanges (σ : State) : option bool :=
  let h := heap (cues σ) in
  let current := hotcuesRef (cues σ) in
  let initial := initialHotcuesRef (cues σ) in
  let currentKeys := keys_or_empty h current in
  let initialKeys := keys_or_empty h initial in
  if negb (bool_decide (length currentKeys = length initialKeys)) then Some true
  else
    changed ← changedLoop h current initial currentKeys;
    if changed : bool then Some true
    else deletedLoop h current initialKeys.

(** [discardChanges()] *)
Definition discardChanges (σ : State) : State :=
  let c := cues σ in
  let initial := initialHotcuesRef c in
  with_cues {| heap := heap c; hotcues := initial; hotcuesRef := initial;
               initialHotcuesRef := initialHotcuesRef c |} σ.

(** The effect that loads the initial hotcues when the video changes:
    one normalized object for the state and both refs, or three empty
    objects when there are none. *)
Definition loadInitialHotcues (initialHotcues : JsVal) (σ : State) : option State :=
  let h := heap (cues σ) in
  if truthy initialHotcues then
    r ← normalizeHotcues initialHotcues h;
    Some (with_cues {| heap := r.2; hotcues := r.1; hotcuesRef := r.1;
                       initialHotcuesRef := r.1 |} σ)
  else
    let '(a, h1) := alloc ∅ h in
    let '(b, h2) := alloc ∅ h1 in
    let '(c, h3) := alloc ∅ h2 in
    Some (with_cues {| heap := h3; hotcues := a; hotcuesRef := b;
                       initialHotcuesRef := c |} σ).

(** *** Saving *)

Record Props := {
  videoId : option string;
  youtubeUrl : option string
}.

(** The error body of the persistence collaborator. *)
Record ErrorData := {
  data_error : option string;
  data_details : option string;
  data_missingFields : option (list string);
  data_type : option string
}.

Record ErrorResponse := {
  response_data : ErrorData;
  response_statusText : string
}.

(** The error a rejected [axios.post] is rejected with. *)
Record AxiosError := {
  err_code : option string;
  err_message : string;
  err_response : option ErrorResponse
}.

(** How the request settles: fulfilled with [response.data.message], or
    rejected. *)
Inductive Settled :=
  | Fulfilled (message : option string)
  | Rejected (error : AxiosError).

(** [a || b] on optional strings, the last operand being a string. *)
Definition str_or (a : option string) (b : string) : string :=
  match a with
  | Some s => if bool_decide (s = "") then b else s
  | None => b
  end.

(** The text built in the [catch] block of [handleSave]. *)
Definition errorMessage (error : AxiosError) : string :=
  let errorMessage := "Failed to save video. " in
  if bool_decide (err_code error = Some "ECONNREFUSED")
     || bool_decide (err_code error = Some "ERR_NETWORK") then
    errorMessage +:+ "Cannot connect to backend server. Is it running on port 3001?"
  else if bool_decide (err_code error = Some "ECONNABORTED")
          || includes "timeout" (err_message error) then
    errorMessage +:+ "Request timed out. Please try again."
  else
    match err_response error with
    | Some response =>
        let errorData := response_data response in
        let m1 := errorMessage +:+
                  str_or (data_error errorData)
                    (str_or (data_details errorData) (response_statusText response)) in
        let m2 := match data_missingFields errorData with
                  | Some missingFields => m1 +:+ " Missing: " +:+ join ", " missingFields
                  | None => m1
                  end in
        if present (data_type errorData)
        then m2 +:+ " (" +:+ default "" (data_type errorData) +:+ ")"
        else m2
    | None => errorMessage +:+ str_or (Some (err_message error)) "Unknown error occurred."
    end.

(** The text of the "missing required data" message. *)
Definition missingDataMessage (props : Props) : string :=
  trim ("Missing required data: "
        +:+ (if present (youtubeUrl props) then "" else "YouTube URL")
        +:+ " "
        +:+ (if present (videoId props) then "" else "Video ID")).

(** [handleSave] up to the [await]: either it returns early with an error
    message, or the request is sent ([true]). *)
Definition handleSave_begin (props : Props) (username : option string)
    (σ : State) : State * bool :=
  if negb (present (youtubeUrl props)) || negb (present (videoId props)) then
    (with_saveUi {| isSaving := isSaving (saveUi σ);
                    saveMessage := Some (MsgError, missingDataMessage props) |} σ,
     false)
  else if negb (present username) then
    (with_saveUi {| isSaving := isSaving (saveUi σ);
                    saveMessage := Some (MsgError, "You must be logged in to save videos") |} σ,
     false)
  else
    (with_saveUi {| isSaving := true; saveMessage := None |} σ, true).

(** [handleSave] after the [await], on the state of that moment. *)
Definition handleSave_settle (r : Settled) (σ : State) : State :=
  match r with
  | Fulfilled message =>
      let c := cues σ in
      let '(copy, h1) := alloc (obj_of (heap c) (hotcuesRef c)) (heap c) in
      with_saveUi
        {| isSaving := false;
           saveMessage := Some (MsgSuccess,
                                str_or message "Video and hotcues saved successfully!") |}
        (with_cues {| heap := h1; hotcues := hotcues c; hotcuesRef := hotcuesRef c;
                      initialHotcuesRef := copy |} σ)
  | Rejected error =>
      with_saveUi {| isSaving := false;
                     saveMessage := Some (MsgError, errorMessage error) |} σ
  end.

(** A whole [handleSave()] during which no other handler runs. *)
Definition handleSave (props : Props) (username : option string)
    (r : Settled) (σ : State) : State :=
  let '(σ1, sent) := handleSave_begin props username σ in
  if sent then handleSave_settle r σ1 else σ1.

(** A save succeeded when the request was sent and fulfilled. *)
Definition save_succeeds (props : Props) (username : option string)
    (r : Settled) : bool :=
  present (youtubeUrl props) && present (videoId props) && present username
  && match r with Fulfilled _ => true | Rejected _ => false end.

(** *** The progress bar *)

Record MouseEvent := { clientX : num }.

(** [!duration] *)
Definition no_duration (σ : State) : bool := negb (truthy (VNum (duration (scrub σ)))).

(** [calculateSeekTime(clientX)] *)
Definition calculateSeekTime (x : num) (σ : State) : num :=
  match progressBarRef σ with
  | None => zero
  | Some rect =>
      if no_duration σ then zero
      else
        let clickX := num_sub x (rect_left rect) in
        let percentage := math_max zero (math_min one (num_div clickX (rect_width rect))) in
        num_mul percentage (duration (scrub σ))
  end.

(** [try { seekTo(seekTime, true); setCurrentTime(seekTime) } catch ...] *)
Definition seek_and_show (p : Player) (seekTime : num) (s : Scrub) : list PlayerCall * Scrub :=
  let '(made, r) := seekTo p (VNum seekTime) true in
  (made,
   match r with
   | Some _ => {| isDragging := isDragging s; dragTime := dragTime s;
                  currentTime := seekTime; duration := duration s |}
   | None => s
   end).

Definition handleProgressBarMouseDown (e : MouseEvent) (σ : State) : State * list PlayerCall :=
  match playerRef σ with
  | Some _ =>
      if negb (isPlayerReady σ) || no_duration σ then (σ, [])
      else
        let seekTime := calculateSeekTime (clientX e) σ in
        (with_scrub {| isDragging := true; dragTime := seekTime;
                       currentTime := currentTime (scrub σ);
                       duration := duration (scrub σ) |} σ, [])
  | None => (σ, [])
  end.

Definition handleProgressBarMouseMove (e : MouseEvent) (σ : State) : State * list PlayerCall :=
  if negb (isDragging (scrub σ)) || no_duration σ then (σ, [])
  else
    let seekTime := calculateSeekTime (clientX e) σ in
    (with_scrub {| isDragging := isDragging (scrub σ); dragTime := seekTime;
                   currentTime := currentTime (scrub σ);
                   duration := duration (scrub σ) |} σ, []).

Definition handleProgressBarMouseUp (e : MouseEvent) (σ : State) : State * list PlayerCall :=
  match playerRef σ with
  | Some p =>
      if negb (isDragging (scrub σ)) || negb (isPlayerReady σ) then (σ, [])
      else
        let seekTime := calculateSeekTime (clientX e) σ in
        let s := {| isDragging := false; dragTime := zero;
                    currentTime := currentTime (scrub σ);
                    duration := duration (scrub σ) |} in
        let '(made, s') := seek_and_show p seekTime s in
        (with_scrub s' σ, made)
  | None => (σ, [])
  end.

Definition handleProgressBarClick (e : MouseEvent) (σ : State) : State * list PlayerCall :=
  if isDragging (scrub σ) then (σ, [])
  else
    match playerRef σ with
    | Some p =>
        if negb (isPlayerReady σ) || no_duration σ then (σ, [])
        else
          let seekTime := calculateSeekTime (clientX e) σ in
          let '(made, s') := seek_and_show p seekTime (scrub σ) in
          (with_scrub s' σ, made)
    | None => (σ, [])
    end.

(** The four handlers applied to a sequence of pointer events, each on
    the state the previous one left (the component re-renders between two
    events, so each handler closes over the current state).  This is the
    handlers as they are written; what the rendered component receives
    is [receivePointer] below. *)
Inductive PointerEvent :=
  | MouseDown (e : MouseEvent)
  | MouseMove (e : MouseEvent)
  | MouseUp (e : MouseEvent)
  | Click (e : MouseEvent).

Definition handlePointer (ev : PointerEvent) (σ : State) : State * list PlayerCall :=
  match ev with
  | MouseDown e => handleProgressBarMouseDown e σ
  | MouseMove e => handleProgressBarMouseMove e σ
  | MouseUp e => handleProgressBarMouseUp e σ
  | Click e => handleProgressBarClick e σ
  end.

Fixpoint interaction (evs : list PointerEvent) (σ : State) : State * list PlayerCall :=
  match evs with
  | [] => (σ, [])
  | ev :: rest =>
      let '(σ1, made) := handlePointer ev σ in
      let '(σ2, made') := interaction rest σ1 in
      (σ2, made ++ made')
  end.

(** The seeks among the calls made. *)
Definition seeks (l : list PlayerCall) : list JsVal :=
  omap (λ c, match c with SeekTo t _ => Some t | _ => None end) l.

(** What a pointer event does to the component as it is rendered.  The
    four handlers above are given to no element: the rendered tree binds
    [onClick] on the wrapper (to focus it), on the play button, on the
    label, the jump and the clear button of a row and on the save
    button, and nothing else to the mouse; [progressBarRef] is attached
    to no element either.  The one other use of the handlers is the
    effect that depends on [isDragging]: it returns at once unless a
    drag is in progress, and otherwise listens on [document] for
    [mousemove] and [mouseup] with [handleProgressBarMouseMove] and
    [handleProgressBarMouseUp].  The player is created with
    [controls: 1], the track the user sees is the one of the embedded
    player. *)
Definition receivePointer (ev : PointerEvent) (σ : State) : State * list PlayerCall :=
  match ev with
  | MouseDown _ | Click _ => (σ, [])
  | MouseMove e =>
      if isDragging (scrub σ) then handleProgressBarMouseMove e σ else (σ, [])
  | MouseUp e =>
      if isDragging (scrub σ) then handleProgressBarMouseUp e σ else (σ, [])
  end.


(** *** Edits of the live set *)

(** The [onChange] of the label input. *)
Definition setEditingLabel (text : string) (σ : State) : State :=
  with_editor {| editingHotcue := editingHotcue (editor σ);
                 editingLabel := text |} σ.

(** The user actions that change the live Hotcue Set: a run of the
    keyboard listener (a keystroke makes two in a row, see [keystroke]),
    the clear button of a key, and a label typed and committed. *)
Inductive Edit :=
  | PressKey (e : KeyEvent)
  | ClearKey (key : string)
  | EditLabel (key : string) (text : string).

Definition apply_edit (ed : Edit) (σ : State) : option State :=
  match ed with
  | PressKey e => state <$> handleKeyPress e σ
  | ClearKey key => Some (clearHotcue key σ)
  | EditLabel key text => handleHotcueLabelBlur key (setEditingLabel text σ)
  end.

Fixpoint apply_edits (eds : list Edit) (σ : State) : option State :=
  match eds with
  | [] => Some σ
  | ed :: rest => σ1 ← apply_edit ed σ; apply_edits rest σ1
  end.

(** [entry.name = v] performed in place on the entry of [key] in the
    object [store] refers to. *)
Definition rename_in_place (store : JsVal) (key : string) (v : JsVal)
    (h : Heap) : Heap :=
  set_prop (prop h store key) "name" v h.

(** *** Scenarios *)

(** A player that answers every call. *)
Definition responsive (time playerState : JsVal) : Player :=
  {| getCurrentTime := Some time; getPlayerState := Some playerState;
     seekTo_returns := true; playVideo_returns := true;
     pauseVideo_returns := true |}.

(** A mounted component with a ready player and a known duration of 200
    seconds.  [progressBarRef.current] is null, as it is from
    [useRef(null)] on: the ref is attached to no element. *)
Definition mounted (h : Heap) (liveSet savedSet : JsVal) (p : Player) : State :=
  {| cues := {| heap := h; hotcues := liveSet; hotcuesRef := liveSet;
                initialHotcuesRef := savedSet |};
     flash := {| isSettingHotcue := None; triggeredHotcue := None |};
     editor := {| editingHotcue := None; editingLabel := "" |};
     scrub := {| isDragging := false; dragTime := zero; currentTime := zero;
                 duration := num_of 200 0 |};
     saveUi := {| isSaving := false; saveMessage := None |};
     playerRef := Some p; isPlayerReady := true; isPlayerReadyRef := true;
     progressBarRef := None |}.

(** 7.25 and 12.5 seconds. *)
Definition t7_25 : num := num_of 29 (-2).
Definition t12_5 : num := num_of 25 (-1).

(** An empty store, the player paused at 7.25. *)
Definition empty_store : State :=
  mounted [∅] (VRef 0) (VRef 0) (responsive (VNum t7_25) PAUSED).

(** An empty store, the player playing, at 7.25. *)
Definition playing_store : State :=
  mounted [∅] (VRef 0) (VRef 0) (responsive (VNum t7_25) PLAYING).

(** The store [{q: {time: 12.5, name: ''}}], loaded and unedited: the
    live set and the snapshot are the same object. *)
Definition q_heap : Heap :=
  [ <["q" := VRef 1]> ∅; entry (VNum t12_5) (VStr "") ].

Definition q_store : State :=
  mounted q_heap (VRef 0) (VRef 0) (responsive (VNum t7_25) PAUSED).

(** A keystroke outside any text field, and the same inside one. *)
Definition keydown (k code : string) : KeyEvent :=
  {| target_tagName := "BODY"; ev_key := k; ev_code := code |}.

Definition keydown_in_input (k code : string) : KeyEvent :=
  {| target_tagName := "INPUT"; ev_key := k; ev_code := code |}.

(** The target of the event is not a text field. *)
Definition not_text_input (e : KeyEvent) : Prop :=
  target_tagName e ≠ "INPUT" ∧ target_tagName e ≠ "TEXTAREA".

(** A player destroyed under the component: every call throws. *)
Definition destroyed : Player :=
  {| getCurrentTime := None; getPlayerState := None; seekTo_returns := false;
     playVideo_returns := false; pauseVideo_returns := false |}.

(** *** Comparing two hotcue sets by value *)

(** The time and the label of an entry (a legacy entry is its own time
    and has no label). *)
Definition entry_time (ev : EntryView) : JsVal :=
  match ev with
  | Fields o => default VUndefined (o !! "time")
  | Prim v => v
  end.

Definition entry_label (ev : EntryView) : JsVal :=
  match ev with
  | Fields o => js_or (default VUndefined (o !! "name")) (VStr "")
  | Prim _ => VStr ""
  end.

(** Two entries differ when their times or their labels are not
    strictly equal ([===], no tolerance). *)
Definition entry_differs (x y : EntryView) : bool :=
  negb (strict_eq (entry_time x) (entry_time y))
  || negb (strict_eq (entry_label x) (entry_label y)).

(** The live set differs from the snapshot in its key set, or in the
    time or the label of some entry. *)
Definition differs (a b : gmap string EntryView) : Prop :=
  dom a ≠ dom b ∨
  ∃ k x y, a !! k = Some x ∧ b !! k = Some y ∧ entry_differs x y = true.

(** A structured set: a reference to an object all of whose entries are
    references to objects (what [normalizeHotcues] and the handlers
    build). *)
Definition is_ref (v : JsVal) : bool :=
  match v with VRef _ => true | _ => false end.

Definition structured (h : Heap) (s : JsVal) : Prop :=
  is_ref s && valid_ref h s = true ∧
  map_Forall (λ _ v, is_ref v && valid_ref h v = true) (obj_of h s).

(** No entry of the set has NaN as its time. *)
Definition no_nan_time (m : gmap string EntryView) : Prop :=
  map_Forall (λ _ ev, isNaN (entry_time ev) = false) m.

(** The invariant of the hotcue part of the state: the React state, the
    live ref and the snapshot ref are structured sets, and the React
    state and the live ref agree by value. *)
Definition well_formed_state (σ : State) : Prop :=
  structured (heap (cues σ)) (hotcues (cues σ)) ∧
  structured (heap (cues σ)) (hotcuesRef (cues σ)) ∧
  structured (heap (cues σ)) (initialHotcuesRef (cues σ)) ∧
  view (heap (cues σ)) (hotcues (cues σ)) = live σ.

(** The set after a label was committed for [key]: the entry keeps its
    time and takes the new name; a key without entry stays without. *)
Definition with_label (key name : string) (m : gmap string EntryView)
    : gmap string EntryView :=
  match m !! key with
  | Some x => <[key := Fields (entry (entry_time x) (VStr name))]> m
  | None => m
  end.

(** The state right after [discard()] or a successful [save()]. *)
Definition just_settled (σ σ1 : State) : Prop :=
  σ1 = discardChanges σ ∨
  ∃ props username r,
    save_succeeds props username r = true ∧ σ1 = handleSave props username r σ.

(** *** Failure classes of a save *)

Inductive FailureClass :=
  | Unreachable      (* connection unreachable *)
  | TimedOut         (* timeout *)
  | ServerReported   (* the server answered with an error body *)
  | Generic.

(** The class of a rejected request, the earlier class winning when
    several apply. *)
Definition failure_class (error : AxiosError) : FailureClass :=
  if bool_decide (err_code error = Some "ECONNREFUSED")
     || bool_decide (err_code error = Some "ERR_NETWORK") then Unreachable
  else if bool_decide (err_code error = Some "ECONNABORTED")
          || includes "timeout" (err_message error) then TimedOut
  else match err_response error with
       | Some _ => ServerReported
       | None => Generic
       end.

(** The server's answer [{error: 'Invalid data', missingFields:
    ['youtubeUrl']}] to a request, as axios rejects with it. *)
Definition invalid_data : AxiosError :=
  {| err_code := Some "ERR_BAD_REQUEST";
     err_message := "Request failed with status code 400";
     err_response :=
       Some {| response_data :=
                 {| data_error := Some "Invalid data"; data_details := None;
                    data_missingFields := Some ["youtubeUrl"];
                    data_type := None |};
               response_statusText := "Bad Request" |} |}.

(** A logged-in user saving a video with its URL. *)
Definition some_video : Props :=
  {| videoId := Some "dQw4w9WgXcQ";
     youtubeUrl := Some "https://www.youtube.com/watch?v=dQw4w9WgXcQ" |}.

(** The text the server reported: [error || details || statusText]. *)
Definition server_text (response : ErrorResponse) : string :=
  str_or (data_error (response_data response))
    (str_or (data_details (response_data response)) (response_statusText response)).

(** *** More scenarios *)

(** A raw mapping in the wire format with a legacy entry, a structured
    entry, and three malformed ones (a string, null, an object without
    time). *)
Definition wire_heap : Heap :=
  [ <["q" := VNum (num_of 3 (-1))]> (<["w" := VRef 1]> (<["e" := VStr "oops"]>
      (<["r" := VNull]> (<["t" := VRef 2]> ∅))));
    entry (VNum (num_of 3 0)) (VStr "intro");
    <["name" := VStr "no time"]> ∅ ].

(** The mapping [JSON.parse('{"__proto__": 5, "q": 1.5}')]: both keys
    are properties of the object itself. *)
Definition proto_heap : Heap :=
  [ <["__proto__" := VNum (num_of 5 0)]> (<["q" := VNum (num_of 3 (-1))]> ∅) ].

(** A raw mapping whose entry of [q] has an object as its name:
    [{q: {time: 3, name: {text: 'intro'}}}]. *)
Definition named_heap : Heap :=
  [ <["q" := VRef 1]> ∅; entry (VNum (num_of 3 0)) (VRef 2);
    <["text" := VStr "intro"]> ∅ ].

(** [q_store] right after a successful save, and right after a discard. *)
Definition q_store_saved : State :=
  handleSave some_video (Some "ann") (Fulfilled None) q_store.

Definition q_store_discarded : State := discardChanges q_store.

(** [q_store] with a player whose calls throw. *)
Definition q_store_destroyed : State :=
  mounted q_heap (VRef 0) (VRef 0) destroyed.

(** A pointer event 50 pixels from the left edge of the page. *)
Definition mid_track : MouseEvent := {| clientX := num_of 50 0 |}.

(** *** Auxiliary notions of the proofs *)

(** Invariant of the [forEach] loop of [normalizeHotcues]: the heap [h]
    of the call is a prefix of the current heap, the object under
    construction lives at [r = length h], it has no property
    [__proto__] of its own, and every value stored in it so far is a
    reference to an object allocated after it. *)
Definition loop_inv (h : Heap) (r : nat) (h1 : Heap) : Prop :=
  h `prefix_of` h1 ∧ r = length h ∧
  ∃ acc, h1 !! r = Some acc ∧ acc !! "__proto__" = None ∧
         map_Forall (λ _ v, ∃ e, v = VRef e ∧ r < e < length h1) acc.

(** What the wire format promises for the entry stored under one key of
    the normalized object.  The key [__proto__] never names an entry of
    it: the assignment [normalized[key] = ..] sets the prototype there. *)
Definition wire_at (h : Heap) (x : JsVal) (key : string) : option Obj :=
  if decide (key = "__proto__") then None
  else obj_of h x !! key ≫= wire_entry h.

(** Whether the entry of [k] is new or changed, read off the two views:
    what one iteration of the first loop of [hasUnsavedChanges] decides. *)
Definition key_changed (a b : gmap string EntryView) (k : string) : bool :=
  match a !! k, b !! k with
  | Some x, Some y => entry_differs x y
  | Some _, None => true
  | None, _ => false
  end.

(** ** The other handlers of the component *)

(** [handlePlayPause()], the handler of the play/pause button: the calls
    it makes on the player (it updates no state). *)
Definition handlePlayPause (σ : State) : list PlayerCall :=
  match playerRef σ with
  | None => []
  | Some p => if negb (isPlayerReadyRef σ) then [] else (toggle p).1
  end.

(** [handleSeek(hotcueValue)]: the calls it makes.  A TypeError of the
    read of [hotcueValue.time] is caught with the others. *)
Definition handleSeek (hotcueValue : JsVal) (σ : State) : list PlayerCall :=
  match playerRef σ with
  | None => []
  | Some p =>
      if negb (isPlayerReady σ) then []
      else match time_of (heap (cues σ)) hotcueValue with
           | Some seconds => (jump p seconds).1
           | None => []
           end
  end.

(** The row of [key] in the hotcue panel shows [hotcues[key]] of the
    rendered state; its jump button, clear button and label exist when
    that value is truthy. *)
Definition row (key : string) (σ : State) : JsVal :=
  prop (heap (cues σ)) (hotcues (cues σ)) key.

(** The [onClick] of the jump button of a row, [() => handleSeek(hotcue)]. *)
Definition jumpButton (key : string) (σ : State) : list PlayerCall :=
  if truthy (row key σ) then handleSeek (row key σ) σ else [].

(** [handleHotcueLabelClick(key, hotcue)].  The editor of this model
    holds a string: [None] stands for a label that is not a string (the
    component then holds that value, and committing it throws, [trim]
    not being a function of it). *)
Definition handleHotcueLabelClick (key : string) (hotcue : JsVal)
    (σ : State) : option State :=
  if negb (truthy hotcue) then Some σ
  else
    label ← name_of (heap (cues σ)) hotcue;
    match label with
    | VStr s => Some (with_editor {| editingHotcue := Some key;
                                     editingLabel := s |} σ)
    | _ => None
    end.

(** The [onClick] of the label of a row. *)
Definition labelClick (key : string) (σ : State) : option State :=
  if truthy (row key σ) then handleHotcueLabelClick key (row key σ) σ
  else Some σ.

(** [handleHotcueLabelKeyDown(e, key)]: the state it leaves and whether
    it called [e.preventDefault()]. *)
Definition handleHotcueLabelKeyDown (e : KeyEvent) (key : string)
    (σ : State) : option (State * bool) :=
  if bool_decide (ev_key e = "Enter") then
    σ' ← handleHotcueLabelBlur key σ; Some (σ', true)
  else if bool_decide (ev_key e = "Escape") then
    Some (with_editor {| editingHotcue := None; editingLabel := "" |} σ, true)
  else Some (σ, false).

Definition setCurrentTime (t : num) (s : Scrub) : Scrub :=
  {| isDragging := isDragging s; dragTime := dragTime s;
     currentTime := t; duration := duration s |}.

Definition setDuration (d : num) (s : Scrub) : Scrub :=
  {| isDragging := isDragging s; dragTime := dragTime s;
     currentTime := currentTime s; duration := d |}.

(** The callback of the 100 ms interval.  [getDuration] is what
    [playerRef.current.getDuration()] answers at that moment, [None]
    when it throws; the player has both methods.  A time that is not a
    number or is NaN is not shown; a duration is taken only when it is a
    number, not NaN and above 0. *)
Definition updateTime (getDuration : option JsVal) (σ : State) : State :=
  match playerRef σ with
  | Some p =>
      if negb (isPlayerReady σ) then σ
      else
        match getCurrentTime p with
        | None => σ
        | Some time =>
            let s1 := match time with
                      | VNum t => if negb (is_nan t)
                                  then setCurrentTime t (scrub σ) else scrub σ
                      | _ => scrub σ
                      end in
            match getDuration with
            | Some (VNum videoDuration) =>
                if negb (is_nan videoDuration) && num_ltb zero videoDuration
                then with_scrub (setDuration videoDuration s1) σ
                else with_scrub s1 σ
            | _ => with_scrub s1 σ
            end
        end
  | None => σ
  end.

(** ** Video ids ([src/YouTubePlayer.js]) *)

(** The characters excluded by the class [[^&\n?#]]. *)
Definition is_separator (c : ascii) : bool :=
  bool_decide (c = "&"%char) || bool_decide (c = "010"%char)
  || bool_decide (c = "?"%char) || bool_decide (c = "#"%char).

(** The group [([^&\n?#]+)], greedy: the longest run of other characters
    at the start of [s]. *)
Fixpoint capture (s : string) : string :=
  match s with
  | EmptyString => EmptyString
  | String c r => if is_separator c then EmptyString else String c (capture r)
  end.

(** [s] without its prefix [p], when it starts with [p]. *)
Fixpoint strip (p s : string) : option string :=
  match p, s with
  | EmptyString, _ => Some s
  | String a p', String b s' => if bool_decide (a = b) then strip p' s' else None
  | String _ _, EmptyString => None
  end.

(** The alternatives of the first pattern, in their order. *)
Definition url_paths : list string :=
  ["youtube.com/watch?v="; "youtu.be/"; "youtube.com/embed/"; "youtube.com/v/"].

(** The first pattern tried at the start of [s]: the first alternative
    that is followed by at least one character of the group. *)
Fixpoint match_here (paths : list string) (s : string) : option string :=
  match paths with
  | [] => None
  | p :: rest =>
      match strip p s with
      | Some r => if bool_decide (capture r = "") then match_here rest s
                  else Some (capture r)
      | None => match_here rest s
      end
  end.

(** [url.match(/(?:...)([^&\n?#]+)/)], group 1 of the leftmost match. *)
Fixpoint match_url (s : string) : option string :=
  match match_here url_paths s with
  | Some id => Some id
  | None => match s with
            | EmptyString => None
            | String _ s' => match_url s'
            end
  end.

(** The class [[a-zA-Z0-9_-]]. *)
Definition is_id_char (c : ascii) : bool :=
  let n := nat_of_ascii c in
  ((97 <=? n)%nat && (n <=? 122)%nat) || ((65 <=? n)%nat && (n <=? 90)%nat)
  || ((48 <=? n)%nat && (n <=? 57)%nat) || (n =? 95)%nat || (n =? 45)%nat.

Fixpoint all_chars (f : ascii → bool) (s : string) : bool :=
  match s with
  | EmptyString => true
  | String c r => f c && all_chars f r
  end.

(** [/^([a-zA-Z0-9_-]{11})$/] *)
Definition is_direct_id (s : string) : bool :=
  (String.length s =? 11)%nat && all_chars is_id_char s.

(** [match && match[1]]: group 1 of a match, when it is not empty. *)
Definition group1 (m : option string) : option string :=
  match m with
  | Some id => if bool_decide (id = "") then None else Some id
  | None => None
  end.

(** [extractYouTubeVideoId(url)]; [None] is [null]. *)
Definition extractYouTubeVideoId (url : JsVal) : option string :=
  if negb (truthy url) || negb (bool_decide (typeof url = TString)) then None
  else
    match url with
    | VStr s =>
        let url := trim s in
        match group1 (match_url url) with
        | Some id => Some id
        | None => group1 (if is_direct_id url then Some url else None)
        end
    | _ => None
    end.

(** [isValidYouTubeUrl(url)] *)
Definition isValidYouTubeUrl (url : JsVal) : bool :=
  bool_decide (extractYouTubeVideoId url ≠ None).

(** ** The URL form ([YouTubeInput]) *)

(** What [handleSubmit] does with the text of the field: it shows an
    error, or calls [onVideoSubmit(videoId, url.trim())]. *)
Inductive Submission :=
  | Refused (error : string)
  | Submitted (id url : string).

Definition handleSubmit (url : string) : Submission :=
  if bool_decide (trim url = "") then Refused "Please enter a YouTube URL"
  else
    match extractYouTubeVideoId (VStr url) with
    | Some id =>
        if bool_decide (id = "")
        then Refused "Invalid YouTube URL. Please enter a valid YouTube video URL."
        else Submitted id (trim url)
    | None => Refused "Invalid YouTube URL. Please enter a valid YouTube video URL."
    end.

(** ** The page around the player ([MainApp]) *)

(** A video of the sidebar list. *)
Record Video := {
  video_videoId : string;
  video_youtubeUrl : option string;
  video_hotcues : JsVal
}.

(** The [initialHotcues] handed to the player: [null], a new empty
    object, or a value of the list. *)
Inductive HotcuesProp :=
  | NoHotcues
  | EmptyHotcues
  | GivenHotcues (v : JsVal).

Inductive PendingAction := ActSelect | ActNavigate.

Global Instance PendingAction_eq_dec : EqDecision PendingAction.
Proof. solve_decision. Defined.

Record MainApp := {
  app_videoId : option string;
  app_youtubeUrl : option string;
  app_hotcues : HotcuesProp;
  showUnsavedModal : bool;
  pendingVideo : option Video;
  pendingAction : option PendingAction
}.

(** [setVideoId(..); setYoutubeUrl(..); setHotcues(..)] *)
Definition show (id url : option string) (hp : HotcuesProp) (app : MainApp) : MainApp :=
  {| app_videoId := id; app_youtubeUrl := url; app_hotcues := hp;
     showUnsavedModal := showUnsavedModal app;
     pendingVideo := pendingVideo app; pendingAction := pendingAction app |}.

(** [setPendingVideo(..); setPendingAction(..); setShowUnsavedModal(true)] *)
Definition ask (video : option Video) (action : PendingAction) (app : MainApp) : MainApp :=
  {| app_videoId := app_videoId app; app_youtubeUrl := app_youtubeUrl app;
     app_hotcues := app_hotcues app;
     showUnsavedModal := true;
     pendingVideo := video; pendingAction := Some action |}.

(** [playerRef.current && playerRef.current.hasUnsavedChanges &&
    playerRef.current.hasUnsavedChanges()], as a condition.  The handle
    of the player exists while a player is mounted. *)
Definition playerHasUnsavedChanges (player : option State) : option bool :=
  match player with
  | Some σ => hasUnsavedChanges σ
  | None => Some false
  end.

(** [video.hotcues || {}] and [pendingVideo.hotcues || null] *)
Definition hotcues_or_empty (v : JsVal) : HotcuesProp :=
  if truthy v then GivenHotcues v else EmptyHotcues.

Definition hotcues_or_null (v : JsVal) : HotcuesProp :=
  if truthy v then GivenHotcues v else NoHotcues.

(** [handleVideoSelect(video)]; [None] is [handleVideoSelect(null)] on
    the left and an exception on the right. *)
Definition handleVideoSelect (video : option Video) (player : option State)
    (app : MainApp) : option MainApp :=
  match video with
  | None =>
      unsaved ← playerHasUnsavedChanges player;
      if unsaved : bool then Some (ask None ActSelect app)
      else Some (show None None NoHotcues app)
  | Some v =>
      let isDifferentVideo := bool_decide (Some (video_videoId v) ≠ app_videoId app) in
      unsaved ← (if isDifferentVideo then playerHasUnsavedChanges player
                 else Some false);
      if unsaved : bool then Some (ask (Some v) ActSelect app)
      else Some (show (Some (video_videoId v)) (video_youtubeUrl v)
                   (hotcues_or_empty (video_hotcues v)) app)
  end.

(** [handleVideoSubmit(id, url)] *)
Definition handleVideoSubmit (id url : string) (player : option State)
    (app : MainApp) : option MainApp :=
  unsaved ← playerHasUnsavedChanges player;
  if unsaved : bool then
    Some (ask (Some {| video_videoId := id; video_youtubeUrl := Some url;
                       video_hotcues := VNull |}) ActNavigate app)
  else Some (show (Some id) (Some url) NoHotcues app).

(** The callback of the 500 ms timer of [handleUnsavedModalSave]. *)
Definition proceed (app : MainApp) : MainApp :=
  let shown :=
    match pendingAction app, pendingVideo app with
    | Some ActSelect, Some v =>
        show (Some (video_videoId v)) (video_youtubeUrl v)
          (hotcues_or_empty (video_hotcues v)) app
    | Some ActNavigate, Some v =>
        show (Some (video_videoId v)) (video_youtubeUrl v)
          (hotcues_or_null (video_hotcues v)) app
    | _, _ => app
    end in
  {| app_videoId := app_videoId shown; app_youtubeUrl := app_youtubeUrl shown;
     app_hotcues := app_hotcues shown;
     showUnsavedModal := false; pendingVideo := None; pendingAction := None |}.

(** The props the page hands to the player. *)
Definition props_of (app : MainApp) : Props :=
  {| videoId := app_videoId app; youtubeUrl := app_youtubeUrl app |}.

(** [handleUnsavedModalSave()], with its timer: the player's
    [saveChanges()] is awaited (it is [handleSave], whose promise is
    fulfilled however the request settles), then the pending action is
    carried out.  No other handler runs in between. *)
Definition handleUnsavedModalSave (username : option string) (r : Settled)
    (player : option State) (app : MainApp) : MainApp * option State :=
  match player with
  | Some σ => (proceed app, Some (handleSave (props_of app) username r σ))
  | None => (app, None)
  end.

(** [handleUnsavedModalCancel()] *)
Definition handleUnsavedModalCancel (app : MainApp) : MainApp :=
  {| app_videoId := app_videoId app; app_youtubeUrl := app_youtubeUrl app;
     app_hotcues := app_hotcues app;
     showUnsavedModal := false; pendingVideo := None; pendingAction := None |}.

(** *** Notions used in the statements *)

(** Every entry of the set has a number other than NaN as its time. *)
Definition timed (m : gmap string EntryView) : Prop :=
  map_Forall (λ _ ev, ∃ t, entry_time ev = VNum t ∧ is_nan t = false) m.

(** The two sets show the same times and labels under the same keys. *)
Definition same_cues (a b : gmap string EntryView) : Prop :=
  dom a = dom b ∧
  ∀ k x y, a !! k = Some x → b !! k = Some y →
           entry_time x = entry_time y ∧ entry_label x = entry_label y.

(** The duration is unknown (0, as at mount) or a number above 0. *)
Definition duration_ok (σ : State) : Prop :=
  duration (scrub σ) = zero ∨ num_ltb zero (duration (scrub σ)) = true.

(** The raw mapping holds no NaN, as a time or under [time]. *)
Definition raw_no_nan (h : Heap) (x : JsVal) : Prop :=
  map_Forall (λ _ v, isNaN v = false ∧ isNaN (prop h v "time") = false)
    (obj_of h x).

(** The hotcues of the payload of a save: the object of the live ref when
    the request is made. *)
Definition payload (σ : State) : gmap string EntryView :=
  view (heap (cues σ)) (hotcuesRef (cues σ)).

(** No character of [s] is a separator of the class [[^&\n?#]]; no
    character of [s] is the letter y (with which every path of the
    first pattern begins). *)
Definition no_separator (s : string) : bool :=
  all_chars (λ c, negb (is_separator c)) s.

Definition no_y (s : string) : bool :=
  all_chars (λ c, negb (bool_decide (c = "y"%char))) s.

(** [rest] is empty or begins with a separator: what may follow the id
    in a URL. *)
Definition ends_id (rest : string) : bool :=
  match rest with
  | EmptyString => true
  | String c _ => is_separator c
  end.

(** The page shows the same video with the same hotcues as before; the
    page shows the video [v]. *)
Definition same_video (app' app : MainApp) : Prop :=
  app_videoId app' = app_videoId app ∧ app_youtubeUrl app' = app_youtubeUrl app ∧
  app_hotcues app' = app_hotcues app.

Definition shows (v : Video) (app : MainApp) : Prop :=
  app_videoId app = Some (video_videoId v) ∧
  app_youtubeUrl app = video_youtubeUrl v.

(** The page with no video, and with [some_video] shown. *)
Definition no_video : MainApp :=
  {| app_videoId := None; app_youtubeUrl := None; app_hotcues := NoHotcues;
     showUnsavedModal := false; pendingVideo := None; pendingAction := None |}.

Definition showing (props : Props) : MainApp :=
  {| app_videoId := videoId props; app_youtubeUrl := youtubeUrl props;
     app_hotcues := EmptyHotcues;
     showUnsavedModal := false; pendingVideo := None; pendingAction := None |}.

(** Another video of the list. *)
Definition other_video : Video :=
  {| video_videoId := "9bZkp7q19f0";
     video_youtubeUrl := Some "https://www.youtube.com/watch?v=9bZkp7q19f0";
     video_hotcues := VNull |}.

(** [q_store] after hotcue w was set at 7.25 and not saved. *)
Definition q_store_edited : State :=
  default q_store (state <$> handleKeyPress (keydown "w" "KeyW") q_store).

(** *** What the rendered component does

    One step of the component: an event it receives through a handler
    bound in the rendered tree or through a listener it registered, or
    one of its effects.  The play button and the jump buttons call the
    player and update no state.  The creation of the player and its
    callbacks are not among the steps; [setIsDragging] is called in
    [handleProgressBarMouseDown] and [handleProgressBarMouseUp] only. *)
Inductive step : State → State → Prop :=
  | step_pointer ev σ : step σ (receivePointer ev σ).1
  | step_keystroke e σ : step σ (state (keystroke e σ))
  | step_clear key σ : step σ (clearHotcue key σ)
  | step_label_click key σ σ' : labelClick key σ = Some σ' → step σ σ'
  | step_label_change text σ : step σ (setEditingLabel text σ)
  | step_label_blur key σ σ' : handleHotcueLabelBlur key σ = Some σ' → step σ σ'
  | step_label_key e key σ σ' b :
      handleHotcueLabelKeyDown e key σ = Some (σ', b) → step σ σ'
  | step_save props username r σ : step σ (handleSave props username r σ)
  | step_discard σ : step σ (discardChanges σ)
  | step_poll getDuration σ : step σ (updateTime getDuration σ)
  | step_load initialHotcues σ σ' :
      loadInitialHotcues initialHotcues σ = Some σ' → step σ σ'
  | step_sync σ : step σ (syncRefs σ).

(** The states the component reaches from [σ]. *)
Definition reaches (σ σ' : State) : Prop := rtc step σ σ'.

(** * Proofs *)

(** ** Heap lemmas *)

Lemma valid_ref_lt (h : Heap) l : valid_ref h (VRef l) = true ↔ l < length h.
Proof. unfold valid_ref. by rewrite bool_decide_eq_true. Qed.

Lemma valid_ref_prefix (h h' : Heap) v :
  valid_ref h v = true → h `prefix_of` h' → valid_ref h' v = true.
Proof.
  destruct v; try done. rewrite !valid_ref_lt. intros Hl Hp.
  apply prefix_length in Hp. lia.
Qed.

Lemma lookup_prefix (h h' : Heap) l :
  l < length h → h `prefix_of` h' → h' !! l = h !! l.
Proof.
  intros Hl Hp. destruct (lookup_lt_is_Some_2 h l Hl) as [o Ho].
  rewrite Ho. by eapply prefix_lookup_Some.
Qed.

Lemma obj_of_prefix (h h' : Heap) v :
  valid_ref h v = true → h `prefix_of` h' → obj_of h' v = obj_of h v.
Proof.
  destruct v; try done. rewrite valid_ref_lt. intros Hl Hp.
  unfold obj_of. by rewrite (lookup_prefix h h').
Qed.

Lemma view_val_prefix (h h' : Heap) v :
  valid_ref h v = true → h `prefix_of` h' → view_val h' v = view_val h v.
Proof.
  destruct v; try done. rewrite valid_ref_lt. intros Hl Hp.
  unfold view_val. by rewrite (lookup_prefix h h').
Qed.

Lemma view_prefix (h h' : Heap) s :
  closed h s → h `prefix_of` h' → view h' s = view h s.
Proof.
  intros [Hs Hall] Hp. unfold view. rewrite (obj_of_prefix h h') by done.
  apply map_fmap_ext. intros k v Hk. apply view_val_prefix; [|done].
  by apply (Hall k v).
Qed.

Lemma closed_prefix (h h' : Heap) s :
  closed h s → h `prefix_of` h' → closed h' s.
Proof.
  intros [Hs Hall] Hp. split; [by eapply valid_ref_prefix|].
  rewrite (obj_of_prefix h h') by done.
  intros k v Hk. eapply valid_ref_prefix; [by apply (Hall k v)|done].
Qed.

Lemma alloc_prefix (h : Heap) o : h `prefix_of` (alloc o h).2.
Proof. by apply prefix_app_r. Qed.

Lemma obj_of_alloc (h : Heap) o : obj_of (h ++ [o]) (VRef (length h)) = o.
Proof. unfold obj_of. by rewrite lookup_app_r, Nat.sub_diag by lia. Qed.

(** An assignment at [__proto__] adds no property to an object that has
    none of that name. *)
Lemma set_prop_proto (h : Heap) l o v :
  h !! l = Some o → o !! "__proto__" = None →
  set_prop (VRef l) "__proto__" v h = h.
Proof.
  intros Hl Ho. unfold set_prop. rewrite Hl.
  by rewrite (bool_decide_eq_true_2 _ Ho).
Qed.

(** At any other key, and at a key the object has, it writes the
    property. *)
Lemma set_prop_own (h : Heap) l o k v :
  h !! l = Some o → k ≠ "__proto__" ∨ is_Some (o !! k) →
  set_prop (VRef l) k v h = <[l := <[k := v]> o]> h.
Proof.
  intros Hl Hk. unfold set_prop. rewrite Hl.
  destruct Hk as [Hk|[w Hw]].
  - by rewrite (bool_decide_eq_false_2 _ Hk).
  - rewrite (bool_decide_eq_false_2 (o !! k = None)) by (by rewrite Hw).
    by rewrite andb_false_r.
Qed.

Lemma delete_prop_fresh (h : Heap) o k :
  delete_prop (VRef (length h)) k (h ++ [o]) = h ++ [delete k o].
Proof.
  unfold delete_prop. rewrite lookup_app_r, Nat.sub_diag by lia. simpl.
  rewrite insert_app_r_alt, Nat.sub_diag by lia. done.
Qed.

Lemma view_val_alloc (h : Heap) o : view_val (h ++ [o]) (VRef (length h)) = Fields o.
Proof. unfold view_val. by rewrite lookup_app_r, Nat.sub_diag by lia. Qed.

(** The view of a fresh object whose values all point into the heap. *)
Lemma view_fresh (h : Heap) (o : Obj) :
  map_Forall (λ _ v, valid_ref h v = true) o →
  view (h ++ [o]) (VRef (length h)) = view_val h <$> o.
Proof.
  intros Hall. unfold view. rewrite obj_of_alloc.
  apply map_fmap_ext. intros k v Hk. apply view_val_prefix.
  - by apply (Hall k v).
  - by apply prefix_app_r.
Qed.

Lemma closed_fresh (h : Heap) (o : Obj) :
  map_Forall (λ _ v, valid_ref h v = true) o →
  closed (h ++ [o]) (VRef (length h)).
Proof.
  intros Hall. split.
  - apply valid_ref_lt. rewrite length_app. simpl. lia.
  - rewrite obj_of_alloc. intros k v Hk.
    eapply valid_ref_prefix; [by apply (Hall k v)|by apply prefix_app_r].
Qed.

(** ** normalizeHotcues *)

Lemma is_number_VNum v : is_number v = true ↔ ∃ n, v = VNum n.
Proof.
  unfold is_number. rewrite bool_decide_eq_true.
  destruct v; simpl; split; try done; try (intros [? ?]; done). eauto.
Qed.

(** On one heap, the callback computes what the wire format promises. *)
Lemma normalizeEntry_wire (h : Heap) v : normalizeEntry h v = Some (wire_entry h v).
Proof.
  unfold normalizeEntry, wire_entry.
  destruct v as [| |b|x|s|l]; try done.
  - by destruct b.
  - simpl. by destruct (negb (bool_decide (s = ""))).
  - simpl. destruct (prop h (VRef l) "time"); done.
Qed.

(** The callback only looks at the object its argument refers to. *)
Lemma normalizeEntry_obj (h h' : Heap) v :
  obj_of h' v = obj_of h v → normalizeEntry h' v = normalizeEntry h v.
Proof.
  intros Ho. unfold normalizeEntry, get_prop, prop. rewrite Ho. done.
Qed.

Lemma prefix_insert_ge (h h1 : Heap) (r : nat) o :
  h `prefix_of` h1 → (length h ≤ r)%nat → h `prefix_of` <[r := o]> h1.
Proof.
  intros [t ->] Hr. rewrite insert_app_r_alt by done. by apply prefix_app_r.
Qed.

Lemma loop_step (h : Heap) r h1 key lit :
  loop_inv h r h1 →
  let h2 := set_prop (VRef r) key (VRef (length h1)) (h1 ++ [lit]) in
  loop_inv h r h2 ∧
  ∀ k, view h2 (VRef r) !! k =
       if decide (k = key ∧ key ≠ "__proto__") then Some (Fields lit)
       else view h1 (VRef r) !! k.
Proof.
  intros (Hp & Hr & acc & Hacc & Hproto & Hall). cbv zeta.
  assert (Hlt : r < length h1) by (by eapply lookup_lt_Some).
  assert (Hacc' : (h1 ++ [lit]) !! r = Some acc) by (by apply lookup_app_l_Some).
  destruct (decide (key = "__proto__")) as [->|Hkey].
  { rewrite (set_prop_proto _ _ _ _ Hacc' Hproto). split.
    - split; [by etrans; [exact Hp|apply prefix_app_r]|]. split; [done|].
      exists acc. split; [done|]. split; [done|].
      intros k v Hk. destruct (Hall k v Hk) as (e & -> & He).
      exists e. split; [done|]. rewrite length_app. simpl. lia.
    - intros k. rewrite decide_False by (by intros [_ ?]).
      unfold view, obj_of. rewrite Hacc', Hacc. simpl. rewrite !lookup_fmap.
      destruct (acc !! k) as [v|] eqn:Hk; [|done]. simpl. f_equal.
      destruct (Hall k v Hk) as (e & -> & He). unfold view_val.
      by rewrite lookup_app_l by lia. }
  rewrite (set_prop_own _ _ _ _ _ Hacc' (or_introl Hkey)).
  assert (Hlen : length (<[r:=<[key:=VRef (length h1)]> acc]> (h1 ++ [lit])) = S (length h1)).
  { rewrite length_insert, length_app. simpl. lia. }
  split.
  - split; [|split; [done|]].
    + apply prefix_insert_ge; [by apply prefix_app_r|lia].
    + exists (<[key:=VRef (length h1)]> acc). split.
      * apply list_lookup_insert_eq. rewrite length_app. lia.
      * split; [by rewrite lookup_insert_ne|].
        apply map_Forall_insert_2.
        -- exists (length h1). split; [done|]. rewrite Hlen. lia.
        -- intros k v Hk. destruct (Hall k v Hk) as (e & -> & He).
           exists e. split; [done|]. rewrite Hlen. lia.
  - intros k. unfold view, obj_of.
    rewrite list_lookup_insert_eq by (rewrite length_app; lia). simpl.
    rewrite Hacc. simpl. rewrite !lookup_fmap.
    destruct (decide (k = key)) as [->|Hne].
    + rewrite decide_True by done.
      rewrite lookup_insert_eq. simpl. unfold view_val.
      rewrite list_lookup_insert_ne by lia.
      by rewrite lookup_app_r, Nat.sub_diag by lia.
    + rewrite decide_False by (by intros [? _]).
      rewrite lookup_insert_ne by done.
      destruct (acc !! k) as [v|] eqn:Hk; [|done]. simpl. f_equal.
      destruct (Hall k v Hk) as (e & -> & He). unfold view_val.
      rewrite list_lookup_insert_ne by lia.
      by rewrite lookup_app_l by lia.
Qed.

Lemma loop_inv_prefix h r h1 : loop_inv h r h1 → h `prefix_of` h1.
Proof. by intros (? & _). Qed.

(** The loop starts on the empty object just allocated. *)
Lemma loop_inv_init (h : Heap) : loop_inv h (length h) (h ++ [∅]).
Proof.
  split; [by apply prefix_app_r|]. split; [done|]. exists ∅. split.
  - by rewrite lookup_app_r, Nat.sub_diag by lia.
  - split; [done|]. apply map_Forall_empty.
Qed.

Lemma normalizeLoop_spec (h : Heap) (x : JsVal) (r : nat) (keys : list string) :
  truthy x = true → closed h x →
  ∀ h1, loop_inv h r h1 →
    ∃ h2, normalizeLoop x (VRef r) keys h1 = Some h2 ∧
          loop_inv h r h2 ∧
          ∀ k, view h2 (VRef r) !! k =
               match (if decide (k ∈ keys) then wire_at h x k else None) with
               | Some lit => Some (Fields lit)
               | None => view h1 (VRef r) !! k
               end.
Proof.
  intros Hx [Hvx Hall]. induction keys as [|key rest IH]; intros h1 Hinv.
  { exists h1. split; [done|]. split; [done|]. intros k.
    rewrite decide_False by apply not_elem_of_nil. done. }
  pose proof (loop_inv_prefix _ _ _ Hinv) as Hp.
  assert (Hobj : obj_of h1 x = obj_of h x) by (by apply obj_of_prefix).
  assert (Hget : get_prop h1 x key = Some (prop h x key)).
  { unfold get_prop, prop. rewrite Hobj. by destruct x. }
  simpl. rewrite Hget. simpl.
  assert (Hentry : normalizeEntry h1 (prop h x key) = Some (wire_entry h (prop h x key))).
  { rewrite <- normalizeEntry_wire. apply normalizeEntry_obj.
    unfold prop. destruct (obj_of h x !! key) as [v|] eqn:Hk; [|done].
    simpl. apply obj_of_prefix; [|done]. by apply (Hall key v). }
  rewrite Hentry. simpl.
  assert (Hwire : obj_of h x !! key ≫= wire_entry h = wire_entry h (prop h x key)).
  { unfold prop. by destruct (obj_of h x !! key). }
  assert (Hproto : wire_at h x "__proto__" = None).
  { unfold wire_at. by rewrite decide_True. }
  destruct (wire_entry h (prop h x key)) as [lit|] eqn:Hw.
  - destruct (loop_step h r h1 key lit Hinv) as [Hinv2 Hview2].
    destruct (IH _ Hinv2) as (h2 & Hrun & Hinv3 & Hview3).
    exists h2. split; [done|]. split; [done|]. intros k.
    rewrite Hview3, Hview2.
    assert (Hkey : key ≠ "__proto__" → wire_at h x key = Some lit).
    { intros Hne. unfold wire_at. by rewrite decide_False, Hwire. }
    destruct (decide (k ∈ rest)) as [Hin|Hnin];
      destruct (decide (k ∈ key :: rest)) as [Hin'|Hnin'];
      destruct (decide (k = key ∧ key ≠ "__proto__")) as [[-> Hne]|Hd];
      try (exfalso; apply Hnin', elem_of_cons; by auto);
      rewrite ?(Hkey Hne); try done.
    apply elem_of_cons in Hin' as [->|?]; [|done].
    destruct (decide (key = "__proto__")) as [->|Hne]; [|exfalso; by apply Hd].
    by rewrite Hproto.
  - destruct (IH _ Hinv) as (h2 & Hrun & Hinv3 & Hview3).
    exists h2. split; [done|]. split; [done|]. intros k.
    rewrite Hview3.
    assert (Hkey : wire_at h x key = None).
    { unfold wire_at. case_decide; [done|]. by rewrite Hwire. }
    destruct (decide (k ∈ rest)) as [Hin|Hnin];
      destruct (decide (k ∈ key :: rest)) as [Hin'|Hnin'];
      try (exfalso; apply Hnin', elem_of_cons; by auto); try done.
    apply elem_of_cons in Hin' as [->|?]; [|done]. by rewrite Hkey.
Qed.

Lemma obj_of_falsy (h : Heap) x : truthy x = false → obj_of h x = ∅.
Proof. by destruct x. Qed.

Lemma wire_entry_well_formed h v lit :
  wire_entry h v = Some lit → well_formed (Fields lit).
Proof.
  unfold wire_entry, well_formed. destruct v; try done.
  - intros [= <-]. by eexists _, _.
  - destruct (prop h (VRef l) "time"); try done. intros [= <-].
    eexists _, _. split; [done|]. unfold js_or.
    destruct (truthy (prop h (VRef l) "name")) eqn:Ht; [by rewrite Ht|done].
Qed.

(** What [normalizeHotcues] returns, on any input without dangling
    references. *)
Lemma normalizeHotcues_spec (h : Heap) (x : JsVal) :
  closed h x →
  ∃ r h', normalizeHotcues x h = Some (VRef r, h') ∧
          h `prefix_of` h' ∧
          closed h' (VRef r) ∧
          ∀ key, view h' (VRef r) !! key = Fields <$> wire_at h x key.
Proof.
  intros Hc. unfold normalizeHotcues.
  destruct (truthy x) eqn:Hx; simpl.
  - destruct (normalizeLoop_spec h x (length h) (object_keys h x) Hx Hc _
                (loop_inv_init h))
      as (h2 & Hrun & Hinv2 & Hview).
    rewrite Hrun. simpl. exists (length h), h2. split; [done|].
    destruct Hinv2 as (Hp & _ & acc & Hacc & _ & Hall). split; [done|]. split.
    + split.
      * apply valid_ref_lt. by eapply lookup_lt_Some.
      * unfold obj_of. rewrite Hacc. simpl. intros k v Hk.
        destruct (Hall k v Hk) as (e & -> & He). apply valid_ref_lt. lia.
    + intros key. rewrite Hview.
      assert (Hempty : view (h ++ [∅]) (VRef (length h)) !! key = None).
      { unfold view. rewrite obj_of_alloc. by rewrite fmap_empty. }
      rewrite Hempty.
      destruct (decide (key ∈ object_keys h x)) as [Hin|Hnin].
      * by destruct (wire_at h x key).
      * unfold wire_at. case_decide; [done|].
        assert (obj_of h x !! key = None) as ->; [|done].
        apply not_elem_of_dom. intros Hd. apply Hnin.
        unfold object_keys. apply elem_of_dom in Hd as [v Hv].
        apply list_elem_of_fmap. exists (key, v). split; [done|].
        by apply elem_of_map_to_list.
  - exists (length h), (h ++ [∅]). split; [done|].
    split; [by apply prefix_app_r|]. split.
    + apply closed_fresh. apply map_Forall_empty.
    + intros key. unfold view. rewrite obj_of_alloc, fmap_empty.
      unfold wire_at. rewrite obj_of_falsy by done. by case_decide.
Qed.

(** The result is a structured set. *)
Lemma normalizeHotcues_structured (h : Heap) (x r : JsVal) (h' : Heap) :
  closed h x → normalizeHotcues x h = Some (r, h') → structured h' r.
Proof.
  intros Hc. unfold normalizeHotcues.
  destruct (truthy x) eqn:Hx; simpl.
  - destruct (normalizeLoop_spec h x (length h) (object_keys h x) Hx Hc _
                (loop_inv_init h))
      as (h2 & Hrun & (_ & _ & acc & Hacc & _ & Hall) & _).
    rewrite Hrun. simpl. intros [= <- <-].
    assert (Hlt : length h < length h2) by (by eapply lookup_lt_Some).
    split.
    + simpl. by apply bool_decide_eq_true.
    + unfold obj_of. rewrite Hacc. simpl. intros k v Hk.
      destruct (Hall k v Hk) as (e & -> & He). simpl.
      apply bool_decide_eq_true. lia.
  - intros [= <- <-]. split.
    + simpl. apply bool_decide_eq_true. rewrite length_app. simpl. lia.
    + rewrite obj_of_alloc. apply map_Forall_empty.
Qed.

Lemma wire_heap_closed : closed wire_heap (VRef 0).
Proof.
  split; [reflexivity|]. apply (bool_decide_eq_true_1 _). vm_compute. reflexivity.
Defined.

Lemma wire_at_other (h : Heap) (x : JsVal) (key : string) :
  key ≠ "__proto__" → wire_at h x key = obj_of h x !! key ≫= wire_entry h.
Proof. intros Hne. unfold wire_at. by rewrite decide_False. Qed.

Lemma wire_at_Some (h : Heap) (x : JsVal) (key : string) (lit : Obj) :
  wire_at h x key = Some lit →
  key ≠ "__proto__" ∧ ∃ value, obj_of h x !! key = Some value ∧
                               wire_entry h value = Some lit.
Proof.
  unfold wire_at. case_decide; [done|]. intros Hw. split; [done|].
  destruct (obj_of h x !! key) as [value|]; [|done]. by exists value.
Qed.

(** C6 (corrected).  [normalizeHotcues] is total and sanitizing: on every
    input mapping it returns (it never throws); under every key other
    than [__proto__], a bare number [n] becomes [{time: n, name: ''}], an
    object with a numeric [time] becomes [{time, name}] with the name
    defaulted to the empty string, and an entry that is neither is
    dropped (and only those are); so every entry of the output is well
    formed.  The keys of a hotcue mapping are the letters of the
    keyboard; [__proto__] is none of them, and the plain object that
    holds the result takes no entry under that name. *)
Theorem normalizeHotcues_total_sanitizing (h : Heap) (x : JsVal) :
  closed h x →
  ∃ r h', normalizeHotcues x h = Some (r, h') ∧
    (∀ key n, key ≠ "__proto__" → obj_of h x !! key = Some (VNum n) →
       view h' r !! key = Some (Fields (entry (VNum n) (VStr "")))) ∧
    (∀ key value t, key ≠ "__proto__" → obj_of h x !! key = Some value →
       is_number value = false → truthy value = true → is_object value = true →
       prop h value "time" = VNum t →
       view h' r !! key =
         Some (Fields (entry (VNum t) (js_or (prop h value "name") (VStr ""))))) ∧
    (∀ key, key ≠ "__proto__" →
       view h' r !! key = None ↔
       match obj_of h x !! key with
       | None => True
       | Some value =>
           is_number value = false ∧
           (truthy value && is_object value && is_number (prop h value "time")) = false
       end) ∧
    map_Forall (λ _ ev, well_formed ev) (view h' r).
Proof.
  intros Hc. destruct (normalizeHotcues_spec h x Hc) as (r & h' & Hrun & _ & _ & Hview).
  exists (VRef r), h'. split_and!; [done|..].
  - intros key n Hne Hk. by rewrite Hview, wire_at_other, Hk.
  - intros key value t Hne Hk Hn Ht Ho Htime. rewrite Hview, wire_at_other, Hk by done.
    simpl. destruct value; try done. simpl. by rewrite Htime.
  - intros key Hne. rewrite Hview, wire_at_other by done.
    destruct (obj_of h x !! key) as [value|]; [|done]. simpl.
    destruct value as [| |b|n|s|l]; simpl; try (by split).
    + by destruct b.
    + split; [done|]. by intros [[=] _].
    + by destruct (negb _).
    + destruct (prop h (VRef l) "time"); simpl; try (by split).
      split; [done|]. by intros [_ [=]].
  - intros key ev Hk. rewrite Hview in Hk.
    destruct (wire_at h x key) as [lit|] eqn:Hw; [|done].
    simpl in Hk. injection Hk as <-.
    apply wire_at_Some in Hw as (_ & value & _ & Hw).
    by eapply wire_entry_well_formed.
Qed.

Lemma normalizeHotcues_total_sanitizing_witness :
  closed wire_heap (VRef 0) ∧
  ∃ r h', normalizeHotcues (VRef 0) wire_heap = Some (r, h') ∧
          view h' r !! "q" = Some (Fields (entry (VNum (num_of 3 (-1))) (VStr ""))) ∧
          view h' r !! "e" = None.
Proof.
  split; [exact wire_heap_closed|].
  destruct (normalizeHotcues_total_sanitizing wire_heap (VRef 0) wire_heap_closed)
    as (r & h' & Hrun & Hnum & _ & Hdrop & _).
  exists r, h'. split; [exact Hrun|]. split.
  - apply Hnum; [discriminate|reflexivity].
  - apply Hdrop; [discriminate|]. vm_compute. split; reflexivity.
Defined.

(** C6, the input on which the claim as stated fails: the mapping
    [{"__proto__": 5, "q": 1.5}] has a bare number under [__proto__],
    and the result has the entry of [q] only. *)
Lemma proto_entry_is_not_normalized :
  obj_of proto_heap (VRef 0) !! "__proto__" = Some (VNum (num_of 5 0)) ∧
  ∃ r h', normalizeHotcues (VRef 0) proto_heap = Some (r, h') ∧
          view h' r !! "__proto__" = None ∧
          view h' r = {[ "q" := Fields (entry (VNum (num_of 3 (-1))) (VStr "")) ]}.
Proof.
  split; [reflexivity|]. eexists _, _. split; [vm_compute; reflexivity|].
  split; apply (bool_decide_eq_true_1 _); vm_compute; reflexivity.
Qed.

(** C5 (confirmed).  [normalizeHotcues] is idempotent: normalizing the
    result of a normalization gives a set equal, by value, to that
    result. *)
Theorem normalizeHotcues_idempotent (h : Heap) (x : JsVal) :
  closed h x →
  ∃ r1 h1 r2 h2,
    normalizeHotcues x h = Some (r1, h1) ∧
    normalizeHotcues r1 h1 = Some (r2, h2) ∧
    view h2 r2 = view h1 r1.
Proof.
  intros Hc.
  destruct (normalizeHotcues_spec h x Hc) as (r1 & h1 & Hrun1 & _ & Hc1 & Hview1).
  destruct (normalizeHotcues_spec h1 (VRef r1) Hc1) as (r2 & h2 & Hrun2 & _ & _ & Hview2).
  exists (VRef r1), h1, (VRef r2), h2. split; [done|]. split; [done|].
  apply map_eq. intros key. rewrite Hview2.
  pose proof (Hview1 key) as Hk. unfold view in Hk |- *.
  rewrite lookup_fmap in Hk |- *.
  destruct (obj_of h1 (VRef r1) !! key) as [v|] eqn:Hv.
  2: { unfold wire_at. rewrite Hv. by case_decide. }
  simpl in Hk.
  destruct (wire_at h x key) as [lit|] eqn:Hw; [|done].
  simpl in Hk. injection Hk as Hk.
  apply wire_at_Some in Hw as (Hne & value & _ & Hw).
  rewrite wire_at_other, Hv by done. simpl.
  assert (Hwf : well_formed (Fields lit)) by (by eapply wire_entry_well_formed).
  destruct Hwf as (t & n & [= ->] & Hn).
  unfold view_val in Hk |- *. destruct v as [| | | | |l]; try done.
  destruct (h1 !! l) as [o|] eqn:Hl; [|done]. injection Hk as ->.
  unfold wire_entry, prop, obj_of. rewrite Hl. simpl.
  unfold entry. rewrite lookup_insert_eq. simpl.
  rewrite lookup_insert_ne by done. rewrite lookup_insert_eq. simpl.
  by rewrite Hn.
Qed.

Lemma normalizeHotcues_idempotent_witness :
  closed wire_heap (VRef 0) ∧
  ∃ r1 h1 r2 h2,
    normalizeHotcues (VRef 0) wire_heap = Some (r1, h1) ∧
    normalizeHotcues r1 h1 = Some (r2, h2) ∧
    view h2 r2 = view h1 r1.
Proof.
  split; [exact wire_heap_closed|].
  exact (normalizeHotcues_idempotent wire_heap (VRef 0) wire_heap_closed).
Defined.

(** ** The keyboard dispatcher *)

Lemma toLowerCase_letter (k : string) : k ∈ LETTER_KEYS → toLowerCase k = k.
Proof.
  revert k. apply Forall_forall. unfold LETTER_KEYS.
  repeat (constructor; [reflexivity|]). constructor.
Qed.

Lemma spread_with_spec (h : Heap) (source : JsVal) key t n :
  closed h source →
  ∃ h', spread_with h source key t n = (VRef (S (length h)), h') ∧
        h `prefix_of` h' ∧
        closed h' (VRef (S (length h))) ∧
        view h' (VRef (S (length h)))
        = <[key := Fields (entry t n)]> (view h source).
Proof.
  intros Hc. unfold spread_with, alloc.
  eexists. split.
  { rewrite length_app. simpl. rewrite Nat.add_1_r. reflexivity. }
  set (h1 := h ++ [entry t n]).
  assert (Hp : h `prefix_of` h1) by (by apply prefix_app_r).
  assert (Hlen : length h1 = S (length h)).
  { unfold h1. rewrite length_app. simpl. lia. }
  assert (Hall : map_Forall (λ _ v, valid_ref h1 v = true)
                   (<[key := VRef (length h)]> (obj_of h1 source))).
  { apply map_Forall_insert_2.
    - apply valid_ref_lt. lia.
    - apply (closed_prefix h h1 source Hc Hp). }
  split; [|split].
  - by apply prefix_app_r.
  - rewrite <- Hlen. by apply closed_fresh.
  - rewrite <- Hlen. rewrite view_fresh by done.
    rewrite fmap_insert. unfold h1 at 1. rewrite view_val_alloc.
    f_equal. apply (view_prefix h h1 source Hc Hp).
Qed.

Lemma not_text_input_guard e :
  not_text_input e →
  bool_decide (target_tagName e = "INPUT")
  || bool_decide (target_tagName e = "TEXTAREA") = false.
Proof.
  intros [H1 H2]. by rewrite !bool_decide_eq_false_2.
Qed.

(** The set branch of the dispatcher. *)
Lemma set_branch (e : KeyEvent) (σ : State) (p : Player) :
  not_text_input e →
  ev_key e ∈ LETTER_KEYS →
  playerRef σ = Some p → isPlayerReadyRef σ = true →
  closed (heap (cues σ)) (hotcuesRef (cues σ)) →
  get_prop (heap (cues σ)) (hotcuesRef (cues σ)) (ev_key e) = Some VUndefined →
  ∃ o, handleKeyPress e σ = Some o ∧
       calls o = [GetCurrentTime] ∧
       match getCurrentTime p with
       | Some (VNum t) =>
           if is_nan t then cues (state o) = cues σ
           else live (state o)
                = <[ev_key e := Fields (entry (VNum t) (VStr ""))]> (live σ)
                ∧ hotcues (cues (state o)) = hotcuesRef (cues (state o))
                ∧ initialHotcuesRef (cues (state o)) = initialHotcuesRef (cues σ)
       | _ => cues (state o) = cues σ
       end.
Proof.
  intros Hfocus Hkey Hp Hready Hc Hget. unfold handleKeyPress.
  rewrite (not_text_input_guard e Hfocus).
  rewrite (toLowerCase_letter _ Hkey), Hp, Hready.
  rewrite bool_decide_eq_true_2 by done. cbn -[spread_with].
  rewrite Hget. cbn -[spread_with].
  destruct (getCurrentTime p) as [[| | |t| |]|]; cbn -[spread_with];
    try (by eexists).
  destruct (is_nan t) eqn:Hnan; cbn -[spread_with]; [by eexists|].
  destruct (spread_with_spec _ _ (ev_key e) (VNum t) (VStr "") Hc)
    as (h' & -> & _ & _ & Hview).
  eexists. split; [done|]. split; [done|]. by unfold live.
Qed.

Lemma keydown_not_text_input k code : not_text_input (keydown k code).
Proof. by split. Qed.

Lemma w_is_letter : "w" ∈ LETTER_KEYS.
Proof. apply (bool_decide_eq_true_1 _). reflexivity. Defined.

(** The two runs of a keystroke. *)
Lemma runListener_Some (e : KeyEvent) (σ : State) (o : Outcome) :
  handleKeyPress e σ = Some o → runListener e σ = o.
Proof. intros H. unfold runListener. by rewrite H. Qed.

Lemma keystroke_runs (e : KeyEvent) (σ : State) (o1 o2 : Outcome) :
  handleKeyPress e σ = Some o1 → handleKeyPress e (state o1) = Some o2 →
  keystroke e σ
  = {| state := state o2; calls := calls o1 ++ calls o2;
       defaultPrevented := defaultPrevented o1 || defaultPrevented o2 |}.
Proof.
  intros H1 H2. unfold keystroke. cbv zeta.
  by rewrite (runListener_Some _ _ _ H1), (runListener_Some _ _ _ H2).
Qed.

(** C1 (the code falls short of it).  The listener is registered twice,
    so the keystroke that sets a hotcue also jumps to it.  With an empty
    store and the player ready at 7.25, a keystroke [w] outside any text
    field: the first run of the listener reads the time and makes no
    other call, and stores [{w: {time: 7.25, name: ''}}], which is what
    the claim and the comment of the set branch (We do NOT play the video
    when setting) ask for; the second run of the same keystroke finds
    that entry and calls [seekTo(7.25, true)] and [playVideo()]. *)
Theorem keystroke_on_unset_key_sets_then_seeks_and_plays :
  not_text_input (keydown "w" "KeyW") ∧
  ev_key (keydown "w" "KeyW") ∈ LETTER_KEYS ∧
  playerRef empty_store = Some (responsive (VNum t7_25) PAUSED) ∧
  isPlayerReadyRef empty_store = true ∧
  live empty_store = ∅ ∧
  getCurrentTime (responsive (VNum t7_25) PAUSED) = Some (VNum t7_25) ∧
  calls (runListener (keydown "w" "KeyW") empty_store) = [GetCurrentTime] ∧
  live (state (keystroke (keydown "w" "KeyW") empty_store))
  = {[ "w" := Fields (entry (VNum t7_25) (VStr "")) ]} ∧
  calls (keystroke (keydown "w" "KeyW") empty_store)
  = [GetCurrentTime; SeekTo (VNum t7_25) true; PlayVideo].
Proof.
  split; [apply keydown_not_text_input|]. split; [exact w_is_letter|].
  split_and!; vm_compute; reflexivity.
Qed.

(** C2 (amended).  For every keystroke whose target is not an INPUT or
    TEXTAREA element and whose key is in the hotcue alphabet, while the
    player is ready and the store has an entry for that key: the
    dispatcher calls [seekTo] with the entry's stored time and then, when
    that call returns, [playVideo]; it makes no other call and does not
    change the store. *)
Theorem keypress_on_set_key_jumps (e : KeyEvent) (σ : State) (p : Player)
    (hotcue t : JsVal) :
  not_text_input e →
  ev_key e ∈ LETTER_KEYS →
  playerRef σ = Some p → isPlayerReadyRef σ = true →
  get_prop (heap (cues σ)) (hotcuesRef (cues σ)) (ev_key e) = Some hotcue →
  strict_eq hotcue VUndefined = false →
  time_of (heap (cues σ)) hotcue = Some t →
  ∃ o, handleKeyPress e σ = Some o ∧
       cues (state o) = cues σ ∧
       calls o = SeekTo t true :: (if seekTo_returns p then [PlayVideo] else []).
Proof.
  intros Hfocus Hkey Hp Hready Hget Hdef Htime. unfold handleKeyPress.
  rewrite (not_text_input_guard e Hfocus).
  rewrite (toLowerCase_letter _ Hkey), Hp, Hready.
  rewrite bool_decide_eq_true_2 by done. cbn.
  rewrite Hget. cbn. rewrite Hdef. cbn. rewrite Htime. cbn.
  eexists. split; [done|]. split; [done|]. cbn.
  by destruct (seekTo_returns p).
Qed.

Lemma q_is_letter : "q" ∈ LETTER_KEYS.
Proof. apply (bool_decide_eq_true_1 _). reflexivity. Defined.

Lemma keypress_on_set_key_jumps_witness :
  ∃ o, handleKeyPress (keydown "q" "KeyQ") q_store = Some o ∧
       cues (state o) = cues q_store ∧
       calls o = [SeekTo (VNum t12_5) true; PlayVideo].
Proof.
  exact (keypress_on_set_key_jumps (keydown "q" "KeyQ") q_store
           (responsive (VNum t7_25) PAUSED) (VRef 1) (VNum t12_5)
           (keydown_not_text_input _ _) q_is_letter eq_refl eq_refl
           eq_refl eq_refl eq_refl).
Defined.


(** C2 as stated fails: [q] typed into a text input is ignored although
    the store has an entry for [q]; and when the player's [seekTo] throws,
    [playVideo] is not called. *)
Lemma keypress_in_text_input_jumps_nowhere :
  ev_key (keydown_in_input "q" "KeyQ") ∈ LETTER_KEYS ∧
  playerRef q_store = Some (responsive (VNum t7_25) PAUSED) ∧
  isPlayerReadyRef q_store = true ∧
  get_prop (heap (cues q_store)) (hotcuesRef (cues q_store))
    (ev_key (keydown_in_input "q" "KeyQ"))
  = Some (VRef 1) ∧
  time_of (heap (cues q_store)) (VRef 1) = Some (VNum t12_5) ∧
  handleKeyPress (keydown_in_input "q" "KeyQ") q_store
  = Some {| state := q_store; calls := []; defaultPrevented := false |} ∧
  playerRef q_store_destroyed = Some destroyed ∧
  isPlayerReadyRef q_store_destroyed = true ∧
  calls <$> handleKeyPress (keydown "q" "KeyQ") q_store_destroyed
  = Some [SeekTo (VNum t12_5) true].
Proof.
  simpl. split_and!; try reflexivity. exact q_is_letter.
Qed.

Lemma k_is_letter : "k" ∈ LETTER_KEYS.
Proof. apply (bool_decide_eq_true_1 _). reflexivity. Defined.

(** The calls of the toggle. *)
Lemma toggle_calls (p : Player) :
  (toggle p).1 = match getPlayerState p with
                 | Some st => if strict_eq st PLAYING
                              then [GetPlayerState; PauseVideo]
                              else [GetPlayerState; PlayVideo]
                 | None => [GetPlayerState]
                 end.
Proof.
  unfold toggle. cbn. destruct (getPlayerState p) as [st|]; [|done]. cbn.
  by destruct (strict_eq st PLAYING).
Qed.

(** One run of the listener for the space bar. *)
Lemma space_run (e : KeyEvent) (σ : State) :
  not_text_input e → ev_code e = "Space" → toLowerCase (ev_key e) ∉ LETTER_KEYS →
  handleKeyPress e σ
  = Some {| state := σ; calls := handlePlayPause σ; defaultPrevented := true |}.
Proof.
  intros Hfocus Hcode Hkey. unfold handleKeyPress, handlePlayPause.
  rewrite (not_text_input_guard e Hfocus), Hcode.
  rewrite (bool_decide_eq_false_2 _ Hkey). cbn -[toggle].
  destruct (playerRef σ) as [p|]; [|done].
  by destruct (isPlayerReadyRef σ).
Qed.

(** One run of the listener for a hotcue letter, while the player is
    ready: it takes the hotcue branch, so it neither reads the playback
    state nor pauses; and it leaves the player in place and ready. *)
Lemma hotcue_run (e : KeyEvent) (σ : State) (p : Player) :
  not_text_input e → toLowerCase (ev_key e) ∈ LETTER_KEYS →
  playerRef σ = Some p → isPlayerReadyRef σ = true →
  playerRef (state (runListener e σ)) = Some p ∧
  isPlayerReadyRef (state (runListener e σ)) = true ∧
  Forall (λ c, c ≠ GetPlayerState ∧ c ≠ PauseVideo) (calls (runListener e σ)).
Proof.
  intros Hfocus Hkey Hp Hready. unfold runListener, handleKeyPress.
  rewrite (not_text_input_guard e Hfocus), Hp, Hready.
  rewrite (bool_decide_eq_true_2 _ Hkey). cbn -[spread_with].
  destruct (get_prop _ _ _) as [hotcue|]; cbn -[spread_with]; [|by split_and!].
  destruct (strict_eq hotcue VUndefined); cbn -[spread_with].
  - destruct (getCurrentTime p) as [currentTime|]; cbn -[spread_with].
    + destruct (is_number currentTime && negb (isNaN currentTime)).
      * destruct (spread_with _ _ _ _ _).
        cbn. split_and!; try done. by repeat constructor.
      * cbn. split_and!; try done. by repeat constructor.
    + split_and!; try done. by repeat constructor.
  - destruct (time_of _ hotcue) as [t|]; cbn; [|by split_and!].
    split_and!; try done.
    destruct (seekTo_returns p); by repeat constructor.
Qed.

(** C9 (amended).  For every keystroke outside a text field whose code is
    Space and whose key is no hotcue letter, while the player is ready,
    each run of the dispatcher for that keystroke (it is registered on
    the window and on the document) reads the playback state and issues
    play if the player is not in the playing state and pause if it is
    (and nothing more when reading the state throws); the state of the
    component is unchanged.  The letter [k] is in the hotcue alphabet,
    whose branch comes first: while the player is ready a keystroke of a
    hotcue letter, [k] included, never reads the playback state and
    never pauses. *)
Theorem space_keystroke_toggles (e : KeyEvent) (σ : State) (p : Player) :
  not_text_input e → playerRef σ = Some p → isPlayerReadyRef σ = true →
  (ev_code e = "Space" → toLowerCase (ev_key e) ∉ LETTER_KEYS →
   ∃ run, keystroke e σ
          = {| state := σ; calls := run ++ run; defaultPrevented := true |} ∧
          run = match getPlayerState p with
                | Some st => if strict_eq st PLAYING
                             then [GetPlayerState; PauseVideo]
                             else [GetPlayerState; PlayVideo]
                | None => [GetPlayerState]
                end) ∧
  (toLowerCase (ev_key e) ∈ LETTER_KEYS →
   (GetPlayerState ∉ calls (keystroke e σ)) ∧
   (PauseVideo ∉ calls (keystroke e σ))).
Proof.
  intros Hfocus Hp Hready. split.
  - intros Hcode Hkey. pose proof (space_run e σ Hfocus Hcode Hkey) as Hrun.
    exists (handlePlayPause σ). split.
    + by rewrite (keystroke_runs e σ _ _ Hrun Hrun).
    + unfold handlePlayPause. rewrite Hp, Hready. cbn -[toggle].
      apply toggle_calls.
  - intros Hkey.
    destruct (hotcue_run e σ p Hfocus Hkey Hp Hready) as (Hp1 & Hready1 & Hc1).
    destruct (hotcue_run e _ p Hfocus Hkey Hp1 Hready1) as (_ & _ & Hc2).
    pose proof (Forall_app_2 _ _ _ Hc1 Hc2) as Hall.
    rewrite Forall_forall in Hall. unfold keystroke. cbn.
    split; intros Hin; by destruct (Hall _ Hin).
Qed.

Lemma space_is_no_letter : toLowerCase (ev_key (keydown " " "Space")) ∉ LETTER_KEYS.
Proof. apply (bool_decide_eq_false_1 _). vm_compute. reflexivity. Defined.

Lemma space_keystroke_toggles_witness :
  calls (keystroke (keydown " " "Space") q_store)
  = [GetPlayerState; PlayVideo; GetPlayerState; PlayVideo] ∧
  (PauseVideo ∉ calls (keystroke (keydown "k" "KeyK") playing_store)).
Proof.
  destruct (space_keystroke_toggles (keydown " " "Space") q_store
              (responsive (VNum t7_25) PAUSED)
              (keydown_not_text_input _ _) eq_refl eq_refl) as [Hspace _].
  destruct (Hspace eq_refl space_is_no_letter) as (run & Hrun & Hcalls).
  destruct (space_keystroke_toggles (keydown "k" "KeyK") playing_store
              (responsive (VNum t7_25) PLAYING)
              (keydown_not_text_input _ _) eq_refl eq_refl) as [_ Hk].
  split; [|exact (proj2 (Hk k_is_letter))].
  rewrite Hrun, Hcalls. reflexivity.
Defined.

(** C9, the input on which the claim as stated fails: the letter of the
    toggle, [k], with the player ready and playing and no hotcue on [k].
    The claim asks for a pause; the keystroke sets hotcue [k] at 7.25,
    seeks to it and plays, and issues no pause. *)
Lemma k_keystroke_sets_and_jumps_without_pausing :
  ev_key (keydown "k" "KeyK") = "k" ∧
  playerRef playing_store = Some (responsive (VNum t7_25) PLAYING) ∧
  isPlayerReadyRef playing_store = true ∧
  getPlayerState (responsive (VNum t7_25) PLAYING) = Some PLAYING ∧
  strict_eq PLAYING PLAYING = true ∧
  calls (keystroke (keydown "k" "KeyK") playing_store)
  = [GetCurrentTime; SeekTo (VNum t7_25) true; PlayVideo] ∧
  (PauseVideo ∉ calls (keystroke (keydown "k" "KeyK") playing_store)) ∧
  live (state (keystroke (keydown "k" "KeyK") playing_store))
  = {[ "k" := Fields (entry (VNum t7_25) (VStr "")) ]}.
Proof.
  split_and!; try (vm_compute; reflexivity).
  apply (bool_decide_eq_true_1 _). vm_compute. reflexivity.
Qed.

(** ** The dirty check *)

Lemma structured_ref (h : Heap) s :
  structured h s → ∃ l, s = VRef l ∧ l < length h.
Proof.
  intros [Hs _]. destruct s; try done. simpl in Hs.
  eexists. split; [done|]. by apply bool_decide_eq_true in Hs.
Qed.

Lemma structured_entry (h : Heap) s k v :
  structured h s → obj_of h s !! k = Some v →
  ∃ e o, v = VRef e ∧ h !! e = Some o.
Proof.
  intros [_ Hall] Hk. specialize (Hall k v Hk). destruct v; try done.
  simpl in Hall. apply bool_decide_eq_true in Hall.
  destruct (lookup_lt_is_Some_2 h l Hall) as [o Ho]. by exists l, o.
Qed.

Lemma structured_closed (h : Heap) s : structured h s → closed h s.
Proof.
  intros [Hs Hall]. split.
  - by apply andb_true_iff in Hs as [_ ?].
  - intros k v Hk. specialize (Hall k v Hk). simpl in Hall.
    by apply andb_true_iff in Hall as [_ ?].
Qed.

Lemma structured_get_prop (h : Heap) s k :
  structured h s → get_prop h s k = Some (prop h s k).
Proof. intros (l & -> & _)%structured_ref. done. Qed.

Lemma structured_prefix (h h' : Heap) s :
  structured h s → h `prefix_of` h' → structured h' s.
Proof.
  intros Hst Hp. pose proof (structured_closed h s Hst) as Hc.
  destruct Hst as [Hs Hall]. split.
  - apply andb_true_iff in Hs as [-> Hv]. simpl. by eapply valid_ref_prefix.
  - rewrite (obj_of_prefix h h') by apply Hc || done.
    intros k v Hk. specialize (Hall k v Hk). simpl in *.
    apply andb_true_iff in Hall as [-> Hv]. simpl. by eapply valid_ref_prefix.
Qed.

(** What the loops read of an entry object is what its view shows. *)
Lemma time_of_object (h : Heap) e o :
  h !! e = Some o → time_of h (VRef e) = Some (entry_time (Fields o)).
Proof. intros He. unfold time_of, get_prop, prop, obj_of. simpl. by rewrite He. Qed.

Lemma name_of_object (h : Heap) e o :
  h !! e = Some o → name_of h (VRef e) = Some (entry_label (Fields o)).
Proof. intros He. unfold name_of, get_prop, prop, obj_of. simpl. by rewrite He. Qed.

Lemma changedLoop_spec (h : Heap) (cur init : JsVal) (keys : list string) :
  structured h cur → structured h init →
  Forall (λ k, is_Some (obj_of h cur !! k)) keys →
  changedLoop h cur init keys
  = Some (existsb (key_changed (view h cur) (view h init)) keys).
Proof.
  intros Hcur Hinit. induction 1 as [|key rest [vc Hvc] _ IH]; [done|].
  cbn -[time_of name_of]. rewrite !structured_get_prop by done.
  cbn -[time_of name_of].
  destruct (structured_entry h cur key vc Hcur Hvc) as (ec & oc & -> & Hec).
  assert (Hpc : prop h cur key = VRef ec) by (unfold prop; by rewrite Hvc).
  assert (Hvcur : view h cur !! key = Some (Fields oc)).
  { unfold view. rewrite lookup_fmap, Hvc. simpl. by rewrite Hec. }
  unfold key_changed at 1. rewrite Hpc, Hvcur.
  destruct (obj_of h init !! key) as [vi|] eqn:Hvi.
  - destruct (structured_entry h init key vi Hinit Hvi) as (ei & oi & -> & Hei).
    assert (Hpi : prop h init key = VRef ei) by (unfold prop; by rewrite Hvi).
    assert (Hvinit : view h init !! key = Some (Fields oi)).
    { unfold view. rewrite lookup_fmap, Hvi. simpl. by rewrite Hei. }
    rewrite Hpi, Hvinit. cbn -[time_of name_of].
    rewrite (time_of_object h ec oc Hec), (time_of_object h ei oi Hei).
    cbn -[time_of name_of entry_time entry_label]. unfold entry_differs.
    destruct (strict_eq (entry_time (Fields oc)) (entry_time (Fields oi)));
      cbn -[time_of name_of entry_time entry_label]; [|done].
    rewrite (name_of_object h ec oc Hec), (name_of_object h ei oi Hei).
    cbn -[time_of name_of entry_time entry_label].
    destruct (strict_eq (entry_label (Fields oc)) (entry_label (Fields oi)));
      cbn -[time_of name_of entry_time entry_label]; [|done].
    exact IH.
  - assert (Hpi : prop h init key = VUndefined) by (unfold prop; by rewrite Hvi).
    assert (Hvinit : view h init !! key = None).
    { unfold view. by rewrite lookup_fmap, Hvi. }
    rewrite Hpi, Hvinit. done.
Qed.

Lemma deletedLoop_spec (h : Heap) (cur : JsVal) (keys : list string) :
  structured h cur →
  deletedLoop h cur keys
  = Some (existsb (λ k, bool_decide (obj_of h cur !! k = None)) keys).
Proof.
  intros Hcur. induction keys as [|key rest IH]; [done|].
  simpl. rewrite structured_get_prop by done. simpl. unfold prop.
  destruct (obj_of h cur !! key) as [v|] eqn:Hv; simpl; [|done].
  destruct (structured_entry h cur key v Hcur Hv) as (e & o & -> & _).
  simpl. exact IH.
Qed.

Lemma object_keys_dom (h : Heap) s k :
  k ∈ object_keys h s ↔ is_Some (obj_of h s !! k).
Proof.
  unfold object_keys. rewrite list_elem_of_fmap. split.
  - intros ([k' v] & -> & Hin). apply elem_of_map_to_list in Hin. eauto.
  - intros [v Hv]. exists (k, v). split; [done|]. by apply elem_of_map_to_list.
Qed.

Lemma length_object_keys (h : Heap) s : length (object_keys h s) = size (obj_of h s).
Proof. unfold object_keys. by rewrite length_fmap, length_map_to_list. Qed.

Lemma dom_view (h : Heap) s : dom (view h s) = dom (obj_of h s).
Proof. unfold view. by rewrite dom_fmap_L. Qed.

Lemma view_is_Some (h : Heap) s k :
  is_Some (view h s !! k) ↔ is_Some (obj_of h s !! k).
Proof. unfold view. rewrite lookup_fmap. by rewrite fmap_is_Some. Qed.

(** The result of [hasUnsavedChanges] on structured sets. *)
Lemma hasUnsavedChanges_spec (σ : State) :
  structured (heap (cues σ)) (hotcuesRef (cues σ)) →
  structured (heap (cues σ)) (initialHotcuesRef (cues σ)) →
  ∃ b, hasUnsavedChanges σ = Some b ∧ (b = true ↔ differs (live σ) (saved σ)).
Proof.
  intros Hcur Hinit. unfold hasUnsavedChanges, live, saved.
  set (h := heap (cues σ)) in *. set (cur := hotcuesRef (cues σ)) in *.
  set (init := initialHotcuesRef (cues σ)) in *.
  destruct (structured_ref _ _ Hcur) as (lc & Hlc & _).
  destruct (structured_ref _ _ Hinit) as (li & Hli & _).
  assert (Hkc : keys_or_empty h cur = object_keys h cur) by (by rewrite Hlc).
  assert (Hki : keys_or_empty h init = object_keys h init) by (by rewrite Hli).
  rewrite Hkc, Hki. rewrite !length_object_keys.
  destruct (decide (size (obj_of h cur) = size (obj_of h init))) as [Hsize|Hsize].
  2:{ rewrite bool_decide_eq_false_2 by done. simpl. exists true.
      split; [done|]. split; [|done]. intros _. left. intros Hdom.
      apply Hsize.
      assert (Hsz : size (dom (view h cur)) = size (dom (view h init)))
        by (by rewrite Hdom).
      rewrite !size_dom in Hsz. unfold view in Hsz.
      by rewrite !map_size_fmap in Hsz. }
  rewrite bool_decide_eq_true_2 by done. simpl.
  rewrite changedLoop_spec; [|done|done|].
  2:{ apply Forall_forall. intros k Hk. by apply object_keys_dom. }
  simpl.
  destruct (existsb (key_changed (view h cur) (view h init)) (object_keys h cur))
    eqn:Hch.
  - exists true. split; [done|]. split; [|done]. intros _.
    apply existsb_exists in Hch as (k & Hk & Hkc').
    unfold key_changed in Hkc'.
    destruct (view h cur !! k) as [x|] eqn:Hx; [|done].
    destruct (view h init !! k) as [y|] eqn:Hy.
    + right. by exists k, x, y.
    + left. intros Hdom.
      assert (k ∈ dom (view h cur)) as Hin by (apply elem_of_dom; eauto).
      rewrite Hdom in Hin. apply elem_of_dom in Hin as [? ?]. congruence.
  - assert (Hsub : dom (view h cur) ⊆ dom (view h init)).
    { intros k [x Hx]%elem_of_dom.
      assert (Hk : k ∈ object_keys h cur).
      { apply object_keys_dom, view_is_Some. eauto. }
      assert (Hf : key_changed (view h cur) (view h init) k = false).
      { destruct (key_changed (view h cur) (view h init) k) eqn:E; [|done].
        assert (existsb (key_changed (view h cur) (view h init))
                  (object_keys h cur) = true); [|congruence].
        apply existsb_exists. exists k. split; [by apply list_elem_of_In|done]. }
      unfold key_changed in Hf. rewrite Hx in Hf.
      apply elem_of_dom. by destruct (view h init !! k). }
    assert (Hdom : dom (view h cur) = dom (view h init)).
    { apply set_subseteq_size_eq; [done|]. rewrite !size_dom. unfold view.
      rewrite !map_size_fmap. lia. }
    rewrite deletedLoop_spec by done.
    assert (Hdel : existsb (λ k, bool_decide (obj_of h cur !! k = None))
                     (object_keys h init) = false).
    { destruct (existsb _ (object_keys h init)) eqn:E; [|done].
      apply existsb_exists in E as (k & Hk & Hnone).
      apply bool_decide_eq_true in Hnone. apply list_elem_of_In in Hk.
      apply object_keys_dom, view_is_Some, elem_of_dom in Hk.
      rewrite <- Hdom in Hk. apply elem_of_dom, view_is_Some in Hk as [? ?].
      congruence. }
    rewrite Hdel. exists false. split; [done|]. split; [done|].
    intros [Hne|(k & x & y & Hx & Hy & Hd)]; [done|].
    assert (Hk : k ∈ object_keys h cur).
    { apply object_keys_dom, view_is_Some. eauto. }
    assert (existsb (key_changed (view h cur) (view h init))
              (object_keys h cur) = true); [|congruence].
    apply existsb_exists. exists k. split; [by apply list_elem_of_In|].
    unfold key_changed. by rewrite Hx, Hy.
Qed.

(** ** Strict equality *)

Lemma num_eqb_refl (x : num) : is_nan x = false → num_eqb x x = true.
Proof.
  unfold num_eqb, SFeqb. destruct x as [s|s| |s m e]; simpl; try done.
  - by destruct s.
  - intros _. rewrite Z.compare_refl.
    destruct s; by rewrite Pos.compare_cont_refl.
Qed.

Lemma strict_eq_refl (v : JsVal) : isNaN v = false → strict_eq v v = true.
Proof.
  destruct v; simpl; try done; intros; try by apply bool_decide_eq_true_2.
  by apply num_eqb_refl.
Qed.

Lemma truthy_not_nan (v : JsVal) : truthy v = true → isNaN v = false.
Proof. destruct v as [| | |x| |]; simpl; try done. by destruct x. Qed.

Lemma entry_label_refl (x : EntryView) : strict_eq (entry_label x) (entry_label x) = true.
Proof.
  apply strict_eq_refl. destruct x as [v|o]; simpl; [done|].
  unfold js_or. destruct (truthy (default VUndefined (o !! "name"))) eqn:Ht; [|done].
  by apply truthy_not_nan.
Qed.

Lemma not_differs_refl (m : gmap string EntryView) : no_nan_time m → ¬ differs m m.
Proof.
  intros Hnan [Hdom|(k & x & y & Hx & Hy & Hd)]; [done|].
  assert (y = x) as -> by congruence.
  unfold entry_differs in Hd.
  rewrite entry_label_refl, strict_eq_refl in Hd; [done|]. by apply (Hnan k x).
Qed.

(** ** Structured sets under allocation *)

Lemma structured_fresh (h : Heap) (o : Obj) :
  map_Forall (λ _ v, is_ref v && valid_ref h v = true) o →
  structured (h ++ [o]) (VRef (length h)).
Proof.
  intros Hall. split.
  - simpl. apply bool_decide_eq_true. rewrite length_app. simpl. lia.
  - rewrite obj_of_alloc. intros k v Hk. specialize (Hall k v Hk). simpl in *.
    apply andb_true_iff in Hall as [-> Hv]. simpl.
    eapply valid_ref_prefix; [done|by apply prefix_app_r].
Qed.

Lemma structured_entries (h : Heap) s :
  structured h s → map_Forall (λ _ v, is_ref v && valid_ref h v = true) (obj_of h s).
Proof. by intros [_ ?]. Qed.

Lemma entries_prefix (h h' : Heap) (o : Obj) :
  map_Forall (λ _ v, is_ref v && valid_ref h v = true) o → h `prefix_of` h' →
  map_Forall (λ _ v, is_ref v && valid_ref h' v = true) o.
Proof.
  intros Hall Hp k v Hk. specialize (Hall k v Hk). simpl in *.
  apply andb_true_iff in Hall as [-> Hv]. simpl. by eapply valid_ref_prefix.
Qed.

Lemma spread_with_structured (h : Heap) (source : JsVal) key t n :
  structured h source →
  structured (spread_with h source key t n).2 (VRef (S (length h))).
Proof.
  intros Hs. pose proof (structured_closed _ _ Hs) as Hc.
  unfold spread_with, alloc. simpl.
  set (h1 := h ++ [entry t n]).
  assert (Hp : h `prefix_of` h1) by (by apply prefix_app_r).
  assert (Hlen : length h1 = S (length h)).
  { unfold h1. rewrite length_app. simpl. lia. }
  rewrite <- Hlen. apply structured_fresh. apply map_Forall_insert_2.
  - simpl. apply bool_decide_eq_true. lia.
  - rewrite (obj_of_prefix h h1) by apply Hc || done.
    eapply entries_prefix; [by apply structured_entries|done].
Qed.

(** ** Saving and discarding *)

Lemma handleSave_success (props : Props) username r (σ : State) :
  save_succeeds props username r = true →
  cues (handleSave props username r σ)
  = {| heap := heap (cues σ) ++ [obj_of (heap (cues σ)) (hotcuesRef (cues σ))];
       hotcues := hotcues (cues σ); hotcuesRef := hotcuesRef (cues σ);
       initialHotcuesRef := VRef (length (heap (cues σ))) |}.
Proof.
  unfold save_succeeds, handleSave, handleSave_begin.
  intros H. apply andb_true_iff in H as [H Hr].
  apply andb_true_iff in H as [H Hu]. apply andb_true_iff in H as [Hy Hv].
  rewrite Hy, Hv, Hu. simpl. by destruct r.
Qed.

Lemma handleSave_failure (props : Props) username r (σ : State) :
  save_succeeds props username r = false →
  cues (handleSave props username r σ) = cues σ.
Proof.
  unfold save_succeeds, handleSave, handleSave_begin.
  destruct (present (youtubeUrl props)), (present (videoId props)),
    (present username); simpl; try done.
  by destruct r.
Qed.

Lemma saved_after_save (props : Props) username r (σ : State) :
  save_succeeds props username r = true →
  well_formed_state σ →
  let σ1 := handleSave props username r σ in
  well_formed_state σ1 ∧ live σ1 = live σ ∧ saved σ1 = live σ.
Proof.
  intros Hok (Hst & Hcur & Hinit & Hco). simpl.
  unfold well_formed_state, live, saved. rewrite (handleSave_success _ _ _ _ Hok).
  simpl. set (h := heap (cues σ)) in *.
  assert (Hp : h `prefix_of` h ++ [obj_of h (hotcuesRef (cues σ))])
    by (by apply prefix_app_r).
  assert (Hlive : view (h ++ [obj_of h (hotcuesRef (cues σ))]) (hotcuesRef (cues σ))
                  = view h (hotcuesRef (cues σ))).
  { apply view_prefix; [by apply structured_closed|done]. }
  split_and!.
  - by apply (structured_prefix h).
  - by apply (structured_prefix h).
  - apply structured_fresh. by apply structured_entries.
  - rewrite Hlive. rewrite (view_prefix h); [done|by apply structured_closed|done].
  - done.
  - rewrite view_fresh.
    + done.
    + apply (structured_closed _ _ Hcur).
Qed.

Lemma saved_after_discard (σ : State) :
  well_formed_state σ →
  let σ1 := discardChanges σ in
  well_formed_state σ1 ∧ live σ1 = saved σ ∧ saved σ1 = saved σ.
Proof. intros (Hst & Hcur & Hinit & Hco). simpl. by split_and!. Qed.

(** Loading establishes the invariant, with the snapshot equal to the
    live set. *)
Lemma loadInitialHotcues_well_formed (x : JsVal) (σ : State) :
  closed (heap (cues σ)) x →
  ∃ σ', loadInitialHotcues x σ = Some σ' ∧
        well_formed_state σ' ∧ saved σ' = live σ'.
Proof.
  intros Hc. unfold loadInitialHotcues.
  destruct (truthy x) eqn:Hx.
  - destruct (normalizeHotcues_spec _ x Hc) as (r & h' & Hrun & _).
    pose proof (normalizeHotcues_structured _ x _ _ Hc Hrun) as Hst.
    rewrite Hrun. simpl. eexists. split; [done|].
    unfold well_formed_state, saved, live. simpl. by split_and!.
  - unfold alloc. simpl. eexists. split; [done|].
    set (h := heap (cues σ)).
    assert (Ha : structured (h ++ [∅]) (VRef (length h))).
    { apply structured_fresh, map_Forall_empty. }
    assert (Hb : structured ((h ++ [∅]) ++ [∅]) (VRef (length (h ++ [∅])))).
    { apply structured_fresh, map_Forall_empty. }
    assert (Hc3 : structured (((h ++ [∅]) ++ [∅]) ++ [∅])
                    (VRef (length ((h ++ [∅]) ++ [∅])))).
    { apply structured_fresh, map_Forall_empty. }
    assert (Hp2 : (h ++ [∅]) ++ [∅] `prefix_of` ((h ++ [∅]) ++ [∅]) ++ [∅])
      by (by apply prefix_app_r).
    assert (Hp1 : h ++ [∅] `prefix_of` ((h ++ [∅]) ++ [∅]) ++ [∅])
      by (by apply prefix_app_r, prefix_app_r).
    assert (Hva : view (((h ++ [∅]) ++ [∅]) ++ [∅]) (VRef (length h)) = ∅).
    { rewrite (view_prefix (h ++ [∅])); [|by apply structured_closed|done].
      rewrite view_fresh by apply map_Forall_empty. by rewrite fmap_empty. }
    assert (Hvb : view (((h ++ [∅]) ++ [∅]) ++ [∅]) (VRef (length (h ++ [∅]))) = ∅).
    { rewrite (view_prefix ((h ++ [∅]) ++ [∅])); [|by apply structured_closed|done].
      rewrite view_fresh by apply map_Forall_empty. by rewrite fmap_empty. }
    assert (Hvc : view (((h ++ [∅]) ++ [∅]) ++ [∅])
                    (VRef (length ((h ++ [∅]) ++ [∅]))) = ∅).
    { rewrite view_fresh by apply map_Forall_empty. by rewrite fmap_empty. }
    unfold well_formed_state, saved, live. simpl. split_and!.
    + by apply (structured_prefix (h ++ [∅])).
    + by apply (structured_prefix ((h ++ [∅]) ++ [∅])).
    + done.
    + by rewrite Hva, Hvb.
    + by rewrite Hvb, Hvc.
Qed.

(** The effect that mirrors the React state into the live ref keeps the
    invariant and changes neither set by value. *)
Lemma syncRefs_well_formed (σ : State) :
  well_formed_state σ →
  well_formed_state (syncRefs σ) ∧
  live (syncRefs σ) = live σ ∧ saved (syncRefs σ) = saved σ.
Proof. intros (Hst & Hcur & Hinit & Hco). by split_and!. Qed.

(** ** The edits of the live set *)

Lemma view_lookup_None (h : Heap) s k :
  view h s !! k = None ↔ obj_of h s !! k = None.
Proof. unfold view. rewrite lookup_fmap. by rewrite fmap_None. Qed.

Lemma view_lookup_entry (h : Heap) s k x :
  structured h s → view h s !! k = Some x →
  ∃ e o, obj_of h s !! k = Some (VRef e) ∧ h !! e = Some o ∧ x = Fields o.
Proof.
  intros Hs. unfold view. rewrite lookup_fmap.
  destruct (obj_of h s !! k) as [v|] eqn:Hv; [|done]. simpl. intros [= <-].
  destruct (structured_entry h s k v Hs Hv) as (e & o & -> & He).
  exists e, o. split; [done|]. split; [done|]. simpl. by rewrite He.
Qed.

(** Every keystroke: the handler returns, keeps the invariant, only adds
    objects to the heap, leaves the snapshot reference alone, and either
    leaves the hotcue part of the state as it was or adds an entry for
    the (lower-cased) key, which had none. *)
Lemma handleKeyPress_spec (e : KeyEvent) (σ : State) :
  well_formed_state σ →
  ∃ o, handleKeyPress e σ = Some o ∧
       well_formed_state (state o) ∧
       heap (cues σ) `prefix_of` heap (cues (state o)) ∧
       initialHotcuesRef (cues (state o)) = initialHotcuesRef (cues σ) ∧
       (cues (state o) = cues σ ∨
        ∃ t, live σ !! toLowerCase (ev_key e) = None ∧
             live (state o)
             = <[toLowerCase (ev_key e) := Fields (entry (VNum t) (VStr ""))]> (live σ)).
Proof.
  intros Hwf. pose proof Hwf as (Hst & Hcur & Hinit & Hco).
  unfold handleKeyPress.
  destruct (bool_decide (target_tagName e = "INPUT")
            || bool_decide (target_tagName e = "TEXTAREA")).
  { eexists. split; [done|]. simpl. split_and!; try done. by left. }
  set (key := toLowerCase (ev_key e)).
  destruct (if bool_decide (key ∈ LETTER_KEYS) && isPlayerReadyRef σ
            then playerRef σ else None) as [p|].
  2:{ destruct (bool_decide (ev_code e = "Space") || bool_decide (ev_key e = "k"));
        (eexists; split; [done|]; simpl; split_and!; try done; by left). }
  rewrite structured_get_prop by done. cbn -[spread_with time_of].
  unfold prop. destruct (obj_of (heap (cues σ)) (hotcuesRef (cues σ)) !! key)
    as [v|] eqn:Hv.
  - destruct (structured_entry _ _ _ _ Hcur Hv) as (l & o & -> & Hl).
    cbn -[spread_with time_of]. rewrite (time_of_object _ _ _ Hl).
    cbn -[spread_with]. eexists. split; [done|]. simpl.
    split_and!; try done. by left.
  - cbn -[spread_with].
    destruct (getCurrentTime p) as [[| | |t| |]|]; cbn -[spread_with];
      try (eexists; split; [done|]; simpl; split_and!; try done; by left).
    destruct (is_nan t); cbn -[spread_with];
      try (eexists; split; [done|]; simpl; split_and!; try done; by left).
    pose proof (spread_with_structured _ _ key (VNum t) (VStr "") Hcur) as Hnew.
    destruct (spread_with_spec _ _ key (VNum t) (VStr "")
                (structured_closed _ _ Hcur)) as (h' & Hs & Hp & _ & Hview).
    rewrite Hs in Hnew |- *. simpl in Hnew.
    eexists. split; [done|]. simpl. split_and!; try done.
    + unfold well_formed_state. simpl. split_and!; try done.
      by apply (structured_prefix (heap (cues σ))).
    + right. exists t. split; [by apply view_lookup_None|done].
Qed.

Lemma clearHotcue_spec (key : string) (σ : State) :
  well_formed_state σ →
  let σ' := clearHotcue key σ in
  well_formed_state σ' ∧
  heap (cues σ) `prefix_of` heap (cues σ') ∧
  initialHotcuesRef (cues σ') = initialHotcuesRef (cues σ) ∧
  hotcues (cues σ') = hotcuesRef (cues σ') ∧
  live σ' = delete key (live σ).
Proof.
  intros (Hst & Hcur & Hinit & Hco). unfold live in Hco.
  unfold clearHotcue, well_formed_state, live, alloc. cbn -[delete_prop view].
  rewrite delete_prop_fresh. set (h := heap (cues σ)) in *.
  assert (Hp : h `prefix_of` h ++ [delete key (obj_of h (hotcues (cues σ)))])
    by (by apply prefix_app_r).
  assert (Hall : map_Forall (λ _ v, is_ref v && valid_ref h v = true)
                   (delete key (obj_of h (hotcues (cues σ))))).
  { apply map_Forall_delete. by apply structured_entries. }
  assert (Hnew : structured (h ++ [delete key (obj_of h (hotcues (cues σ)))])
                   (VRef (length h))) by (by apply structured_fresh).
  split_and!; try done.
  - by apply (structured_prefix h).
  - rewrite view_fresh.
    + rewrite fmap_delete. by rewrite <- Hco.
    + intros k v Hk. specialize (Hall k v Hk). simpl in Hall.
      by apply andb_true_iff in Hall as [_ ?].
Qed.

Lemma prop_time_object (h : Heap) e o :
  h !! e = Some o → prop h (VRef e) "time" = entry_time (Fields o).
Proof. intros He. unfold prop, obj_of. by rewrite He. Qed.

Lemma relabelled_spec (h : Heap) (prev : JsVal) (key name : string) :
  structured h prev →
  ∃ h', relabelled h prev key name = (VRef (length h), h') ∧
        h `prefix_of` h' ∧
        structured h' (VRef (length h)) ∧
        view h' (VRef (length h)) = with_label key name (view h prev).
Proof.
  intros Hs. pose proof (structured_closed _ _ Hs) as Hc.
  unfold relabelled, alloc, with_label.
  set (o := obj_of h prev). cbn -[set_prop view].
  assert (Hp1 : h `prefix_of` h ++ [o]) by (by apply prefix_app_r).
  assert (Hprop : prop (h ++ [o]) (VRef (length h)) key
                  = default VUndefined (o !! key)).
  { unfold prop. by rewrite obj_of_alloc. }
  rewrite Hprop.
  destruct (view h prev !! key) as [x|] eqn:Hx.
  - destruct (view_lookup_entry _ _ _ _ Hs Hx) as (e & oe & Hk & He & ->).
    fold o in Hk. rewrite Hk. cbn -[set_prop view].
    assert (He1 : (h ++ [o]) !! e = Some oe) by (by eapply prefix_lookup_Some).
    rewrite (prop_time_object _ _ _ He1).
    change (is_number (VRef e)) with false. cbv iota.
    set (lit := entry (entry_time (Fields oe)) (VStr name)).
    assert (Hset : set_prop (VRef (length h)) key (VRef (length (h ++ [o])))
                     ((h ++ [o]) ++ [lit])
                   = (h ++ [<[key := VRef (S (length h))]> o]) ++ [lit]).
    { assert (Ho : ((h ++ [o]) ++ [lit]) !! length h = Some o).
      { rewrite lookup_app_l by (rewrite length_app; simpl; lia).
        by rewrite lookup_app_r, Nat.sub_diag by lia. }
      rewrite (set_prop_own _ _ _ _ _ Ho) by (right; by exists (VRef e)).
      rewrite insert_app_l by (rewrite length_app; simpl; lia).
      rewrite insert_app_r_alt, Nat.sub_diag by lia. simpl.
      rewrite length_app. simpl. by rewrite Nat.add_1_r. }
    rewrite Hset. eexists. split; [done|].
    set (o' := <[key := VRef (S (length h))]> o).
    assert (Hlen : length (h ++ [o']) = S (length h)).
    { rewrite length_app. simpl. lia. }
    assert (Hp : h `prefix_of` (h ++ [o']) ++ [lit]).
    { by apply prefix_app_r, prefix_app_r. }
    assert (Hobj : obj_of ((h ++ [o']) ++ [lit]) (VRef (length h)) = o').
    { unfold obj_of. rewrite lookup_app_l by lia.
      by rewrite lookup_app_r, Nat.sub_diag by lia. }
    split; [done|]. split.
    + split.
      * simpl. apply bool_decide_eq_true. rewrite length_app, Hlen. simpl. lia.
      * rewrite Hobj. apply map_Forall_insert_2.
        -- simpl. apply bool_decide_eq_true. rewrite length_app, Hlen. simpl. lia.
        -- eapply entries_prefix; [by apply structured_entries|done].
    + unfold view at 1. rewrite Hobj. unfold o'. rewrite fmap_insert.
      f_equal.
      * unfold view_val.
        rewrite lookup_app_r by (rewrite length_app; simpl; lia).
        rewrite length_app. simpl.
        by replace (S (length h) - (length h + 1)) with 0 by lia.
      * apply map_fmap_ext. intros k v Hk'. apply view_val_prefix; [|done].
        destruct Hc as [_ Hall]. by apply (Hall k v).
  - apply view_lookup_None in Hx. fold o in Hx. rewrite Hx. cbn -[view].
    eexists. split; [done|]. split; [done|]. split.
    + apply structured_fresh. by apply structured_entries.
    + rewrite view_fresh; [done|]. apply Hc.
Qed.

Lemma handleHotcueLabelBlur_spec (key : string) (σ : State) :
  well_formed_state σ →
  ∃ σ', handleHotcueLabelBlur key σ = Some σ' ∧
        well_formed_state σ' ∧
        heap (cues σ) `prefix_of` heap (cues σ') ∧
        initialHotcuesRef (cues σ') = initialHotcuesRef (cues σ) ∧
        live σ' = with_label key (trim (editingLabel (editor σ))) (live σ).
Proof.
  intros (Hst & Hcur & Hinit & Hco). unfold live in Hco.
  unfold handleHotcueLabelBlur.
  set (name := trim (editingLabel (editor σ))).
  set (h := heap (cues σ)) in *.
  destruct (relabelled_spec h (hotcues (cues σ)) key name Hst)
    as (h1 & -> & Hp1 & Hnew1 & Hview1).
  assert (Hcur1 : structured h1 (hotcuesRef (cues σ)))
    by (by apply (structured_prefix h)).
  rewrite structured_get_prop by done. cbn -[spread_with view].
  assert (Hlive1 : view h1 (hotcuesRef (cues σ)) = view h (hotcuesRef (cues σ))).
  { apply view_prefix; [by apply structured_closed|done]. }
  unfold live, well_formed_state. fold h.
  destruct (view h (hotcuesRef (cues σ)) !! key) as [x|] eqn:Hx.
  - rewrite <- Hlive1 in Hx.
    destruct (view_lookup_entry _ _ _ _ Hcur1 Hx) as (e & oe & Hk & He & ->).
    assert (Hpk : prop h1 (hotcuesRef (cues σ)) key = VRef e)
      by (unfold prop; by rewrite Hk).
    rewrite !Hpk. cbn -[spread_with view].
    rewrite (prop_time_object _ _ _ He).
    change (is_number (VRef e)) with false. cbv iota.
    pose proof (spread_with_structured h1 (hotcuesRef (cues σ)) key
                  (entry_time (Fields oe)) (VStr name) Hcur1) as Hnew2.
    destruct (spread_with_spec h1 (hotcuesRef (cues σ)) key
                (entry_time (Fields oe)) (VStr name)
                (structured_closed _ _ Hcur1)) as (h2 & Hs & Hp2 & _ & Hview2).
    rewrite Hs in Hnew2 |- *. simpl in Hnew2.
    eexists. split; [done|]. cbn -[view].
    assert (Hwl : with_label key name (view h (hotcuesRef (cues σ)))
                  = <[key := Fields (entry (entry_time (Fields oe)) (VStr name))]>
                      (view h (hotcuesRef (cues σ)))).
    { unfold with_label. rewrite <- Hlive1, Hx. done. }
    split_and!.
    + by apply (structured_prefix h1).
    + done.
    + apply (structured_prefix h); [done|]. by etrans.
    + unfold live. cbn -[view].
      rewrite (view_prefix h1 h2); [|by apply structured_closed|done].
      by rewrite Hview1, Hco, Hview2, Hlive1, Hwl.
    + by etrans.
    + done.
    + by rewrite Hview2, Hlive1, Hwl.
  - assert (Hk : obj_of h1 (hotcuesRef (cues σ)) !! key = None).
    { apply view_lookup_None. by rewrite Hlive1. }
    assert (Hpk : prop h1 (hotcuesRef (cues σ)) key = VUndefined)
      by (unfold prop; by rewrite Hk).
    rewrite !Hpk. cbn -[view].
    eexists. split; [done|]. cbn -[view].
    assert (Hwl : with_label key name (view h (hotcuesRef (cues σ)))
                  = view h (hotcuesRef (cues σ))).
    { unfold with_label. by rewrite Hx. }
    split_and!; try done.
    + by apply (structured_prefix h).
    + unfold live. cbn -[view]. by rewrite Hview1, Hco, Hlive1.
    + by rewrite Hlive1, Hwl.
Qed.

(** ** After a save or a discard *)

Lemma saved_preserved (σ σ' : State) :
  structured (heap (cues σ)) (initialHotcuesRef (cues σ)) →
  heap (cues σ) `prefix_of` heap (cues σ') →
  initialHotcuesRef (cues σ') = initialHotcuesRef (cues σ) →
  saved σ' = saved σ.
Proof.
  intros Hinit Hp Href. unfold saved. rewrite Href.
  apply view_prefix; [by apply structured_closed|done].
Qed.

Lemma just_settled_clean (σ σ1 : State) :
  well_formed_state σ → just_settled σ σ1 →
  well_formed_state σ1 ∧ saved σ1 = live σ1.
Proof.
  intros Hwf [->|(props & username & r & Hok & ->)].
  - destruct (saved_after_discard σ Hwf) as (? & -> & ->). done.
  - destruct (saved_after_save props username r σ Hok Hwf) as (? & -> & ->). done.
Qed.

Lemma dirty (σ : State) :
  well_formed_state σ → differs (live σ) (saved σ) →
  hasUnsavedChanges σ = Some true.
Proof.
  intros (_ & Hcur & Hinit & _) Hd.
  destruct (hasUnsavedChanges_spec σ Hcur Hinit) as (b & -> & Hb).
  f_equal. by apply Hb.
Qed.

Lemma not_dirty (σ : State) :
  well_formed_state σ → saved σ = live σ → no_nan_time (live σ) →
  hasUnsavedChanges σ = Some false.
Proof.
  intros (_ & Hcur & Hinit & _) Heq Hnan.
  destruct (hasUnsavedChanges_spec σ Hcur Hinit) as (b & -> & Hb).
  f_equal. destruct b; [|done]. exfalso.
  apply (not_differs_refl (live σ) Hnan). rewrite <- Heq at 2. by apply Hb.
Qed.

Lemma differs_dom (a b : gmap string EntryView) k :
  is_Some (a !! k) ↔ ¬ is_Some (b !! k) → differs a b.
Proof.
  intros Hk. left. intros Hdom.
  assert (k ∈ dom a ↔ k ∈ dom b) as Hiff by (by rewrite Hdom).
  rewrite !elem_of_dom in Hiff. tauto.
Qed.

Lemma first_set_dirty (e : KeyEvent) (σ1 : State) (p : Player) (t : num) :
  well_formed_state σ1 → saved σ1 = live σ1 →
  not_text_input e → ev_key e ∈ LETTER_KEYS →
  playerRef σ1 = Some p → isPlayerReadyRef σ1 = true →
  live σ1 !! ev_key e = None →
  getCurrentTime p = Some (VNum t) → is_nan t = false →
  ∃ o, handleKeyPress e σ1 = Some o ∧ hasUnsavedChanges (state o) = Some true.
Proof.
  intros Hwf Hclean Hfocus Hkey Hp Hready Hunset Htime Hnan.
  pose proof Hwf as (_ & Hcur & Hinit & _).
  destruct (handleKeyPress_spec e σ1 Hwf) as (o & Hrun & Hwf' & Hpre & Href & _).
  assert (Hget : get_prop (heap (cues σ1)) (hotcuesRef (cues σ1)) (ev_key e)
                 = Some VUndefined).
  { rewrite structured_get_prop by done. unfold prop.
    apply view_lookup_None in Hunset. by rewrite Hunset. }
  destruct (set_branch e σ1 p Hfocus Hkey Hp Hready
              (structured_closed _ _ Hcur) Hget) as (o' & Hrun' & _ & Hlive).
  assert (o' = o) as -> by congruence.
  rewrite Htime, Hnan in Hlive. destruct Hlive as (Hlive & _).
  exists o. split; [done|]. apply dirty; [done|].
  rewrite (saved_preserved σ1 (state o)) by done.
  apply (differs_dom _ _ (ev_key e)). rewrite Hlive, Hclean, Hunset.
  rewrite lookup_insert_eq. split; [by intros _ [? ?]|by eauto].
Qed.

Lemma first_clear_dirty (key : string) (σ1 : State) :
  well_formed_state σ1 → saved σ1 = live σ1 →
  is_Some (live σ1 !! key) →
  hasUnsavedChanges (clearHotcue key σ1) = Some true.
Proof.
  intros Hwf Hclean Hset. pose proof Hwf as (_ & Hcur & Hinit & _).
  destruct (clearHotcue_spec key σ1 Hwf) as (Hwf' & Hpre & Href & _ & Hlive).
  apply dirty; [done|]. rewrite (saved_preserved σ1) by done.
  apply (differs_dom _ _ key). rewrite Hlive, Hclean, lookup_delete_eq.
  split; [by intros [? ?]|by intros []].
Qed.

Lemma entry_label_named (t : JsVal) (name : string) :
  entry_label (Fields (entry t (VStr name))) = VStr name.
Proof.
  unfold entry_label, entry. rewrite lookup_insert_ne by done.
  rewrite lookup_insert_eq. simpl. unfold js_or. simpl.
  case_bool_decide; by subst.
Qed.

Lemma first_label_change_dirty (key text : string) (x : EntryView) (σ1 : State) :
  well_formed_state σ1 → saved σ1 = live σ1 →
  live σ1 !! key = Some x →
  strict_eq (VStr (trim text)) (entry_label x) = false →
  ∃ σ2, apply_edit (EditLabel key text) σ1 = Some σ2 ∧
        hasUnsavedChanges σ2 = Some true.
Proof.
  intros Hwf Hclean Hx Hne. pose proof Hwf as (_ & Hcur & Hinit & _). simpl.
  destruct (handleHotcueLabelBlur_spec key (setEditingLabel text σ1) Hwf)
    as (σ2 & Hrun & Hwf' & Hpre & Href & Hlive).
  exists σ2. split; [done|]. apply dirty; [done|].
  rewrite (saved_preserved σ1 σ2) by done.
  right. exists key, (Fields (entry (entry_time x) (VStr (trim text)))), x.
  split_and!.
  - rewrite Hlive. simpl. unfold with_label.
    change (live (setEditingLabel text σ1)) with (live σ1).
    by rewrite Hx, lookup_insert_eq.
  - by rewrite Hclean.
  - unfold entry_differs. rewrite entry_label_named, Hne. simpl.
    by rewrite orb_true_r.
Qed.

(** C3 (amended).  On a well-formed state [hasUnsavedChanges()] returns
    true if and only if the live set differs from the snapshot in key
    set, in some entry's time or in some entry's label, under strict
    equality.  It is false right after a successful [save()] and right
    after [discard()] (no time being NaN).  Right after either, it is
    true after setting an unset key, after clearing a set key, and after
    a label edit whose trimmed text is not the entry's label. *)
Theorem hasUnsavedChanges_tracks_differences (σ : State) :
  well_formed_state σ →
  (∃ b, hasUnsavedChanges σ = Some b ∧ (b = true ↔ differs (live σ) (saved σ))) ∧
  (∀ props username r,
      save_succeeds props username r = true → no_nan_time (live σ) →
      hasUnsavedChanges (handleSave props username r σ) = Some false) ∧
  (no_nan_time (saved σ) → hasUnsavedChanges (discardChanges σ) = Some false) ∧
  (∀ σ1, just_settled σ σ1 →
     (∀ e p t,
         not_text_input e → ev_key e ∈ LETTER_KEYS →
         playerRef σ1 = Some p → isPlayerReadyRef σ1 = true →
         live σ1 !! ev_key e = None →
         getCurrentTime p = Some (VNum t) → is_nan t = false →
         ∃ o, handleKeyPress e σ1 = Some o ∧
              hasUnsavedChanges (state o) = Some true) ∧
     (∀ key, is_Some (live σ1 !! key) →
             hasUnsavedChanges (clearHotcue key σ1) = Some true) ∧
     (∀ key text x,
         live σ1 !! key = Some x →
         strict_eq (VStr (trim text)) (entry_label x) = false →
         ∃ σ2, apply_edit (EditLabel key text) σ1 = Some σ2 ∧
               hasUnsavedChanges σ2 = Some true)).
Proof.
  intros Hwf. pose proof Hwf as (_ & Hcur & Hinit & _). split_and!.
  - by apply hasUnsavedChanges_spec.
  - intros props username r Hok Hnan.
    destruct (saved_after_save props username r σ Hok Hwf) as (Hwf1 & Hl & Hs).
    apply not_dirty; [done|by rewrite Hl, Hs|by rewrite Hl].
  - intros Hnan.
    destruct (saved_after_discard σ Hwf) as (Hwf1 & Hl & Hs).
    apply not_dirty; [done|by rewrite Hl, Hs|by rewrite Hl].
  - intros σ1 Hsettled.
    destruct (just_settled_clean σ σ1 Hwf Hsettled) as (Hwf1 & Hclean).
    split_and!.
    + intros e p t. by apply first_set_dirty.
    + intros key. by apply first_clear_dirty.
    + intros key text x. by apply first_label_change_dirty.
Qed.

Lemma structured_by_computation (h : Heap) (s : JsVal) :
  is_ref s && valid_ref h s
  && bool_decide (map_Forall (λ _ v, is_ref v && valid_ref h v = true) (obj_of h s))
  = true →
  structured h s.
Proof.
  intros H. apply andb_true_iff in H as [H1 H2]. split; [done|].
  by apply bool_decide_eq_true in H2.
Defined.

Lemma q_store_well_formed : well_formed_state q_store.
Proof.
  unfold well_formed_state.
  split; [|split; [|split]]; try (apply structured_by_computation; vm_compute; reflexivity).
  reflexivity.
Defined.

Lemma q_store_no_nan : no_nan_time (live q_store).
Proof. apply (bool_decide_eq_true_1 _). vm_compute. reflexivity. Defined.

Lemma hasUnsavedChanges_tracks_differences_witness :
  hasUnsavedChanges q_store_saved = Some false
  ∧ hasUnsavedChanges q_store_discarded = Some false.
Proof.
  destruct (hasUnsavedChanges_tracks_differences q_store q_store_well_formed)
    as (_ & Hsave & Hdiscard & _).
  split.
  - apply Hsave; [reflexivity|exact q_store_no_nan].
  - apply Hdiscard. exact q_store_no_nan.
Defined.

(** C3 as stated fails on "true after any subsequent edit": after a
    save, setting [w] and then clearing [w] are two edits of the live set
    with the snapshot unchanged; the check is true after the first and
    false after the second.  And a label edit right after the save that
    commits the label the entry already has leaves the check false. *)
Lemma clear_after_set_is_not_dirty :
  (∃ o, handleKeyPress (keydown "w" "KeyW") q_store_saved = Some o ∧
        hasUnsavedChanges (state o) = Some true ∧
        saved (clearHotcue "w" (state o)) = saved q_store_saved ∧
        live (clearHotcue "w" (state o)) ≠ live (state o) ∧
        hasUnsavedChanges (clearHotcue "w" (state o)) = Some false) ∧
  (∃ σ2, apply_edit (EditLabel "q" "") q_store_saved = Some σ2 ∧
         saved σ2 = saved q_store_saved ∧
         hasUnsavedChanges σ2 = Some false).
Proof.
  split.
  - eexists. split; [reflexivity|]. split; [vm_compute; reflexivity|].
    split; [vm_compute; reflexivity|]. split; [|vm_compute; reflexivity].
    intros H. apply (f_equal (λ m, m !! "w")) in H. vm_compute in H.
    discriminate H.
  - eexists. split; [reflexivity|]. split; vm_compute; reflexivity.
Qed.

(** ** Independence of snapshot and live set *)

Lemma apply_edit_spec (ed : Edit) (σ : State) :
  well_formed_state σ →
  ∃ σ', apply_edit ed σ = Some σ' ∧
        well_formed_state σ' ∧
        heap (cues σ) `prefix_of` heap (cues σ') ∧
        initialHotcuesRef (cues σ') = initialHotcuesRef (cues σ).
Proof.
  intros Hwf. destruct ed as [e|key|key text]; simpl.
  - destruct (handleKeyPress_spec e σ Hwf) as (o & -> & ? & ? & ? & _).
    by exists (state o).
  - destruct (clearHotcue_spec key σ Hwf) as (? & ? & ? & _). by eexists.
  - destruct (handleHotcueLabelBlur_spec key (setEditingLabel text σ) Hwf)
      as (σ' & ? & ? & ? & ? & _).
    by exists σ'.
Qed.

Lemma apply_edits_spec (eds : list Edit) (σ : State) :
  well_formed_state σ →
  ∃ σ', apply_edits eds σ = Some σ' ∧
        well_formed_state σ' ∧
        heap (cues σ) `prefix_of` heap (cues σ') ∧
        initialHotcuesRef (cues σ') = initialHotcuesRef (cues σ).
Proof.
  revert σ. induction eds as [|ed rest IH]; intros σ Hwf.
  - by exists σ.
  - destruct (apply_edit_spec ed σ Hwf) as (σ1 & Hrun & Hwf1 & Hp1 & Hr1).
    destruct (IH σ1 Hwf1) as (σ2 & Hrun2 & Hwf2 & Hp2 & Hr2).
    exists σ2. simpl. rewrite Hrun. simpl. split; [done|]. split; [done|].
    split; [by etrans|congruence].
Qed.

(** How the two operations copy: [discard()] makes the live set the
    snapshot object itself; a successful [save()] makes the snapshot an
    object with the very entries (the same references) of the live set. *)
Lemma discard_aliases (σ : State) :
  hotcuesRef (cues (discardChanges σ)) = initialHotcuesRef (cues (discardChanges σ)).
Proof. reflexivity. Qed.

Lemma settled_sets_share (σ σ1 : State) :
  well_formed_state σ → just_settled σ σ1 →
  obj_of (heap (cues σ1)) (initialHotcuesRef (cues σ1))
  = obj_of (heap (cues σ1)) (hotcuesRef (cues σ1)).
Proof.
  intros (_ & Hcur & _ & _) [->|(props & username & r & Hok & ->)]; [done|].
  rewrite !(handleSave_success _ _ _ _ Hok). cbn -[obj_of].
  rewrite obj_of_alloc. symmetry. apply obj_of_prefix.
  - apply (structured_closed _ _ Hcur).
  - by apply prefix_app_r.
Qed.

(** C7 (amended).  Right after [discard()] or a successful [save()], no
    sequence of edits of the live set (keystrokes, clears, label edits)
    alters the Saved Snapshot: every edit returns, leaves the snapshot
    reference alone and only adds objects to the heap, so the snapshot
    reads the same before and after.  The two sets are not independent
    copies: at that moment they hold the same entry objects. *)
Theorem live_edits_never_alter_snapshot (σ σ1 : State) (eds : list Edit) :
  well_formed_state σ → just_settled σ σ1 →
  obj_of (heap (cues σ1)) (initialHotcuesRef (cues σ1))
  = obj_of (heap (cues σ1)) (hotcuesRef (cues σ1)) ∧
  ∃ σ2, apply_edits eds σ1 = Some σ2 ∧
        saved σ2 = saved σ1 ∧
        initialHotcuesRef (cues σ2) = initialHotcuesRef (cues σ1) ∧
        heap (cues σ1) `prefix_of` heap (cues σ2).
Proof.
  intros Hwf Hsettled.
  split; [by apply (settled_sets_share σ σ1)|].
  destruct (just_settled_clean σ σ1 Hwf Hsettled) as (Hwf1 & _).
  destruct (apply_edits_spec eds σ1 Hwf1) as (σ2 & Hrun & _ & Hp & Href).
  exists σ2. split; [done|]. split; [|done].
  apply saved_preserved; [|done|done]. by destruct Hwf1 as (_ & _ & ? & _).
Qed.

Lemma q_saved_settled : just_settled q_store q_store_saved.
Proof. right. exists some_video, (Some "ann"), (Fulfilled None). by split. Defined.

Lemma live_edits_never_alter_snapshot_witness :
  ∃ σ2, apply_edits [PressKey (keydown "w" "KeyW"); EditLabel "q" "intro";
                     ClearKey "q"] q_store_saved = Some σ2 ∧
        saved σ2 = saved q_store_saved ∧
        initialHotcuesRef (cues σ2) = initialHotcuesRef (cues q_store_saved) ∧
        heap (cues q_store_saved) `prefix_of` heap (cues σ2).
Proof.
  exact (proj2 (live_edits_never_alter_snapshot q_store _ _ q_store_well_formed
                  q_saved_settled)).
Defined.

(** C7 as stated fails: the copies are not independent.  After
    [discard()] the live set is the snapshot object itself; after
    [save()] the snapshot is a new object that holds the live set's entry
    objects.  In both cases renaming the snapshot's entry for [q] in place
    changes what the live set reads. *)
Lemma snapshot_entries_are_shared :
  hotcuesRef (cues q_store_discarded) = initialHotcuesRef (cues q_store_discarded) ∧
  initialHotcuesRef (cues q_store_saved) ≠ hotcuesRef (cues q_store_saved) ∧
  obj_of (heap (cues q_store_saved)) (initialHotcuesRef (cues q_store_saved))
  = obj_of (heap (cues q_store_saved)) (hotcuesRef (cues q_store_saved)) ∧
  view (rename_in_place (initialHotcuesRef (cues q_store_discarded)) "q" (VStr "x")
          (heap (cues q_store_discarded)))
       (hotcuesRef (cues q_store_discarded))
  ≠ live q_store_discarded ∧
  view (rename_in_place (initialHotcuesRef (cues q_store_saved)) "q" (VStr "x")
          (heap (cues q_store_saved)))
       (hotcuesRef (cues q_store_saved))
  ≠ live q_store_saved.
Proof.
  split_and!.
  - reflexivity.
  - discriminate.
  - vm_compute. reflexivity.
  - intros H. apply (f_equal (λ m, m !! "q")) in H. vm_compute in H. discriminate H.
  - intros H. apply (f_equal (λ m, m !! "q")) in H. vm_compute in H. discriminate H.
Qed.

(** ** Frame of single-key edits *)

(** C10 (confirmed).  Frame of single-key edits, on a well-formed state:
    whatever a keystroke does (in particular when it sets a hotcue), every
    key other than the pressed one keeps exactly the entry it had;
    clearing a key removes that key's entry and leaves every other key's
    entry unchanged; clearing a key that has no entry leaves the whole
    set unchanged. *)
Theorem single_key_edits_frame (σ : State) :
  well_formed_state σ →
  (∀ e, ∃ o, handleKeyPress e σ = Some o ∧
             ∀ k', k' ≠ toLowerCase (ev_key e) →
                   live (state o) !! k' = live σ !! k') ∧
  (∀ key, live (clearHotcue key σ) !! key = None ∧
          ∀ k', k' ≠ key → live (clearHotcue key σ) !! k' = live σ !! k') ∧
  (∀ key, live σ !! key = None → live (clearHotcue key σ) = live σ).
Proof.
  intros Hwf. split_and!.
  - intros e. destruct (handleKeyPress_spec e σ Hwf) as (o & Hrun & _ & _ & _ & Hcase).
    exists o. split; [done|]. intros k' Hne.
    destruct Hcase as [Hsame|(t & _ & ->)].
    + unfold live. by rewrite Hsame.
    + by rewrite lookup_insert_ne.
  - intros key. destruct (clearHotcue_spec key σ Hwf) as (_ & _ & _ & _ & ->).
    split; [by rewrite lookup_delete_eq|].
    intros k' Hne. by rewrite lookup_delete_ne.
  - intros key Hnone. destruct (clearHotcue_spec key σ Hwf) as (_ & _ & _ & _ & ->).
    by apply delete_id.
Qed.

Lemma single_key_edits_frame_witness :
  (∃ o, handleKeyPress (keydown "w" "KeyW") q_store = Some o ∧
        live (state o) !! "q" = live q_store !! "q") ∧
  live (clearHotcue "w" q_store) = live q_store.
Proof.
  destruct (single_key_edits_frame q_store q_store_well_formed)
    as (Hset & _ & Hclear).
  split.
  - destruct (Hset (keydown "w" "KeyW")) as (o & Hrun & Hframe).
    exists o. split; [exact Hrun|]. apply Hframe. discriminate.
  - apply Hclear. reflexivity.
Defined.

(** ** Substrings *)

Lemma startsWith_append (p s : string) : startsWith p (p +:+ s) = true.
Proof.
  induction p as [|c p IH]; simpl; [done|].
  by rewrite bool_decide_eq_true_2, IH.
Qed.

Lemma includes_prefix (p s : string) : includes p (p +:+ s) = true.
Proof. destruct p; simpl; [by destruct s|].
  rewrite bool_decide_eq_true_2 by done. by rewrite startsWith_append. Qed.

Lemma includes_append_l (p s t : string) :
  includes p s = true → includes p (t +:+ s) = true.
Proof.
  intros H. induction t as [|c t IH]; simpl; [done|].
  rewrite IH. by rewrite orb_true_r.
Qed.

Lemma startsWith_append_r (p s t : string) :
  startsWith p s = true → startsWith p (s +:+ t) = true.
Proof.
  revert s. induction p as [|c p IH]; intros s; simpl; [done|].
  destruct s as [|d s]; simpl; [done|].
  intros [-> H]%andb_true_iff. simpl. by apply IH.
Qed.

Lemma includes_append_r (p s t : string) :
  includes p s = true → includes p (s +:+ t) = true.
Proof.
  induction s as [|c s IH]; simpl.
  - rewrite orb_false_r. destruct p; [|done]. intros _. by destruct t.
  - intros [H|H]%orb_true_iff.
    + apply (startsWith_append_r p (String c s) t) in H.
      change (String c s +:+ t) with (String c (s +:+ t)) in H.
      by rewrite H.
    + rewrite (IH H). by rewrite orb_true_r.
Qed.

Lemma startsWith_refl (p : string) : startsWith p p = true.
Proof.
  induction p as [|c p IH]; simpl; [done|].
  by rewrite bool_decide_eq_true_2, IH.
Qed.

Lemma includes_refl (p : string) : includes p p = true.
Proof.
  destruct p as [|c p]; simpl; [done|].
  rewrite bool_decide_eq_true_2 by done. by rewrite startsWith_refl.
Qed.

Lemma includes_join (sep : string) (l : list string) (f : string) :
  f ∈ l → includes f (join sep l) = true.
Proof.
  induction l as [|x rest IH]; [by intros ?%not_elem_of_nil|].
  intros [->|Hin]%elem_of_cons.
  - destruct rest; simpl; [apply includes_refl|apply includes_prefix].
  - destruct rest as [|y rest']; [by apply not_elem_of_nil in Hin|].
    change (join sep (x :: y :: rest')) with (x +:+ sep +:+ join sep (y :: rest')).
    by apply includes_append_l, includes_append_l, IH.
Qed.

Lemma str_or_present (s b : string) : s ≠ "" → str_or (Some s) b = s.
Proof. intros H. unfold str_or. by rewrite bool_decide_eq_false_2. Qed.

(** ** A failed save *)

Lemma errorMessage_classes (error : AxiosError) :
  match failure_class error with
  | Unreachable =>
      errorMessage error
      = "Failed to save video. Cannot connect to backend server. Is it running on port 3001?"
  | TimedOut =>
      errorMessage error = "Failed to save video. Request timed out. Please try again."
  | ServerReported =>
      ∃ response, err_response error = Some response ∧
        includes (server_text response) (errorMessage error) = true ∧
        ∀ fields, data_missingFields (response_data response) = Some fields →
                  Forall (λ f, includes f (errorMessage error) = true) fields
  | Generic =>
      errorMessage error
      = "Failed to save video. " +:+ str_or (Some (err_message error)) "Unknown error occurred."
  end.
Proof.
  unfold failure_class, errorMessage.
  destruct (bool_decide (err_code error = Some "ECONNREFUSED")
            || bool_decide (err_code error = Some "ERR_NETWORK")); [done|].
  destruct (bool_decide (err_code error = Some "ECONNABORTED")
            || includes "timeout" (err_message error)); [done|].
  destruct (err_response error) as [response|]; [|done].
  exists response. split; [done|]. fold (server_text response).
  set (m1 := "Failed to save video. " +:+ server_text response).
  assert (H1 : includes (server_text response) m1 = true).
  { apply includes_append_l, includes_refl. }
  split.
  - destruct (present (data_type (response_data response)));
      destruct (data_missingFields (response_data response));
      first [ exact H1
            | apply includes_append_r; exact H1
            | do 2 apply includes_append_r; exact H1 ].
  - intros fields ->. apply Forall_forall. intros f Hf.
    assert (H2 : includes f (m1 +:+ " Missing: " +:+ join ", " fields) = true).
    { by apply includes_append_l, includes_append_l, includes_join. }
    destruct (present (data_type (response_data response)));
      [by apply includes_append_r|done].
Qed.

(** C4 (confirmed).  For every failed [save()] the hotcue part of the
    state, and with it the Saved Snapshot, is exactly as before, and an
    error notification is produced.  When the request was sent and
    rejected its text tells the failure class: a fixed text for an
    unreachable connection, another fixed text for a timeout, the
    server's own error text followed by every missing field name for a
    server-reported error, and the error's message otherwise.  A
    rejection arriving in any later state leaves that state's hotcues and
    snapshot alone as well. *)
Theorem failed_save_keeps_snapshot_and_explains (props : Props)
    (username : option string) (r : Settled) (σ : State) :
  save_succeeds props username r = false →
  let σ' := handleSave props username r σ in
  cues σ' = cues σ ∧ saved σ' = saved σ ∧
  (∀ error σ2, cues (handleSave_settle (Rejected error) σ2) = cues σ2) ∧
  ∃ text, saveMessage (saveUi σ') = Some (MsgError, text) ∧
    ∀ error,
      present (youtubeUrl props) && present (videoId props) && present username = true →
      r = Rejected error →
      match failure_class error with
      | Unreachable =>
          text = "Failed to save video. Cannot connect to backend server. Is it running on port 3001?"
      | TimedOut =>
          text = "Failed to save video. Request timed out. Please try again."
      | ServerReported =>
          ∃ response, err_response error = Some response ∧
            includes (server_text response) text = true ∧
            (∀ msg, data_error (response_data response) = Some msg → msg ≠ "" →
                    includes msg text = true) ∧
            (∀ fields, data_missingFields (response_data response) = Some fields →
                       Forall (λ f, includes f text = true) fields)
      | Generic =>
          text = "Failed to save video. "
                 +:+ str_or (Some (err_message error)) "Unknown error occurred."
      end.
Proof.
  intros Hfail. simpl.
  pose proof (handleSave_failure props username r σ Hfail) as Hcues.
  split; [done|]. split; [unfold saved; by rewrite Hcues|]. split; [done|].
  unfold handleSave, handleSave_begin, save_succeeds in *.
  destruct (present (youtubeUrl props)), (present (videoId props)),
    (present username); simpl in *;
    try (eexists; split; [done|]; by intros error [=]).
  destruct r as [message|error0]; [done|]. simpl.
  eexists. split; [done|]. intros error _ [= <-].
  pose proof (errorMessage_classes error0) as Hclass.
  destruct (failure_class error0); try done.
  destruct Hclass as (response & Hresp & Htext & Hfields).
  exists response. split; [done|]. split; [done|]. split; [|done].
  intros msg Hmsg Hne. unfold server_text in Htext.
  by rewrite Hmsg, str_or_present in Htext.
Qed.

(** When the server answers [{error: 'Invalid data', missingFields:
    ['youtubeUrl']}] the text contains both. *)
Lemma failed_save_keeps_snapshot_and_explains_witness :
  saved (handleSave some_video (Some "ann") (Rejected invalid_data) q_store)
  = saved q_store ∧
  ∃ text, saveMessage (saveUi (handleSave some_video (Some "ann")
                                 (Rejected invalid_data) q_store))
          = Some (MsgError, text) ∧
          includes "Invalid data" text = true ∧
          includes "youtubeUrl" text = true.
Proof.
  destruct (failed_save_keeps_snapshot_and_explains some_video (Some "ann")
              (Rejected invalid_data) q_store eq_refl)
    as (_ & Hsaved & _ & text & Hmsg & Hclass).
  split; [exact Hsaved|]. exists text. split; [exact Hmsg|].
  destruct (Hclass invalid_data eq_refl eq_refl)
    as (response & Hresp & _ & Herr & Hfields).
  injection Hresp as <-. split.
  - apply Herr; [reflexivity|discriminate].
  - specialize (Hfields _ eq_refl). by apply Forall_inv in Hfields.
Defined.

(** ** The progress bar *)

(** A keystroke touches only the hotcue sets and the flash. *)
Lemma handleKeyPress_frame (e : KeyEvent) (σ : State) (o : Outcome) :
  handleKeyPress e σ = Some o →
  playerRef (state o) = playerRef σ ∧
  isPlayerReady (state o) = isPlayerReady σ ∧
  isPlayerReadyRef (state o) = isPlayerReadyRef σ ∧
  scrub (state o) = scrub σ ∧ editor (state o) = editor σ ∧
  saveUi (state o) = saveUi σ.
Proof.
  unfold handleKeyPress. intros H.
  repeat (case_match; simplify_option_eq; try done).
Qed.









(** * The other handlers *)

(** The jump branch of the dispatcher. *)
Lemma jump_branch (e : KeyEvent) (σ : State) (p : Player) (hotcue t : JsVal) :
  not_text_input e →
  ev_key e ∈ LETTER_KEYS →
  playerRef σ = Some p → isPlayerReadyRef σ = true →
  get_prop (heap (cues σ)) (hotcuesRef (cues σ)) (ev_key e) = Some hotcue →
  strict_eq hotcue VUndefined = false →
  time_of (heap (cues σ)) hotcue = Some t →
  ∃ o, handleKeyPress e σ = Some o ∧
       cues (state o) = cues σ ∧
       calls o = (jump p t).1.
Proof.
  intros Hfocus Hkey Hp Hready Hget Hdef Htime. unfold handleKeyPress.
  rewrite (not_text_input_guard e Hfocus).
  rewrite (toLowerCase_letter _ Hkey), Hp, Hready.
  rewrite bool_decide_eq_true_2 by done. cbn -[jump].
  rewrite Hget. cbn -[jump]. rewrite Hdef. cbn -[jump]. rewrite Htime. cbn -[jump].
  eexists. split; [done|]. by split.
Qed.

Lemma jump_calls (p : Player) (t : JsVal) :
  (jump p t).1 = SeekTo t true :: (if seekTo_returns p then [PlayVideo] else []).
Proof. unfold jump. cbn. by destruct (seekTo_returns p). Qed.

Lemma entry_time_entry (t n : JsVal) : entry_time (Fields (entry t n)) = t.
Proof. unfold entry_time, entry. by rewrite lookup_insert_eq. Qed.

(** The entry of a key, read through the rendered state and through the
    live ref. *)
Lemma row_entry (σ : State) (k : string) (x : EntryView) :
  well_formed_state σ → live σ !! k = Some x →
  ∃ e1 e2 o,
    row k σ = VRef e1 ∧ heap (cues σ) !! e1 = Some o ∧
    prop (heap (cues σ)) (hotcuesRef (cues σ)) k = VRef e2 ∧
    heap (cues σ) !! e2 = Some o ∧ x = Fields o.
Proof.
  intros (Hst & Hcur & Hinit & Hco) Hx.
  destruct (view_lookup_entry _ _ _ _ Hcur Hx) as (e2 & o2 & Hk2 & He2 & ->).
  unfold live in Hx. fold (live σ) in Hx. rewrite <- Hco in Hx.
  destruct (view_lookup_entry _ _ _ _ Hst Hx) as (e1 & o1 & Hk1 & He1 & [= ->]).
  exists e1, e2, o1. unfold row, prop. rewrite Hk1, Hk2. by split_and!.
Qed.

(** X1.  The space bar does what the play/pause button does, twice over.
    A keystroke with code Space outside a text field, whose key is no
    hotcue letter, runs the listener twice (it is registered on the
    window and on the document); each run makes exactly the calls
    [handlePlayPause] makes on the same state, and the state is
    unchanged.  With a ready player the calls of the button are
    [getPlayerState] followed by [pauseVideo] when the state is PLAYING
    and by [playVideo] otherwise, and only [getPlayerState] when that
    call throws; without a player, or before it is ready, there is
    none. *)
Theorem space_bar_acts_twice_as_play_button (e : KeyEvent) (σ : State) :
  not_text_input e → ev_code e = "Space" → toLowerCase (ev_key e) ∉ LETTER_KEYS →
  keystroke e σ
  = {| state := σ; calls := handlePlayPause σ ++ handlePlayPause σ;
       defaultPrevented := true |}
  ∧ handlePlayPause σ =
      match playerRef σ with
      | Some p =>
          if isPlayerReadyRef σ then
            match getPlayerState p with
            | Some st => if strict_eq st PLAYING
                         then [GetPlayerState; PauseVideo]
                         else [GetPlayerState; PlayVideo]
            | None => [GetPlayerState]
            end
          else []
      | None => []
      end.
Proof.
  intros Hfocus Hcode Hkey. split.
  - pose proof (space_run e σ Hfocus Hcode Hkey) as Hrun.
    by rewrite (keystroke_runs e σ _ _ Hrun Hrun).
  - unfold handlePlayPause. destruct (playerRef σ) as [p|]; [|done].
    destruct (isPlayerReadyRef σ); [|done]. cbn -[toggle]. apply toggle_calls.
Qed.

Lemma space_bar_acts_twice_as_play_button_witness :
  keystroke (keydown " " "Space") q_store
  = {| state := q_store;
       calls := [GetPlayerState; PlayVideo; GetPlayerState; PlayVideo];
       defaultPrevented := true |}.
Proof.
  destruct (space_bar_acts_twice_as_play_button (keydown " " "Space") q_store)
    as [H1 H2].
  - apply keydown_not_text_input.
  - reflexivity.
  - apply (bool_decide_eq_false_1 _). vm_compute. reflexivity.
  - rewrite H1. f_equal.
Defined.

(** One run of the listener for a hotcue letter that has an entry makes
    the calls of the jump button of its row. *)
Lemma jump_run (e : KeyEvent) (σ : State) (x : EntryView) :
  well_formed_state σ → isPlayerReady σ = isPlayerReadyRef σ →
  not_text_input e → ev_key e ∈ LETTER_KEYS → live σ !! ev_key e = Some x →
  ∃ o, handleKeyPress e σ = Some o ∧
       cues (state o) = cues σ ∧
       calls o = jumpButton (ev_key e) σ ∧
       ∀ p, playerRef σ = Some p → isPlayerReadyRef σ = true →
            calls o = SeekTo (entry_time x) true
                      :: (if seekTo_returns p then [PlayVideo] else []).
Proof.
  intros Hwf Hflags Hfocus Hkey Hx.
  destruct (row_entry σ _ x Hwf Hx) as (e1 & e2 & o & Hrow & He1 & Hprop & He2 & ->).
  pose proof Hwf as (_ & Hcur & _ & _).
  assert (Hjb : jumpButton (ev_key e) σ
                = match playerRef σ with
                  | Some p => if isPlayerReadyRef σ
                              then (jump p (entry_time (Fields o))).1 else []
                  | None => []
                  end).
  { unfold jumpButton, handleSeek. rewrite Hrow. cbn -[jump time_of].
    rewrite (time_of_object _ _ _ He1), Hflags.
    destruct (playerRef σ); [|done]. by destruct (isPlayerReadyRef σ). }
  destruct (playerRef σ) as [p|] eqn:Hp.
  - destruct (isPlayerReadyRef σ) eqn:Hready.
    + destruct (jump_branch e σ p (VRef e2) (entry_time (Fields o)))
        as (o' & Hrun & Hcues & Hcalls); try done.
      * rewrite structured_get_prop by done. by rewrite Hprop.
      * by apply time_of_object.
      * exists o'. split_and!; try done.
        -- by rewrite Hjb.
        -- intros p' [= <-] _. by rewrite Hcalls, jump_calls.
    + unfold handleKeyPress. rewrite (not_text_input_guard e Hfocus), Hp, Hready.
      rewrite andb_false_r. cbn.
      destruct (bool_decide (ev_code e = "Space") || bool_decide (ev_key e = "k"));
        (eexists; split; [done|]; split_and!; try done; by rewrite Hjb).
  - unfold handleKeyPress. rewrite (not_text_input_guard e Hfocus), Hp.
    assert (Hnone : (if bool_decide (toLowerCase (ev_key e) ∈ LETTER_KEYS)
                        && isPlayerReadyRef σ then @None Player else None) = None)
      by (by destruct (_ && _)).
    rewrite Hnone.
    destruct (bool_decide (ev_code e = "Space") || bool_decide (ev_key e = "k"));
      (eexists; split; [done|]; split_and!; try done; by rewrite Hjb).
Qed.

(** The jump button reads the rendered set, the player and the ready
    flag. *)
Lemma jumpButton_ext (key : string) (σ σ' : State) :
  cues σ' = cues σ → playerRef σ' = playerRef σ →
  isPlayerReady σ' = isPlayerReady σ →
  jumpButton key σ' = jumpButton key σ.
Proof.
  intros Hc Hp Hr. unfold jumpButton, row, handleSeek. by rewrite Hc, Hp, Hr.
Qed.

(** X2.  The key of a hotcue row does what the jump button of that row
    does, twice over.  On a well-formed state whose ready flag and ready
    ref agree, for a hotcue letter that has an entry: a keystroke of that
    letter outside a text field runs the listener twice (it is
    registered on the window and on the document); each run makes
    exactly the calls of the row's jump button, and the hotcue sets are
    left as they were.  With a ready player the calls of the button are
    [seekTo(time, true)] with the entry's time, followed by
    [playVideo()] when the seek returned. *)
Theorem hotcue_key_acts_twice_as_jump_button (e : KeyEvent) (σ : State)
    (x : EntryView) :
  well_formed_state σ → isPlayerReady σ = isPlayerReadyRef σ →
  not_text_input e → ev_key e ∈ LETTER_KEYS → live σ !! ev_key e = Some x →
  cues (state (keystroke e σ)) = cues σ ∧
  calls (keystroke e σ) = jumpButton (ev_key e) σ ++ jumpButton (ev_key e) σ ∧
  ∀ p, playerRef σ = Some p → isPlayerReadyRef σ = true →
       jumpButton (ev_key e) σ
       = SeekTo (entry_time x) true :: (if seekTo_returns p then [PlayVideo] else []).
Proof.
  intros Hwf Hflags Hfocus Hkey Hx.
  destruct (jump_run e σ x Hwf Hflags Hfocus Hkey Hx)
    as (o1 & Hrun1 & Hcues1 & Hcalls1 & Hseek1).
  destruct (handleKeyPress_spec e σ Hwf) as (o1' & Hrun1' & Hwf1 & _).
  assert (o1' = o1) as -> by congruence.
  destruct (handleKeyPress_frame e σ o1 Hrun1) as (Hp1 & Hr1 & Hrr1 & _).
  destruct (jump_run e (state o1) x Hwf1) as (o2 & Hrun2 & Hcues2 & Hcalls2 & _);
    try done.
  { by rewrite Hr1, Hrr1. }
  { unfold live. by rewrite Hcues1. }
  rewrite (keystroke_runs e σ _ _ Hrun1 Hrun2). cbn [state calls].
  split; [by rewrite Hcues2|]. split.
  - rewrite Hcalls1, Hcalls2. f_equal. by apply jumpButton_ext.
  - intros p Hp Hready. rewrite <- Hcalls1. by apply Hseek1.
Qed.

Lemma hotcue_key_acts_twice_as_jump_button_witness :
  jumpButton "q" q_store = [SeekTo (VNum t12_5) true; PlayVideo] ∧
  calls (keystroke (keydown "q" "KeyQ") q_store)
  = [SeekTo (VNum t12_5) true; PlayVideo; SeekTo (VNum t12_5) true; PlayVideo].
Proof.
  destruct (hotcue_key_acts_twice_as_jump_button (keydown "q" "KeyQ") q_store
              (Fields (entry (VNum t12_5) (VStr ""))))
    as (_ & Hcalls & Hseek).
  - apply q_store_well_formed.
  - reflexivity.
  - apply keydown_not_text_input.
  - apply q_is_letter.
  - vm_compute. reflexivity.
  - assert (Hb : jumpButton "q" q_store = [SeekTo (VNum t12_5) true; PlayVideo])
      by (apply (Hseek (responsive (VNum t7_25) PAUSED)); reflexivity).
    split; [exact Hb|]. rewrite Hcalls. simpl ev_key. rewrite Hb. reflexivity.
Defined.

(** The dirty flag is a function of the two sets read by value. *)
Lemma hasUnsavedChanges_ext (σ σ' : State) :
  well_formed_state σ → well_formed_state σ' →
  (differs (live σ') (saved σ') ↔ differs (live σ) (saved σ)) →
  hasUnsavedChanges σ' = hasUnsavedChanges σ.
Proof.
  intros (_ & Hcur & Hinit & _) (_ & Hcur' & Hinit' & _) Hiff.
  destruct (hasUnsavedChanges_spec σ Hcur Hinit) as (b & -> & Hb).
  destruct (hasUnsavedChanges_spec σ' Hcur' Hinit') as (b' & -> & Hb').
  f_equal. destruct b, b'; try done.
  - assert (false = true); [|done]. apply Hb', Hiff, Hb. done.
  - assert (false = true); [|done]. apply Hb, Hiff, Hb'. done.
Qed.


(** A run of the listener that sets a hotcue, and the run after it. *)
Lemma set_run_then_jump_run (e : KeyEvent) (σ : State) (p : Player) (t : num) :
  well_formed_state σ → not_text_input e → ev_key e ∈ LETTER_KEYS →
  playerRef σ = Some p → isPlayerReadyRef σ = true →
  live σ !! ev_key e = None →
  getCurrentTime p = Some (VNum t) → is_nan t = false →
  ∃ o1 o2,
    handleKeyPress e σ = Some o1 ∧ handleKeyPress e (state o1) = Some o2 ∧
    calls o1 = [GetCurrentTime] ∧
    live (state o1) = <[ev_key e := Fields (entry (VNum t) (VStr ""))]> (live σ) ∧
    calls o2 = SeekTo (VNum t) true :: (if seekTo_returns p then [PlayVideo] else []) ∧
    cues (state o2) = cues (state o1).
Proof.
  intros Hwf Hfocus Hkey Hp Hready Hunset Htime Hnan.
  pose proof Hwf as (_ & Hcur & _ & _).
  destruct (handleKeyPress_spec e σ Hwf) as (o1 & Hrun1 & Hwf1 & _).
  assert (Hget : get_prop (heap (cues σ)) (hotcuesRef (cues σ)) (ev_key e)
                 = Some VUndefined).
  { rewrite structured_get_prop by done. unfold prop.
    apply view_lookup_None in Hunset. by rewrite Hunset. }
  destruct (set_branch e σ p Hfocus Hkey Hp Hready
              (structured_closed _ _ Hcur) Hget) as (o' & Hrun' & Hcalls1 & Hlive).
  assert (o' = o1) as -> by congruence.
  rewrite Htime, Hnan in Hlive. destruct Hlive as (Hlive & _).
  destruct (handleKeyPress_frame e σ o1 Hrun1) as (Hp1 & _ & Hready1 & _).
  pose proof Hwf1 as (_ & Hcur1 & _ & _).
  assert (Hx : live (state o1) !! ev_key e
               = Some (Fields (entry (VNum t) (VStr ""))))
    by (by rewrite Hlive, lookup_insert_eq).
  destruct (view_lookup_entry _ _ _ _ Hcur1 Hx) as (l & ol & Hk & Hl & Hol).
  injection Hol as Hol.
  destruct (jump_branch e (state o1) p (VRef l) (VNum t))
    as (o2 & Hrun2 & Hcues2 & Hcalls2); try done.
  - by rewrite Hp1.
  - by rewrite Hready1.
  - rewrite structured_get_prop by done. unfold prop. by rewrite Hk.
  - rewrite (time_of_object _ _ _ Hl), <- Hol. by rewrite entry_time_entry.
  - exists o1, o2. split_and!; try done. by rewrite Hcalls2, jump_calls.
Qed.

Lemma empty_store_well_formed : well_formed_state empty_store.
Proof.
  unfold well_formed_state.
  split_and!; try (apply structured_by_computation; vm_compute; reflexivity).
  reflexivity.
Defined.

(** X3.  The keystroke that sets a hotcue jumps to it at once.  On a
    well-formed state with a ready player whose current time is a number
    other than NaN, a keystroke of an unset hotcue letter outside a text
    field runs the listener twice (it is registered on the window and on
    the document).  The first run reads the time and stores it under the
    letter, making no other call; the second run finds the entry and
    seeks to exactly the stored time, then plays when the seek returned.
    After the keystroke the live set is the old one with the new entry,
    the snapshot is as before. *)
Theorem setting_keystroke_also_jumps (e : KeyEvent) (σ : State) (p : Player)
    (t : num) :
  well_formed_state σ → not_text_input e → ev_key e ∈ LETTER_KEYS →
  playerRef σ = Some p → isPlayerReadyRef σ = true →
  live σ !! ev_key e = None →
  getCurrentTime p = Some (VNum t) → is_nan t = false →
  calls (runListener e σ) = [GetCurrentTime] ∧
  live (state (runListener e σ))
  = <[ev_key e := Fields (entry (VNum t) (VStr ""))]> (live σ) ∧
  calls (keystroke e σ)
  = GetCurrentTime :: SeekTo (VNum t) true
      :: (if seekTo_returns p then [PlayVideo] else []) ∧
  live (state (keystroke e σ))
  = <[ev_key e := Fields (entry (VNum t) (VStr ""))]> (live σ) ∧
  saved (state (keystroke e σ)) = saved σ.
Proof.
  intros Hwf Hfocus Hkey Hp Hready Hunset Htime Hnan.
  destruct (set_run_then_jump_run e σ p t Hwf Hfocus Hkey Hp Hready Hunset Htime Hnan)
    as (o1 & o2 & Hrun1 & Hrun2 & Hcalls1 & Hlive1 & Hcalls2 & Hcues2).
  destruct (handleKeyPress_spec e σ Hwf) as (o1' & Hrun1' & Hwf1 & Hpre1 & Href1 & _).
  assert (o1' = o1) as -> by congruence.
  pose proof Hwf as (_ & _ & Hinit & _).
  rewrite (runListener_Some _ _ _ Hrun1), (keystroke_runs e σ _ _ Hrun1 Hrun2).
  cbn [state calls]. split_and!; try done.
  - by rewrite Hcalls1, Hcalls2.
  - unfold live. by rewrite Hcues2.
  - transitivity (saved (state o1)); [unfold saved; by rewrite Hcues2|].
    by apply saved_preserved.
Qed.

Lemma setting_keystroke_also_jumps_witness :
  calls (runListener (keydown "w" "KeyW") empty_store) = [GetCurrentTime] ∧
  calls (keystroke (keydown "w" "KeyW") empty_store)
  = [GetCurrentTime; SeekTo (VNum t7_25) true; PlayVideo].
Proof.
  destruct (setting_keystroke_also_jumps (keydown "w" "KeyW") empty_store
              (responsive (VNum t7_25) PAUSED) t7_25)
    as (Hc1 & _ & Hc2 & _).
  - apply empty_store_well_formed.
  - apply keydown_not_text_input.
  - apply w_is_letter.
  - reflexivity.
  - reflexivity.
  - vm_compute. reflexivity.
  - reflexivity.
  - reflexivity.
  - split; [exact Hc1|exact Hc2].
Defined.

(** X4.  Setting and clearing cancel out.  On a well-formed state, for
    any keystroke whose lower-cased key has no entry: after the keystroke
    (whether it set a hotcue or did nothing) clearing that key leaves the
    live set, the snapshot and the answer of [hasUnsavedChanges()] as
    they were before the keystroke. *)
Theorem clearing_a_new_hotcue_restores_the_set (e : KeyEvent) (σ : State) :
  well_formed_state σ → live σ !! toLowerCase (ev_key e) = None →
  ∃ o, handleKeyPress e σ = Some o ∧
       live (clearHotcue (toLowerCase (ev_key e)) (state o)) = live σ ∧
       saved (clearHotcue (toLowerCase (ev_key e)) (state o)) = saved σ ∧
       hasUnsavedChanges (clearHotcue (toLowerCase (ev_key e)) (state o))
       = hasUnsavedChanges σ.
Proof.
  intros Hwf Hunset. pose proof Hwf as (_ & _ & Hinit & _).
  destruct (handleKeyPress_spec e σ Hwf) as (o & Hrun & Hwf1 & Hpre1 & Href1 & Hcase).
  pose proof Hwf1 as (_ & _ & Hinit1 & _).
  destruct (clearHotcue_spec (toLowerCase (ev_key e)) (state o) Hwf1)
    as (Hwf2 & Hpre2 & Href2 & _ & Hlive2).
  assert (Hsaved : saved (clearHotcue (toLowerCase (ev_key e)) (state o)) = saved σ).
  { rewrite (saved_preserved (state o)) by done. by apply saved_preserved. }
  assert (Hlive : live (clearHotcue (toLowerCase (ev_key e)) (state o)) = live σ).
  { rewrite Hlive2. destruct Hcase as [Hsame|(t & _ & ->)].
    - unfold live. rewrite Hsame. by apply delete_id.
    - by rewrite delete_insert_id. }
  exists o. split_and!; try done.
  apply hasUnsavedChanges_ext; try done. by rewrite Hlive, Hsaved.
Qed.

Lemma clearing_a_new_hotcue_restores_the_set_witness :
  ∃ o, handleKeyPress (keydown "w" "KeyW") q_store = Some o ∧
       live (state o) ≠ live q_store ∧
       live (clearHotcue "w" (state o)) = live q_store ∧
       hasUnsavedChanges (clearHotcue "w" (state o)) = hasUnsavedChanges q_store.
Proof.
  destruct (clearing_a_new_hotcue_restores_the_set (keydown "w" "KeyW") q_store)
    as (o & Hrun & Hlive & _ & Hflag).
  - apply q_store_well_formed.
  - vm_compute. reflexivity.
  - exists o. split; [exact Hrun|]. split; [|split; [exact Hlive|exact Hflag]].
    vm_compute in Hrun. injection Hrun as <-. intros Heq.
    apply (f_equal (λ m, m !! "w")) in Heq. vm_compute in Heq. discriminate Heq.
Defined.

(** * Invariants of the edits *)

Lemma timed_no_nan (m : gmap string EntryView) : timed m → no_nan_time m.
Proof. intros H k ev Hk. destruct (H k ev Hk) as (t & -> & Hn). done. Qed.

Lemma with_label_lookup (key name : string) (m : gmap string EntryView) k :
  with_label key name m !! k
  = if decide (k = key)
    then (λ x, Fields (entry (entry_time x) (VStr name))) <$> m !! key
    else m !! k.
Proof.
  unfold with_label. destruct (m !! key) as [x|] eqn:Hx.
  - case_decide as Hk; [subst; by rewrite lookup_insert_eq|].
    by rewrite lookup_insert_ne.
  - case_decide as Hk; [subst; by rewrite Hx|done].
Qed.





(** * Labels *)






Lemma same_cues_sym (a b : gmap string EntryView) : same_cues a b → same_cues b a.
Proof.
  intros [Hd H]. split; [done|]. intros k x y Hx Hy.
  destruct (H k y x Hy Hx) as [-> ->]. done.
Qed.

Lemma differs_same_cues (a a' b : gmap string EntryView) :
  same_cues a' a → differs a b → differs a' b.
Proof.
  intros [Hd H] [Hne|(k & x & y & Hx & Hy & Hxy)].
  - left. by rewrite Hd.
  - assert (is_Some (a' !! k)) as [x' Hx'].
    { apply elem_of_dom. rewrite Hd. apply elem_of_dom. eauto. }
    right. exists k, x', y. split; [done|]. split; [done|].
    destruct (H k x' x Hx' Hx) as [Ht Hl].
    unfold entry_differs in *. by rewrite Ht, Hl.
Qed.

(** X7.  Opening the label editor and leaving it changes nothing that
    counts.  On a well-formed state, for a key whose entry has a string
    label without leading or trailing white space: a click on the label
    opens the editor on that key with that label; committing it at once
    with Enter (default prevented) leaves the same keys, times and
    labels, the same snapshot and the same answer of
    [hasUnsavedChanges()], and closes the editor; leaving with Escape
    after typing any text leaves the hotcue sets untouched and closes
    the editor. *)
Theorem opening_and_leaving_the_label_editor (key s : string) (σ : State)
    (x : EntryView) (enter escape : KeyEvent) :
  well_formed_state σ → live σ !! key = Some x →
  entry_label x = VStr s → trim s = s →
  ev_key enter = "Enter" → ev_key escape = "Escape" →
  ∃ σ1 σ2,
    labelClick key σ = Some σ1 ∧
    editor σ1 = {| editingHotcue := Some key; editingLabel := s |} ∧
    handleHotcueLabelKeyDown enter key σ1 = Some (σ2, true) ∧
    same_cues (live σ2) (live σ) ∧ saved σ2 = saved σ ∧
    hasUnsavedChanges σ2 = hasUnsavedChanges σ ∧
    editingHotcue (editor σ2) = None ∧
    ∀ text, ∃ σ3,
      handleHotcueLabelKeyDown escape key (setEditingLabel text σ1) = Some (σ3, true) ∧
      cues σ3 = cues σ ∧ editor σ3 = {| editingHotcue := None; editingLabel := "" |}.
Proof.
  intros Hwf Hx Hlabel Htrim Henter Hescape.
  pose proof Hwf as (_ & _ & Hinit & _).
  destruct (row_entry σ key x Hwf Hx) as (e1 & e2 & o & Hrow & He1 & _ & _ & ->).
  set (σ1 := with_editor {| editingHotcue := Some key; editingLabel := s |} σ).
  assert (Hclick : labelClick key σ = Some σ1).
  { unfold labelClick, handleHotcueLabelClick. rewrite Hrow. cbn -[name_of].
    rewrite (name_of_object _ _ _ He1), Hlabel. done. }
  destruct (handleHotcueLabelBlur_spec key σ1 Hwf)
    as (σ2 & Hrun & Hwf2 & Hpre & Href & Hlive).
  change (live σ1) with (live σ) in Hlive.
  change (editingLabel (editor σ1)) with s in Hlive. rewrite Htrim in Hlive.
  assert (Hsame : same_cues (live σ2) (live σ)).
  { split.
    - apply set_eq. intros k. rewrite !elem_of_dom, Hlive, with_label_lookup.
      case_decide as Hk; [|done]. subst. by rewrite fmap_is_Some.
    - intros k a b. rewrite Hlive, with_label_lookup. case_decide as Hk.
      + subst. rewrite Hx. simpl. intros [= <-] [= <-].
        by rewrite entry_time_entry, entry_label_named.
      + intros Ha Hb. by assert (a = b) as -> by congruence. }
  assert (Hsaved : saved σ2 = saved σ) by (by apply (saved_preserved σ1 σ2)).
  exists σ1, σ2. split_and!; try done.
  - unfold handleHotcueLabelKeyDown. rewrite Henter. simpl. by rewrite Hrun.
  - apply hasUnsavedChanges_ext; try done. rewrite Hsaved. split.
    + apply differs_same_cues. by apply same_cues_sym.
    + by apply differs_same_cues.
  - unfold handleHotcueLabelBlur in Hrun.
    destruct (relabelled _ _ _ _) as [? ?].
    destruct (get_prop _ _ _); [|done]. simpl in Hrun.
    destruct (if truthy _ then _ else _) as [? ?]. by injection Hrun as <-.
  - intros text. eexists. unfold handleHotcueLabelKeyDown.
    rewrite Hescape. simpl. done.
Qed.

Lemma opening_and_leaving_the_label_editor_witness :
  ∃ σ1 σ2,
    labelClick "q" q_store = Some σ1 ∧
    handleHotcueLabelKeyDown (keydown_in_input "Enter" "Enter") "q" σ1
    = Some (σ2, true) ∧
    hasUnsavedChanges σ2 = hasUnsavedChanges q_store.
Proof.
  destruct (opening_and_leaving_the_label_editor "q" "" q_store
              (Fields (entry (VNum t12_5) (VStr "")))
              (keydown_in_input "Enter" "Enter")
              (keydown_in_input "Escape" "Escape"))
    as (σ1 & σ2 & H1 & _ & H2 & _ & _ & H3 & _).
  - apply q_store_well_formed.
  - vm_compute. reflexivity.
  - vm_compute. reflexivity.
  - reflexivity.
  - reflexivity.
  - reflexivity.
  - exists σ1, σ2. split; [exact H1|]. split; [exact H2|exact H3].
Defined.

(** * Discarding, saving and loading *)

(** X8.  [discardChanges()] undoes every edit.  On a well-formed state,
    after any sequence of edits (keystrokes, clear buttons, label edits),
    discarding makes the live set the Saved Snapshot as it was before
    the edits, leaves the snapshot as it was, and (no snapshot time
    being NaN) makes [hasUnsavedChanges()] false. *)
Theorem discard_undoes_every_edit (eds : list Edit) (σ : State) :
  well_formed_state σ →
  ∃ σ', apply_edits eds σ = Some σ' ∧
        live (discardChanges σ') = saved σ ∧
        saved (discardChanges σ') = saved σ ∧
        (no_nan_time (saved σ) →
         hasUnsavedChanges (discardChanges σ') = Some false).
Proof.
  intros Hwf. pose proof Hwf as (_ & _ & Hinit & _).
  destruct (apply_edits_spec eds σ Hwf) as (σ' & Hrun & Hwf' & Hpre & Href).
  destruct (saved_after_discard σ' Hwf') as (Hwf2 & Hlive & Hsaved).
  assert (Hs : saved σ' = saved σ) by (by apply saved_preserved).
  exists σ'. split; [done|]. rewrite Hlive, Hsaved, Hs. split_and!; try done.
  intros Hnan. apply not_dirty; [done|by rewrite Hlive, Hsaved|].
  by rewrite Hlive, Hs.
Qed.

Lemma discard_undoes_every_edit_witness :
  ∃ σ', apply_edits [PressKey (keydown "w" "KeyW"); ClearKey "q"] q_store = Some σ' ∧
        live σ' ≠ saved q_store ∧
        live (discardChanges σ') = saved q_store ∧
        hasUnsavedChanges (discardChanges σ') = Some false.
Proof.
  destruct (discard_undoes_every_edit
              [PressKey (keydown "w" "KeyW"); ClearKey "q"] q_store
              q_store_well_formed) as (σ' & Hrun & Hlive & _ & Hclean).
  exists σ'. split; [exact Hrun|]. split; [|split; [exact Hlive|]].
  - vm_compute in Hrun. injection Hrun as <-. intros Heq.
    apply (f_equal (λ m, m !! "w")) in Heq. vm_compute in Heq. discriminate Heq.
  - apply Hclean. exact q_store_no_nan.
Defined.

(** The snapshot taken when a request is fulfilled. *)
Lemma settle_fulfilled (message : option string) (σ : State) :
  well_formed_state σ →
  let σ1 := handleSave_settle (Fulfilled message) σ in
  well_formed_state σ1 ∧ live σ1 = live σ ∧ saved σ1 = live σ.
Proof.
  intros (Hst & Hcur & Hinit & Hco). simpl.
  unfold well_formed_state, live, saved, handleSave_settle, alloc. simpl.
  set (h := heap (cues σ)) in *.
  assert (Hp : h `prefix_of` h ++ [obj_of h (hotcuesRef (cues σ))])
    by (by apply prefix_app_r).
  assert (Hlive : view (h ++ [obj_of h (hotcuesRef (cues σ))]) (hotcuesRef (cues σ))
                  = view h (hotcuesRef (cues σ))).
  { apply view_prefix; [by apply structured_closed|done]. }
  split_and!.
  - by apply (structured_prefix h).
  - by apply (structured_prefix h).
  - apply structured_fresh. by apply structured_entries.
  - rewrite Hlive. rewrite (view_prefix h); [done|by apply structured_closed|done].
  - done.
  - rewrite view_fresh.
    + done.
    + apply (structured_closed _ _ Hcur).
Qed.

(** X9.  The snapshot of a save is taken when the answer arrives, not
    when the request is made.  On a well-formed state with a URL, a
    video id and a logged-in user, [handleSave] sends the live set of
    that moment; whatever edits are made while the request is in flight,
    once it is fulfilled the Saved Snapshot equals the live set of the
    moment of the answer, these edits included, and (no time being NaN)
    [hasUnsavedChanges()] is false, although they were not sent. *)
Theorem edits_during_a_save_are_marked_saved (props : Props)
    (username message : option string) (eds : list Edit) (σ : State) :
  well_formed_state σ →
  present (youtubeUrl props) && present (videoId props) && present username = true →
  ∃ σ1 σ2,
    handleSave_begin props username σ = (σ1, true) ∧
    payload σ1 = live σ ∧
    apply_edits eds σ1 = Some σ2 ∧
    saved (handleSave_settle (Fulfilled message) σ2) = live σ2 ∧
    live (handleSave_settle (Fulfilled message) σ2) = live σ2 ∧
    (no_nan_time (live σ2) →
     hasUnsavedChanges (handleSave_settle (Fulfilled message) σ2) = Some false).
Proof.
  intros Hwf Hok.
  apply andb_true_iff in Hok as [Hok Hu]. apply andb_true_iff in Hok as [Hy Hv].
  set (σ1 := with_saveUi {| isSaving := true; saveMessage := None |} σ).
  assert (Hbegin : handleSave_begin props username σ = (σ1, true)).
  { unfold handleSave_begin. by rewrite Hy, Hv, Hu. }
  destruct (apply_edits_spec eds σ1 Hwf) as (σ2 & Hrun & Hwf2 & _).
  destruct (settle_fulfilled message σ2 Hwf2) as (Hwf3 & Hlive & Hsaved).
  exists σ1, σ2. split_and!; try done.
  intros Hnan. apply not_dirty; [done|by rewrite Hlive, Hsaved|by rewrite Hlive].
Qed.

Lemma edits_during_a_save_are_marked_saved_witness :
  ∃ σ1 σ2,
    handleSave_begin some_video (Some "ann") q_store = (σ1, true) ∧
    apply_edits [PressKey (keydown "w" "KeyW")] σ1 = Some σ2 ∧
    saved (handleSave_settle (Fulfilled None) σ2) ≠ payload σ1 ∧
    hasUnsavedChanges (handleSave_settle (Fulfilled None) σ2) = Some false.
Proof.
  destruct (edits_during_a_save_are_marked_saved some_video (Some "ann") None
              [PressKey (keydown "w" "KeyW")] q_store q_store_well_formed)
    as (σ1 & σ2 & Hbegin & _ & Hrun & Hsaved & _ & Hclean).
  - reflexivity.
  - exists σ1, σ2. split; [exact Hbegin|]. split; [exact Hrun|].
    vm_compute in Hbegin. injection Hbegin as <-.
    vm_compute in Hrun. injection Hrun as <-. split.
    + intros Heq. apply (f_equal (λ m, m !! "w")) in Heq.
      vm_compute in Heq. discriminate Heq.
    + vm_compute. reflexivity.
Defined.

(** The live set after loading, key by key. *)
Lemma loadInitialHotcues_live (x : JsVal) (σ σ' : State) :
  closed (heap (cues σ)) x → loadInitialHotcues x σ = Some σ' →
  ∀ key, live σ' !! key = Fields <$> wire_at (heap (cues σ)) x key.
Proof.
  intros Hc. unfold loadInitialHotcues. destruct (truthy x) eqn:Hx.
  - destruct (normalizeHotcues_spec _ x Hc) as (r & h' & Hrun & _ & _ & Hview).
    rewrite Hrun. simpl. intros [= <-]. exact Hview.
  - unfold alloc. simpl. intros [= <-] key.
    assert (wire_at (heap (cues σ)) x key = None) as ->.
    { unfold wire_at. rewrite (obj_of_falsy _ _ Hx). by case_decide. }
    simpl. unfold live. simpl.
    set (h := heap (cues σ)).
    rewrite (view_prefix ((h ++ [∅]) ++ [∅])).
    + rewrite view_fresh by apply map_Forall_empty. by rewrite fmap_empty.
    + apply closed_fresh, map_Forall_empty.
    + by apply prefix_app_r.
Qed.

(** X10.  A freshly loaded video is never dirty.  For every raw value on
    a heap without dangling references, the load effect returns and
    establishes the invariant of the hotcue state with the snapshot
    equal to the live set; when the raw mapping holds no NaN (as a time
    or under [time]) every loaded entry has a number other than NaN as
    its time and [hasUnsavedChanges()] answers false, also when entries
    were dropped or rewritten by the normalisation. *)
Theorem loaded_hotcues_are_clean (x : JsVal) (σ : State) :
  closed (heap (cues σ)) x → raw_no_nan (heap (cues σ)) x →
  ∃ σ', loadInitialHotcues x σ = Some σ' ∧
        well_formed_state σ' ∧ saved σ' = live σ' ∧
        timed (live σ') ∧ hasUnsavedChanges σ' = Some false.
Proof.
  intros Hc Hraw.
  destruct (loadInitialHotcues_well_formed x σ Hc) as (σ' & Hrun & Hwf & Heq).
  pose proof (loadInitialHotcues_live x σ σ' Hc Hrun) as Hlive.
  assert (Ht : timed (live σ')).
  { intros k ev. rewrite Hlive.
    destruct (wire_at (heap (cues σ)) x k) as [lit|] eqn:Hw; [|done].
    apply wire_at_Some in Hw as (_ & v & Hv & Hw). revert Hw.
    destruct (Hraw k v Hv) as [Hn1 Hn2].
    destruct v as [| | |n| |l]; try done; simpl.
    - intros [= <-] [= <-]. exists n. by rewrite entry_time_entry.
    - destruct (prop (heap (cues σ)) (VRef l) "time") as [| | |t| |] eqn:Htime;
        try done.
      simpl. intros [= <-] [= <-]. exists t. by rewrite entry_time_entry. }
  exists σ'. split_and!; try done.
  apply not_dirty; [done|done|]. by apply timed_no_nan.
Qed.

Lemma wire_heap_no_nan : raw_no_nan wire_heap (VRef 0).
Proof.
  apply (bool_decide_eq_true_1
           (map_Forall (λ _ v, isNaN v = false
                               ∧ isNaN (prop wire_heap v "time") = false)
              (obj_of wire_heap (VRef 0)))).
  vm_compute. reflexivity.
Qed.

Lemma loaded_hotcues_are_clean_witness :
  ∃ σ', loadInitialHotcues (VRef 0)
          (mounted wire_heap (VRef 0) (VRef 0) destroyed) = Some σ' ∧
        live σ' !! "e" = None ∧
        hasUnsavedChanges σ' = Some false.
Proof.
  destruct (loaded_hotcues_are_clean (VRef 0)
              (mounted wire_heap (VRef 0) (VRef 0) destroyed)
              wire_heap_closed wire_heap_no_nan)
    as (σ' & Hrun & _ & _ & _ & Hclean).
  exists σ'. split; [exact Hrun|]. split; [|exact Hclean].
  vm_compute in Hrun. injection Hrun as <-. vm_compute. reflexivity.
Defined.

(** * The clock and the player *)

Lemma positive_known (d : num) : num_ltb zero d = true → truthy (VNum d) = true.
Proof. by destruct d as [[|]| [|]| |[|] m e]. Qed.

(** X11.  The 100 ms poll shows only valid values.  Whatever the player
    answers (anything, or an exception) one run of the poll leaves the
    hotcue sets, the editor and the drag state as they were; the shown
    time stays other than NaN if it was; the duration stays 0 (unknown)
    or above 0 if it was, and a known duration stays known, so a
    garbage or failing answer never disables the progress bar again. *)
Theorem poll_shows_only_valid_values (getDuration : option JsVal) (σ : State) :
  let σ' := updateTime getDuration σ in
  cues σ' = cues σ ∧ editor σ' = editor σ ∧
  isDragging (scrub σ') = isDragging (scrub σ) ∧
  (is_nan (currentTime (scrub σ)) = false → is_nan (currentTime (scrub σ')) = false) ∧
  (duration_ok σ → duration_ok σ') ∧
  (no_duration σ = false → no_duration σ' = false).
Proof.
  unfold updateTime, duration_ok, no_duration.
  destruct (playerRef σ) as [p|]; [|done].
  destruct (isPlayerReady σ); [|done]. simpl.
  destruct (getCurrentTime p) as [time|]; [|done].
  assert (Hs1 : ∀ s1,
            s1 = match time with
                 | VNum t => if negb (is_nan t)
                             then setCurrentTime t (scrub σ) else scrub σ
                 | _ => scrub σ
                 end →
            isDragging s1 = isDragging (scrub σ) ∧ duration s1 = duration (scrub σ) ∧
            (is_nan (currentTime (scrub σ)) = false → is_nan (currentTime s1) = false)).
  { intros s1 ->. destruct time as [| | |t| |]; try done.
    destruct (is_nan t) eqn:Hn; simpl; by rewrite ?Hn. }
  destruct (Hs1 _ eq_refl) as (Hdrag & Hdur & Hcur).
  set (s1 := match time with VNum _ => _ | _ => _ end) in *. clearbody s1.
  assert (Hkeep :
            let σ' := with_scrub s1 σ in
            cues σ' = cues σ ∧ editor σ' = editor σ ∧
            isDragging (scrub σ') = isDragging (scrub σ) ∧
            (is_nan (currentTime (scrub σ)) = false →
             is_nan (currentTime (scrub σ')) = false) ∧
            (duration (scrub σ) = zero ∨ num_ltb zero (duration (scrub σ)) = true →
             duration (scrub σ') = zero ∨ num_ltb zero (duration (scrub σ')) = true) ∧
            (negb (truthy (VNum (duration (scrub σ)))) = false →
             negb (truthy (VNum (duration (scrub σ')))) = false)).
  { simpl. rewrite Hdur. by split_and!. }
  destruct getDuration as [[| | |d| |]|]; try exact Hkeep.
  destruct (negb (is_nan d) && num_ltb zero d) eqn:Hd; [|exact Hkeep].
  apply andb_true_iff in Hd as [_ Hd]. cbn -[truthy num_ltb]. split_and!; try done.
  - by right.
  - intros _. pose proof (positive_known d Hd) as Hk. simpl in Hk. by rewrite Hk.
Qed.

(** A pointer event leaves the readiness of the player alone. *)
Lemma handlePointer_ready (ev : PointerEvent) (σ : State) :
  playerRef (handlePointer ev σ).1 = playerRef σ ∧
  isPlayerReady (handlePointer ev σ).1 = isPlayerReady σ.
Proof.
  destruct ev as [e|e|e|e]; simpl.
  - unfold handleProgressBarMouseDown. destruct (playerRef σ) eqn:Hp; [|done].
    by destruct (negb (isPlayerReady σ) || no_duration σ).
  - unfold handleProgressBarMouseMove.
    by destruct (negb (isDragging (scrub σ)) || no_duration σ).
  - unfold handleProgressBarMouseUp. destruct (playerRef σ) as [p|] eqn:Hp; [|done].
    destruct (negb (isDragging (scrub σ)) || negb (isPlayerReady σ)); [done|].
    destruct (seek_and_show _ _ _). by simpl.
  - unfold handleProgressBarClick. destruct (isDragging (scrub σ)); [done|].
    destruct (playerRef σ) as [p|] eqn:Hp; [|done].
    destruct (negb (isPlayerReady σ) || no_duration σ); [done|].
    destruct (seek_and_show _ _ _). by simpl.
Qed.

Lemma handlePointer_not_ready (ev : PointerEvent) (σ : State) :
  playerRef σ = None ∨ isPlayerReady σ = false →
  (handlePointer ev σ).2 = [].
Proof.
  intros Hnot. destruct ev as [e|e|e|e]; simpl.
  - unfold handleProgressBarMouseDown. destruct (playerRef σ); [|done].
    by destruct (negb (isPlayerReady σ) || no_duration σ).
  - unfold handleProgressBarMouseMove.
    by destruct (negb (isDragging (scrub σ)) || no_duration σ).
  - unfold handleProgressBarMouseUp. destruct (playerRef σ) as [p|]; [|done].
    destruct Hnot as [? | ->]; [done|]. simpl. by rewrite orb_true_r.
  - unfold handleProgressBarClick. destruct (isDragging (scrub σ)); [done|].
    destruct (playerRef σ) as [p|]; [|done].
    destruct Hnot as [? | ->]; [done|]. done.
Qed.

Lemma interaction_not_ready (evs : list PointerEvent) (σ : State) :
  playerRef σ = None ∨ isPlayerReady σ = false →
  (interaction evs σ).2 = [].
Proof.
  revert σ. induction evs as [|ev rest IH]; intros σ Hnot; [done|]. simpl.
  pose proof (handlePointer_not_ready ev σ Hnot) as Hmade.
  destruct (handlePointer_ready ev σ) as [Hp Hr].
  destruct (handlePointer ev σ) as [σ1 made]. simpl in *. subst made.
  assert (Hnot1 : playerRef σ1 = None ∨ isPlayerReady σ1 = false)
    by (rewrite Hp, Hr; done).
  specialize (IH σ1 Hnot1). by destruct (interaction rest σ1) as [σ2 made'].
Qed.

(** X12.  Nothing talks to a player that is absent or not ready.  When
    the component has no player, or both its ready flag and its ready
    ref are false: every keystroke returns with no call on the player
    and the state unchanged; the play/pause button, the jump button of
    any row and [handleSeek] on any value make no call; every sequence
    of pointer events on the progress bar makes no call; and the poll
    leaves the state as it is. *)
Theorem no_call_before_the_player_is_ready (σ : State) :
  playerRef σ = None ∨ (isPlayerReady σ = false ∧ isPlayerReadyRef σ = false) →
  (∀ e, ∃ prevented,
      handleKeyPress e σ
      = Some {| state := σ; calls := []; defaultPrevented := prevented |}) ∧
  handlePlayPause σ = [] ∧
  (∀ key, jumpButton key σ = []) ∧
  (∀ hotcueValue, handleSeek hotcueValue σ = []) ∧
  (∀ evs, (interaction evs σ).2 = []) ∧
  (∀ getDuration, updateTime getDuration σ = σ).
Proof.
  intros Hnot.
  assert (Hseek : ∀ v, handleSeek v σ = []).
  { intros v. unfold handleSeek. destruct (playerRef σ); [|done].
    destruct Hnot as [?|[-> _]]; done. }
  split_and!.
  - intros e. unfold handleKeyPress.
    destruct (bool_decide (target_tagName e = "INPUT")
              || bool_decide (target_tagName e = "TEXTAREA")); [by eexists|].
    assert (Hnone : (if bool_decide (toLowerCase (ev_key e) ∈ LETTER_KEYS)
                        && isPlayerReadyRef σ then playerRef σ else None) = None).
    { destruct Hnot as [->|[_ ->]]; [by destruct (_ && _)|].
      by rewrite andb_false_r. }
    rewrite Hnone.
    assert (Hmade : match playerRef σ with
                    | Some p => if isPlayerReadyRef σ then (toggle p).1 else []
                    | None => []
                    end = []).
    { destruct Hnot as [->|[_ ->]]; [done|]. by destruct (playerRef σ). }
    rewrite Hmade.
    destruct (bool_decide (ev_code e = "Space") || bool_decide (ev_key e = "k"));
      by eexists.
  - unfold handlePlayPause. destruct (playerRef σ); [|done].
    destruct Hnot as [?|[_ ->]]; done.
  - intros key. unfold jumpButton. by destruct (truthy (row key σ)).
  - done.
  - intros evs. apply interaction_not_ready. destruct Hnot as [?|[? _]]; auto.
  - intros d. unfold updateTime. destruct (playerRef σ); [|done].
    destruct Hnot as [?|[-> _]]; done.
Qed.

(** [q_store] before the player reported ready. *)
Lemma no_call_before_the_player_is_ready_witness :
  let σ := {| cues := cues q_store; flash := flash q_store;
              editor := editor q_store; scrub := scrub q_store;
              saveUi := saveUi q_store; playerRef := playerRef q_store;
              isPlayerReady := false; isPlayerReadyRef := false;
              progressBarRef := progressBarRef q_store |} in
  jumpButton "q" σ = [] ∧
  (interaction [MouseDown mid_track; MouseUp mid_track; Click mid_track] σ).2 = [].
Proof.
  intros σ.
  destruct (no_call_before_the_player_is_ready σ) as (_ & _ & Hjump & _ & Hbar & _).
  - right. split; reflexivity.
  - split; [apply Hjump|apply Hbar].
Defined.

Lemma runListener_bar (e : KeyEvent) (σ : State) :
  progressBarRef (state (runListener e σ)) = progressBarRef σ.
Proof.
  unfold runListener. destruct (handleKeyPress e σ) as [o|] eqn:Hrun; [|done].
  unfold handleKeyPress in Hrun.
  repeat (case_match; simplify_option_eq; try done).
Qed.

(** No step of the component attaches the bar. *)
Lemma step_keeps_bar (σ σ' : State) :
  step σ σ' → progressBarRef σ' = progressBarRef σ.
Proof.
  intros Hstep. destruct Hstep as
    [ev σ|e σ|key σ|key σ σ' H|text σ|key σ σ' H|e key σ σ' b H
    |props username r σ|σ|getDuration σ|x σ σ' H|σ].
  - destruct ev; simpl; try done.
    + unfold handleProgressBarMouseMove. repeat (case_match; simplify_eq; try done).
    + unfold handleProgressBarMouseUp, seek_and_show.
      repeat (case_match; simplify_eq; try done).
  - unfold keystroke. cbn. by rewrite !runListener_bar.
  - unfold clearHotcue, alloc. by cbn.
  - unfold labelClick, handleHotcueLabelClick in H.
    repeat (case_match; simplify_option_eq; try done).
  - done.
  - unfold handleHotcueLabelBlur in H.
    repeat (case_match; simplify_option_eq; try done).
  - unfold handleHotcueLabelKeyDown, handleHotcueLabelBlur in H.
    repeat (case_match; simplify_option_eq; try done).
  - unfold handleSave, handleSave_begin, handleSave_settle.
    repeat (case_match; simplify_eq; try done).
  - done.
  - unfold updateTime. repeat (case_match; simplify_eq; try done).
  - unfold loadInitialHotcues in H.
    repeat (case_match; simplify_option_eq; try done).
  - done.
Qed.

(** X13.  The scrub handlers never see a bar.  [progressBarRef] is
    attached to no element and no step of the component assigns it: in
    every state the component reaches from one in which it is null (as
    at mount) it is null, and [calculateSeekTime] answers 0 for every
    pointer position.  So the scrub handlers, which the rendered
    component binds to nothing, can seek to 0 only: applied as they are
    written in such a state, with a ready player, a known duration and
    no drag in progress, a press and a release call [seekTo(0, true)]
    once, a click calls it once, and a press, a release and the click
    that follows the release call it twice. *)
Theorem scrub_handlers_never_see_a_bar (σ0 σ : State) :
  progressBarRef σ0 = None → reaches σ0 σ →
  progressBarRef σ = None ∧
  (∀ x, calculateSeekTime x σ = zero) ∧
  (∀ p down up click,
     playerRef σ = Some p → isPlayerReady σ = true → no_duration σ = false →
     isDragging (scrub σ) = false →
     seeks (interaction [MouseDown down; MouseUp up] σ).2 = [VNum zero] ∧
     seeks (interaction [Click click] σ).2 = [VNum zero] ∧
     seeks (interaction [MouseDown down; MouseUp up; Click click] σ).2
     = [VNum zero; VNum zero]).
Proof.
  intros Hbar0 Hreach.
  assert (Hbar : progressBarRef σ = None).
  { induction Hreach as [|σ1 σ2 σ3 Hstep _ IH]; [done|].
    apply IH. by rewrite (step_keeps_bar _ _ Hstep). }
  split; [done|]. split.
  { intros x. unfold calculateSeekTime. by rewrite Hbar. }
  intros p down up click Hp Hready Hdur Hidle.
  unfold no_duration in Hdur.
  unfold interaction, handlePointer, handleProgressBarMouseDown,
    handleProgressBarMouseUp, handleProgressBarClick, seek_and_show, seekTo,
    command, calculateSeekTime, no_duration.
  destruct (seekTo_returns p) eqn:Hs;
    repeat (progress (cbn -[truthy];
                      rewrite ?Hp, ?Hready, ?Hdur, ?Hidle, ?Hbar, ?Hs));
    by split_and!.
Qed.

Lemma scrub_handlers_never_see_a_bar_witness :
  calculateSeekTime (clientX mid_track)
    (state (keystroke (keydown "w" "KeyW") q_store)) = zero ∧
  seeks (interaction [MouseDown mid_track; MouseUp mid_track; Click mid_track]
           (state (keystroke (keydown "w" "KeyW") q_store))).2
  = [VNum zero; VNum zero].
Proof.
  destruct (scrub_handlers_never_see_a_bar q_store
              (state (keystroke (keydown "w" "KeyW") q_store)) eq_refl)
    as (_ & Hcalc & Hseeks).
  - apply rtc_once. apply step_keystroke.
  - split; [apply Hcalc|].
    destruct (Hseeks (responsive (VNum t7_25) PAUSED) mid_track mid_track mid_track)
      as (_ & _ & Htwice); [vm_compute; reflexivity..|exact Htwice].
Defined.

(** * Video ids *)

Lemma append_assoc (a b c : string) : (a +:+ b) +:+ c = a +:+ (b +:+ c).
Proof.
  induction a as [|x a IH]; [done|].
  change (String x ((a +:+ b) +:+ c) = String x (a +:+ (b +:+ c))).
  by rewrite IH.
Qed.

Lemma append_empty_r (a : string) : a +:+ "" = a.
Proof.
  induction a as [|x a IH]; [done|].
  change (String x (a +:+ "") = String x a). by rewrite IH.
Qed.

Lemma all_chars_impl (f g : ascii → bool) (s : string) :
  (∀ c, f c = true → g c = true) → all_chars f s = true → all_chars g s = true.
Proof.
  intros Hfg. induction s as [|c s IH]; [done|]. simpl.
  intros [Hc Hs]%andb_true_iff. by rewrite (Hfg c Hc), IH.
Qed.

Lemma id_char_facts (c : ascii) :
  is_id_char c = true → is_separator c = false ∧ is_space c = false.
Proof. by destruct c as [[] [] [] [] [] [] [] []]. Qed.

Lemma strip_Some (p s r : string) : strip p s = Some r → s = p +:+ r.
Proof.
  revert s. induction p as [|a p IH]; intros s; simpl.
  - by intros [= ->].
  - destruct s as [|b s]; [done|]. case_bool_decide as Hab; [|done].
    subst. intros H. by rewrite (IH s H).
Qed.

Lemma strip_append (p r : string) : strip p (p +:+ r) = Some r.
Proof.
  induction p as [|a p IH]; [done|]. simpl. by rewrite bool_decide_eq_true_2.
Qed.

Lemma capture_no_separator (r : string) : no_separator (capture r) = true.
Proof.
  unfold no_separator. induction r as [|c r IH]; [done|]. simpl.
  destruct (is_separator c) eqn:Hc; [done|]. simpl. by rewrite Hc.
Qed.

Lemma capture_prefix (r : string) : startsWith (capture r) r = true.
Proof.
  induction r as [|c r IH]; [done|]. simpl.
  destruct (is_separator c); [done|]. simpl. by rewrite bool_decide_eq_true_2.
Qed.

Lemma capture_app (id rest : string) :
  no_separator id = true → ends_id rest = true → capture (id +:+ rest) = id.
Proof.
  unfold no_separator. intros Hid Hrest. induction id as [|c id IH]; simpl.
  - destruct rest as [|c r]; [done|]. simpl in *. by rewrite Hrest.
  - simpl in Hid. apply andb_true_iff in Hid as [Hc Hid].
    apply negb_true_iff in Hc. rewrite Hc. by rewrite IH.
Qed.

Lemma capture_nonempty (r : string) :
  capture r ≠ "" ↔ ∃ c b, r = String c b ∧ is_separator c = false.
Proof.
  destruct r as [|c b]; simpl.
  - split; [done|]. by intros (? & ? & ? & ?).
  - destruct (is_separator c) eqn:Hc.
    + split; [done|]. intros (? & ? & [= -> ->] & ?). congruence.
    + split; [|done]. intros _. by exists c, b.
Qed.

Lemma includes_startsWith (p s : string) :
  startsWith p s = true → includes p s = true.
Proof. intros H. destruct s; simpl; by rewrite H. Qed.

(** A match of the first pattern at the start of [s]. *)
Lemma match_here_Some (paths : list string) (s id : string) :
  match_here paths s = Some id →
  ∃ p r, p ∈ paths ∧ s = p +:+ r ∧ id = capture r ∧ id ≠ "".
Proof.
  induction paths as [|p paths IH]; [done|]. simpl.
  destruct (strip p s) as [r|] eqn:Hstrip.
  - case_bool_decide as Hcap.
    + intros H. destruct (IH H) as (p' & r' & Hin & ? & ? & ?).
      exists p', r'. split; [by apply list_elem_of_further|done].
    + intros [= <-]. exists p, r. split; [by apply list_elem_of_here|].
      by rewrite (strip_Some _ _ _ Hstrip).
  - intros H. destruct (IH H) as (p' & r' & Hin & ? & ? & ?).
    exists p', r'. split; [by apply list_elem_of_further|done].
Qed.

Lemma match_here_is_Some (paths : list string) (p r : string) :
  p ∈ paths → capture r ≠ "" → is_Some (match_here paths (p +:+ r)).
Proof.
  intros Hin Hcap. induction paths as [|q paths IH]; [by apply elem_of_nil in Hin|].
  simpl. destruct (strip q (p +:+ r)) as [r'|] eqn:Hstrip.
  - case_bool_decide as Hcap'; [|by eexists].
    apply elem_of_cons in Hin as [->|Hin]; [|by apply IH].
    rewrite strip_append in Hstrip. injection Hstrip as <-. done.
  - apply elem_of_cons in Hin as [->|Hin]; [|by apply IH].
    by rewrite strip_append in Hstrip.
Qed.

(** The leftmost match of the first pattern in [s]. *)
Lemma match_url_Some (s id : string) :
  match_url s = Some id →
  ∃ a p r, p ∈ url_paths ∧ s = a +:+ p +:+ r ∧ id = capture r ∧ id ≠ "".
Proof.
  induction s as [|c s IH].
  - by simpl.
  - cbn -[match_here url_paths].
    destruct (match_here url_paths (String c s)) as [x|] eqn:Hm.
    + intros [= ->]. destruct (match_here_Some _ _ _ Hm) as (p & r & ? & ? & ? & ?).
      by exists "", p, r.
    + intros H. destruct (IH H) as (a & p & r & ? & -> & ? & ?).
      by exists (String c a), p, r.
Qed.

Lemma match_url_is_Some (a p r : string) :
  p ∈ url_paths → capture r ≠ "" → is_Some (match_url (a +:+ p +:+ r)).
Proof.
  intros Hin Hcap. induction a as [|c a IH].
  - change ("" +:+ p +:+ r) with (p +:+ r).
    destruct (match_here_is_Some url_paths p r Hin Hcap) as [x Hx].
    destruct (p +:+ r); cbn -[match_here url_paths]; rewrite Hx; by eexists.
  - change (String c a +:+ p +:+ r) with (String c (a +:+ p +:+ r)).
    cbn -[match_here url_paths].
    by destruct (match_here url_paths (String c (a +:+ p +:+ r))); [eexists|].
Qed.

Lemma match_url_skip (a s : string) :
  no_y a = true → match_url (a +:+ s) = match_url s.
Proof.
  unfold no_y. induction a as [|c a IH]; [done|]. simpl.
  intros [Hc Ha]%andb_true_iff. apply negb_true_iff, bool_decide_eq_false in Hc.
  rewrite !(bool_decide_eq_false_2 ("y"%char = c)) by done. by apply IH.
Qed.

Lemma match_here_path (p id rest : string) :
  p ∈ url_paths → id ≠ "" → no_separator id = true → ends_id rest = true →
  match_here url_paths (p +:+ id +:+ rest) = Some id.
Proof.
  intros Hin Hne Hid Hrest. pose proof (capture_app id rest Hid Hrest) as Hcap.
  unfold url_paths in Hin.
  repeat (apply elem_of_cons in Hin as [->|Hin]);
    [..|by apply elem_of_nil in Hin];
    unfold url_paths, match_here;
    repeat match goal with
           | |- context [strip ?q (?q +:+ ?r)] =>
               rewrite (strip_append q r), Hcap, (bool_decide_eq_false_2 _ Hne)
           | |- context [strip ?q (?p +:+ ?r)] =>
               let E := fresh in
               destruct (strip q (p +:+ r)) eqn:E;
               [apply strip_Some in E; vm_compute in E; discriminate E|]
           end;
    done.
Qed.

Lemma match_url_path (p id rest : string) :
  p ∈ url_paths → id ≠ "" → no_separator id = true → ends_id rest = true →
  match_url (p +:+ id +:+ rest) = Some id.
Proof.
  intros Hin Hne Hid Hrest.
  pose proof (match_here_path p id rest Hin Hne Hid Hrest) as Hm.
  destruct (p +:+ id +:+ rest); cbn -[match_here url_paths]; by rewrite Hm.
Qed.

Lemma match_here_token (s : string) :
  all_chars is_id_char s = true → match_here url_paths s = None.
Proof.
  intros Hs. unfold url_paths, match_here.
  repeat match goal with
         | |- context [strip ?p s] =>
             let E := fresh in
             destruct (strip p s) eqn:E;
             [apply strip_Some in E; rewrite E in Hs; by vm_compute in Hs|]
         end.
  done.
Qed.

Lemma match_url_token (s : string) :
  all_chars is_id_char s = true → match_url s = None.
Proof.
  induction s as [|c s IH]; intros Hs.
  - done.
  - cbn -[match_here url_paths]. rewrite (match_here_token _ Hs).
    apply IH. simpl in Hs. by apply andb_true_iff in Hs as [_ ?].
Qed.

(** Trimming around a text that begins and ends with characters that are
    no white space. *)
Lemma trimStart_app (a s : string) c :
  is_space c = false →
  ∃ a', trimStart (a +:+ String c s) = a' +:+ String c s ∧
        ∀ f, all_chars f a = true → all_chars f a' = true.
Proof.
  intros Hc. induction a as [|d a IH]; simpl.
  - rewrite Hc. by exists "".
  - destruct (is_space d).
    + destruct IH as (a' & -> & Hf). exists a'. split; [done|].
      intros f [_ ?]%andb_true_iff. by apply Hf.
    + by exists (String d a).
Qed.

Lemma trimEnd_app (a b : string) :
  trimEnd b ≠ "" → trimEnd (a +:+ b) = a +:+ trimEnd b.
Proof.
  intros Hb. induction a as [|c a IH]; [done|]. simpl. rewrite IH.
  rewrite (bool_decide_eq_false_2 (a +:+ trimEnd b = "")).
  - by rewrite andb_false_r.
  - destruct a; [done|]. simpl. done.
Qed.

Lemma trimEnd_ends_id (rest : string) : ends_id rest = true → ends_id (trimEnd rest) = true.
Proof.
  destruct rest as [|c r]; [done|]. simpl. intros Hc.
  by destruct (is_space c && bool_decide (trimEnd r = "")).
Qed.

Lemma trimEnd_token (id rest : string) :
  all_chars (λ c, negb (is_space c)) id = true →
  id ≠ "" → trimEnd (id +:+ rest) = id +:+ trimEnd rest.
Proof.
  induction id as [|c id IH]; [done|]. simpl.
  intros [Hc Hid]%andb_true_iff _. apply negb_true_iff in Hc. rewrite Hc. simpl.
  destruct id as [|d id]; [done|]. by rewrite IH.
Qed.

Lemma trim_token (s : string) :
  all_chars (λ c, negb (is_space c)) s = true → trim s = s.
Proof.
  intros Hs. unfold trim. destruct s as [|c s]; [done|].
  pose proof Hs as Hs'. simpl in Hs'. apply andb_true_iff in Hs' as [Hc _].
  apply negb_true_iff in Hc. simpl. rewrite Hc.
  rewrite <- (append_empty_r (String c s)) at 1.
  rewrite trimEnd_token by done. simpl. by rewrite append_empty_r.
Qed.

Lemma path_head (p : string) :
  p ∈ url_paths → ∃ p', p = String "y" p'.
Proof.
  unfold url_paths. intros Hin.
  repeat (apply elem_of_cons in Hin as [->|Hin]); [..|by apply elem_of_nil in Hin];
    by eexists.
Qed.

Lemma extractYouTubeVideoId_Some (url : JsVal) (id : string) :
  extractYouTubeVideoId url = Some id →
  ∃ s, url = VStr s ∧ id ≠ "" ∧ no_separator id = true ∧
       includes id (trim s) = true.
Proof.
  unfold extractYouTubeVideoId.
  destruct url as [| |b|x|s|l]; cbn -[trim match_url]; rewrite ?orb_true_r;
    try done.
  destruct (negb (bool_decide (s = "")) ) eqn:Hs; [|done]. cbn -[trim match_url].
  intros H. exists s. split; [done|].
  destruct (match_url (trim s)) as [x|] eqn:Hm; simpl in H.
  - destruct (match_url_Some _ _ Hm) as (a & p & r & _ & Hu & Hx & Hne).
    rewrite (bool_decide_eq_false_2 _ Hne) in H. injection H as <-.
    split; [done|]. split; [subst x; apply capture_no_separator|].
    rewrite Hu. apply includes_append_l, includes_append_l.
    subst x. apply includes_startsWith, capture_prefix.
  - destruct (is_direct_id (trim s)) eqn:Hd; [|done]. simpl in H.
    case_bool_decide as Hne; [done|]. injection H as <-.
    split; [done|]. split; [|apply includes_refl].
    unfold is_direct_id in Hd. apply andb_true_iff in Hd as [_ Hd].
    unfold no_separator. apply (all_chars_impl is_id_char); [|done].
    intros c Hc. by rewrite (proj1 (id_char_facts c Hc)).
Qed.

(** X14.  What [extractYouTubeVideoId] returns is a piece of the URL.
    Whenever it returns an id, the argument is a string, the id is not
    empty, holds none of the characters & ? # and line feed, and occurs
    in the trimmed argument.  So it returns null for every argument that
    is not a string. *)
Theorem extracted_id_is_part_of_the_url (url : JsVal) (id : string) :
  extractYouTubeVideoId url = Some id →
  ∃ s, url = VStr s ∧ id ≠ "" ∧ no_separator id = true ∧
       includes id (trim s) = true.
Proof. exact (extractYouTubeVideoId_Some url id). Qed.

Lemma extracted_id_is_part_of_the_url_witness :
  extractYouTubeVideoId (VStr "  https://youtu.be/dQw4w9WgXcQ?t=42 ")
  = Some "dQw4w9WgXcQ"
  ∧ includes "dQw4w9WgXcQ" (trim "  https://youtu.be/dQw4w9WgXcQ?t=42 ") = true.
Proof.
  assert (H : extractYouTubeVideoId (VStr "  https://youtu.be/dQw4w9WgXcQ?t=42 ")
              = Some "dQw4w9WgXcQ") by (vm_compute; reflexivity).
  split; [exact H|].
  destruct (extracted_id_is_part_of_the_url _ _ H) as (s & Hs & _ & _ & Hin).
  injection Hs as <-. exact Hin.
Defined.

(** X15.  The usual URL shapes give back their id.  For every id made
    of letters, digits, [_] and [-] (and not empty), every one of the
    four paths (watch?v=, youtu.be/, embed/, v/), every text before the
    path that holds no y (a scheme and host prefix such as
    [https://www.], white space included), and every continuation that
    is empty or begins with & ? # or a line feed:
    [extractYouTubeVideoId] returns exactly the id. *)
Theorem standard_urls_give_their_id (pre p id rest : string) :
  no_y pre = true → p ∈ url_paths →
  id ≠ "" → all_chars is_id_char id = true → ends_id rest = true →
  extractYouTubeVideoId (VStr (pre +:+ p +:+ id +:+ rest)) = Some id.
Proof.
  intros Hpre Hp Hne Hid Hrest.
  destruct (path_head p Hp) as (p' & Hp').
  assert (Hsep : no_separator id = true).
  { apply (all_chars_impl is_id_char); [|done].
    intros c Hc. by rewrite (proj1 (id_char_facts c Hc)). }
  assert (Hspace : all_chars (λ c, negb (is_space c)) id = true).
  { apply (all_chars_impl is_id_char); [|done].
    intros c Hc. by rewrite (proj2 (id_char_facts c Hc)). }
  assert (Htrim : ∃ pre', trim (pre +:+ p +:+ id +:+ rest)
                          = pre' +:+ p +:+ id +:+ trimEnd rest
                          ∧ no_y pre' = true).
  { unfold trim. rewrite Hp'.
    change (String "y" p' +:+ id +:+ rest) with (String "y" (p' +:+ id +:+ rest)).
    destruct (trimStart_app pre (p' +:+ id +:+ rest) "y" eq_refl) as (pre' & -> & Hf).
    exists pre'. split; [|by apply Hf].
    change (String "y" (p' +:+ id +:+ rest)) with (String "y" p' +:+ id +:+ rest).
    rewrite <- !append_assoc. rewrite (append_assoc _ id rest).
    assert (Hend : trimEnd (id +:+ rest) = id +:+ trimEnd rest)
      by (by apply trimEnd_token).
    rewrite trimEnd_app.
    - rewrite Hend. by rewrite !append_assoc.
    - rewrite Hend. by destruct id. }
  destruct Htrim as (pre' & Htrim & Hpre').
  unfold extractYouTubeVideoId.
  assert (Hnonempty : pre +:+ p +:+ id +:+ rest ≠ "").
  { intros Heq. rewrite Heq in Htrim. rewrite Hp' in Htrim.
    by destruct pre'. }
  cbn -[trim match_url]. rewrite (bool_decide_eq_false_2 _ Hnonempty).
  cbn -[trim match_url]. rewrite Htrim, (match_url_skip _ _ Hpre').
  rewrite match_url_path; try done; [|by apply trimEnd_ends_id].
  simpl. by rewrite bool_decide_eq_false_2.
Qed.

Lemma watch_is_path : "youtube.com/watch?v=" ∈ url_paths.
Proof. apply (bool_decide_eq_true_1 _). vm_compute. reflexivity. Qed.

Lemma standard_urls_give_their_id_witness :
  extractYouTubeVideoId (VStr "https://www.youtube.com/watch?v=dQw4w9WgXcQ&t=42s")
  = Some "dQw4w9WgXcQ".
Proof.
  apply (standard_urls_give_their_id "https://www." "youtube.com/watch?v="
           "dQw4w9WgXcQ" "&t=42s").
  - reflexivity.
  - exact watch_is_path.
  - discriminate.
  - reflexivity.
  - reflexivity.
Defined.

(** X16.  A bare token is an id exactly when it has 11 characters.  For
    every text made of letters, digits, [_] and [-] only,
    [extractYouTubeVideoId] returns the text itself when its length is
    11, and null for every other length. *)
Theorem bare_token_is_an_id_iff_11_long (s : string) :
  all_chars is_id_char s = true →
  extractYouTubeVideoId (VStr s)
  = if (String.length s =? 11)%nat then Some s else None.
Proof.
  intros Hs.
  assert (Htrim : trim s = s).
  { apply trim_token. apply (all_chars_impl is_id_char); [|done].
    intros c Hc. by rewrite (proj2 (id_char_facts c Hc)). }
  unfold extractYouTubeVideoId. cbn -[trim match_url].
  case_bool_decide as He; [by subst|]. cbn -[trim match_url].
  rewrite Htrim, (match_url_token _ Hs). simpl.
  unfold is_direct_id. rewrite Hs, andb_true_r.
  destruct (String.length s =? 11)%nat; [|done]. simpl.
  by rewrite bool_decide_eq_false_2.
Qed.

Lemma bare_token_is_an_id_iff_11_long_witness :
  extractYouTubeVideoId (VStr "dQw4w9WgXcQ") = Some "dQw4w9WgXcQ"
  ∧ extractYouTubeVideoId (VStr "dQw4w9WgXcQ0") = None.
Proof.
  split.
  - apply (bare_token_is_an_id_iff_11_long "dQw4w9WgXcQ"). reflexivity.
  - apply (bare_token_is_an_id_iff_11_long "dQw4w9WgXcQ0"). reflexivity.
Defined.

(** X17.  What [isValidYouTubeUrl] accepts.  A text is accepted if and
    only if, once trimmed, it contains one of the four paths followed by
    a character other than & ? # and line feed, wherever that is in the
    text and whatever surrounds it, or is a bare 11 character token of
    letters, digits, [_] and [-].  Neither the scheme nor the host is
    looked at, nor the shape of the id after a path. *)
Theorem valid_urls_contain_a_path (s : string) :
  isValidYouTubeUrl (VStr s) = true ↔
  (∃ a p c b, trim s = a +:+ p +:+ String c b ∧ p ∈ url_paths ∧
              is_separator c = false)
  ∨ is_direct_id (trim s) = true.
Proof.
  unfold isValidYouTubeUrl. rewrite bool_decide_eq_true. split.
  - intros H. destruct (extractYouTubeVideoId (VStr s)) as [id|] eqn:He; [|done].
    clear H. unfold extractYouTubeVideoId in He. cbn -[trim match_url] in He.
    destruct (negb (bool_decide (s = ""))); [|done]. cbn -[trim match_url] in He.
    destruct (match_url (trim s)) as [x|] eqn:Hm.
    + left. destruct (match_url_Some _ _ Hm) as (a & p & r & Hp & Hu & Hx & Hne).
      subst x. apply capture_nonempty in Hne as (c & b & -> & Hc).
      by exists a, p, c, b.
    + right. simpl in He. by destruct (is_direct_id (trim s)).
  - assert (Hs : trim s ≠ "" → s ≠ "") by (by intros Ht ->).
    intros [(a & p & c & b & Hu & Hp & Hc)|Hd].
    + assert (Hcap : capture (String c b) ≠ "").
      { apply capture_nonempty. by exists c, b. }
      destruct (match_url_is_Some a p (String c b) Hp Hcap) as [id Hid].
      rewrite <- Hu in Hid.
      destruct (match_url_Some _ _ Hid) as (_ & _ & _ & _ & _ & _ & Hne).
      unfold extractYouTubeVideoId. cbn -[trim match_url].
      rewrite bool_decide_eq_false_2.
      * cbn -[trim match_url]. rewrite Hid. simpl.
        by rewrite bool_decide_eq_false_2.
      * apply Hs. rewrite Hu. destruct (path_head p Hp) as (p' & ->).
        by destruct a.
    + assert (Hne : trim s ≠ "").
      { intros Heq. rewrite Heq in Hd. done. }
      unfold extractYouTubeVideoId. cbn -[trim match_url].
      rewrite (bool_decide_eq_false_2 _ (Hs Hne)). cbn -[trim match_url].
      destruct (match_url (trim s)) as [x|] eqn:Hm.
      * destruct (match_url_Some _ _ Hm) as (_ & _ & _ & _ & _ & _ & Hx).
        simpl. by rewrite bool_decide_eq_false_2.
      * simpl. rewrite Hd. simpl. by rewrite bool_decide_eq_false_2.
Qed.

(** * The page around the player *)

(** X18.  A video submitted through the URL form can always be saved.
    Whenever [handleSubmit] hands a video to the page, the id is not
    empty and occurs in the URL handed over, which is the trimmed text of
    the field and not empty; when the player reports no unsaved changes
    (or there is none) the page shows that video, and a save by a
    logged-in user is then never refused for missing data: the request
    is sent. *)
Theorem submitted_video_can_be_saved (url id u : string) (player : option State)
    (app : MainApp) :
  handleSubmit url = Submitted id u →
  playerHasUnsavedChanges player = Some false →
  id ≠ "" ∧ u = trim url ∧ u ≠ "" ∧ includes id u = true ∧
  ∃ app', handleVideoSubmit id u player app = Some app' ∧
          app_videoId app' = Some id ∧ app_youtubeUrl app' = Some u ∧
          ∀ username σ, present username = true →
            (handleSave_begin (props_of app') username σ).2 = true.
Proof.
  unfold handleSubmit. intros Hsub Hclean.
  case_bool_decide as Hblank; [done|].
  destruct (extractYouTubeVideoId (VStr url)) as [x|] eqn:Hex; [|done].
  case_bool_decide as Hne; [done|]. injection Hsub as -> <-.
  destruct (extractYouTubeVideoId_Some _ _ Hex) as (s & [= <-] & _ & _ & Hin).
  split_and!; try done.
  unfold handleVideoSubmit. rewrite Hclean. simpl. eexists. split; [done|].
  split; [done|]. split; [done|]. intros username σ Hu.
  unfold handleSave_begin, props_of. simpl.
  rewrite !bool_decide_eq_false_2 by done. simpl. by rewrite Hu.
Qed.

Lemma submitted_video_can_be_saved_witness :
  handleSubmit " https://youtu.be/dQw4w9WgXcQ "
  = Submitted "dQw4w9WgXcQ" "https://youtu.be/dQw4w9WgXcQ"
  ∧ ∃ app', handleVideoSubmit "dQw4w9WgXcQ" "https://youtu.be/dQw4w9WgXcQ"
              None no_video = Some app' ∧
            (handleSave_begin (props_of app') (Some "ann") q_store).2 = true.
Proof.
  assert (H : handleSubmit " https://youtu.be/dQw4w9WgXcQ "
              = Submitted "dQw4w9WgXcQ" "https://youtu.be/dQw4w9WgXcQ")
    by (vm_compute; reflexivity).
  split; [exact H|].
  destruct (submitted_video_can_be_saved _ _ _ None no_video H eq_refl)
    as (_ & _ & _ & _ & app' & Hrun & _ & _ & Hsave).
  exists app'. split; [exact Hrun|]. apply Hsave. reflexivity.
Defined.

(** X19.  Leaving a video is guarded by the dirty check, except when the
    same video is selected again.  With a player in a well-formed state,
    selecting another video, clearing the selection and submitting a URL
    all return; [hasUnsavedChanges()] is true exactly when the live set
    differs from the snapshot, and then each of the three keeps the
    video and the hotcues shown, opens the modal and records what was
    asked for; otherwise each shows what was asked for and opens no
    modal.  Selecting the video that is already shown never consults the
    player: it is shown again, with the hotcues of the list, whatever
    the state of the player. *)
Theorem leaving_is_guarded_by_the_dirty_check (σ : State) (app : MainApp) :
  well_formed_state σ →
  ∃ b, hasUnsavedChanges σ = Some b ∧ (b = true ↔ differs (live σ) (saved σ)) ∧
    (∀ v, Some (video_videoId v) ≠ app_videoId app →
       ∃ app', handleVideoSelect (Some v) (Some σ) app = Some app' ∧
         if b then same_video app' app ∧ showUnsavedModal app' = true ∧
                   pendingVideo app' = Some v ∧ pendingAction app' = Some ActSelect
         else shows v app' ∧ showUnsavedModal app' = showUnsavedModal app) ∧
    (∃ app', handleVideoSelect None (Some σ) app = Some app' ∧
       if b then same_video app' app ∧ showUnsavedModal app' = true ∧
                 pendingVideo app' = None ∧ pendingAction app' = Some ActSelect
       else app_videoId app' = None ∧ showUnsavedModal app' = showUnsavedModal app) ∧
    (∀ id url,
       ∃ app', handleVideoSubmit id url (Some σ) app = Some app' ∧
         if b then same_video app' app ∧ showUnsavedModal app' = true ∧
                   (video_videoId <$> pendingVideo app') = Some id ∧
                   pendingAction app' = Some ActNavigate
         else app_videoId app' = Some id ∧ app_youtubeUrl app' = Some url ∧
              showUnsavedModal app' = showUnsavedModal app) ∧
    (∀ v player, Some (video_videoId v) = app_videoId app →
       ∃ app', handleVideoSelect (Some v) player app = Some app' ∧
               shows v app' ∧ showUnsavedModal app' = showUnsavedModal app ∧
               app_hotcues app' = hotcues_or_empty (video_hotcues v)).
Proof.
  intros (_ & Hcur & Hinit & _).
  destruct (hasUnsavedChanges_spec σ Hcur Hinit) as (b & Hb & Hiff).
  exists b. split; [done|]. split; [done|]. split_and!.
  - intros v Hv. unfold handleVideoSelect.
    rewrite (bool_decide_eq_true_2 _ Hv). simpl. rewrite Hb. simpl.
    destruct b; by eexists.
  - unfold handleVideoSelect. simpl. rewrite Hb. simpl. destruct b; by eexists.
  - intros id url. unfold handleVideoSubmit. simpl. rewrite Hb. simpl.
    destruct b; by eexists.
  - intros v player Hv. unfold handleVideoSelect.
    rewrite bool_decide_eq_false_2 by (by intros ?). simpl. by eexists.
Qed.

Lemma q_store_edited_well_formed : well_formed_state q_store_edited.
Proof.
  unfold well_formed_state.
  split_and!; try (apply structured_by_computation; vm_compute; reflexivity).
  vm_compute. reflexivity.
Qed.

Lemma q_store_edited_dirty : hasUnsavedChanges q_store_edited = Some true.
Proof. vm_compute. reflexivity. Qed.

Lemma leaving_is_guarded_by_the_dirty_check_witness :
  ∃ app', handleVideoSelect (Some other_video) (Some q_store_edited)
            (showing some_video) = Some app' ∧
          same_video app' (showing some_video) ∧ showUnsavedModal app' = true.
Proof.
  destruct (leaving_is_guarded_by_the_dirty_check q_store_edited (showing some_video)
              q_store_edited_well_formed) as (b & Hb & _ & Hsel & _).
  rewrite q_store_edited_dirty in Hb. injection Hb as <-.
  destruct (Hsel other_video) as (app' & Hrun & Hsame & Hmodal & _).
  - discriminate.
  - exists app'. split; [exact Hrun|]. split; [exact Hsame|exact Hmodal].
Defined.

(** The dirty check reads the hotcue part of the state only. *)
Lemma hasUnsavedChanges_cues (σ σ' : State) :
  cues σ' = cues σ → hasUnsavedChanges σ' = hasUnsavedChanges σ.
Proof. intros H. unfold hasUnsavedChanges. by rewrite H. Qed.

(** X20.  The Save button of the modal switches videos even when the
    save failed.  With a player mounted and a pending video, choosing
    Save runs the player's save and then, however the request settled
    and even when no request was sent, closes the modal, forgets the
    pending action and shows the pending video; when the save did not
    succeed the hotcue sets of the player being left are as before, so
    its unsaved changes are still unsaved. *)
Theorem modal_save_switches_even_when_the_save_failed (username : option string)
    (r : Settled) (σ : State) (app : MainApp) (v : Video) (action : PendingAction) :
  pendingVideo app = Some v → pendingAction app = Some action →
  ∃ app' σ',
    handleUnsavedModalSave username r (Some σ) app = (app', Some σ') ∧
    shows v app' ∧ showUnsavedModal app' = false ∧
    pendingVideo app' = None ∧ pendingAction app' = None ∧
    (save_succeeds (props_of app) username r = false →
     cues σ' = cues σ ∧ hasUnsavedChanges σ' = hasUnsavedChanges σ).
Proof.
  intros Hv Ha. unfold handleUnsavedModalSave. eexists _, _. split; [done|].
  unfold proceed, shows. rewrite Hv, Ha.
  split_and!; try (by destruct action).
  intros Hfail. pose proof (handleSave_failure _ _ _ σ Hfail) as Hcues.
  split; [done|]. by apply hasUnsavedChanges_cues.
Qed.

Lemma modal_save_switches_even_when_the_save_failed_witness :
  ∃ app1 app' σ',
    handleVideoSelect (Some other_video) (Some q_store_edited) (showing some_video)
    = Some app1 ∧
    handleUnsavedModalSave (Some "ann") (Rejected invalid_data)
      (Some q_store_edited) app1 = (app', Some σ') ∧
    shows other_video app' ∧ hasUnsavedChanges σ' = Some true.
Proof.
  eexists.
  destruct (modal_save_switches_even_when_the_save_failed (Some "ann")
              (Rejected invalid_data) q_store_edited
              (ask (Some other_video) ActSelect (showing some_video))
              other_video ActSelect eq_refl eq_refl)
    as (app' & σ' & Hrun & Hshows & _ & _ & _ & Hkeep).
  exists app', σ'. split; [reflexivity|]. split; [exact Hrun|].
  split; [exact Hshows|].
  destruct (Hkeep eq_refl) as [_ ->]. exact q_store_edited_dirty.
Defined.

(** X21.  A deselection asked for while there are unsaved changes never
    happens.  When the player reports unsaved changes, clearing the
    selection only opens the modal; from there Save (however the save
    goes) leaves the page exactly as Cancel does: the modal closed, the
    pending action forgotten, and the same video still shown. *)
Theorem pending_deselect_is_never_carried_out (username : option string)
    (r : Settled) (σ : State) (app : MainApp) :
  hasUnsavedChanges σ = Some true →
  ∃ app1,
    handleVideoSelect None (Some σ) app = Some app1 ∧
    showUnsavedModal app1 = true ∧
    (handleUnsavedModalSave username r (Some σ) app1).1
    = handleUnsavedModalCancel app1 ∧
    same_video (handleUnsavedModalCancel app1) app ∧
    showUnsavedModal (handleUnsavedModalCancel app1) = false.
Proof.
  intros Hdirty. unfold handleVideoSelect. simpl. rewrite Hdirty. simpl.
  eexists. split; [done|]. by split_and!.
Qed.

Lemma pending_deselect_is_never_carried_out_witness :
  ∃ app1,
    handleVideoSelect None (Some q_store_edited) (showing some_video) = Some app1 ∧
    app_videoId (handleUnsavedModalSave (Some "ann") (Fulfilled None)
                   (Some q_store_edited) app1).1
    = Some "dQw4w9WgXcQ".
Proof.
  destruct (pending_deselect_is_never_carried_out (Some "ann") (Fulfilled None)
              q_store_edited (showing some_video) q_store_edited_dirty)
    as (app1 & Hrun & _ & Hsave & (Hid & _) & _).
  exists app1. split; [exact Hrun|]. rewrite Hsave, Hid. reflexivity.
Defined.

(** * Normalisation copies *)

(** The object built by [normalizeHotcues] and the entries stored in it
    are all allocated by the call. *)
Lemma normalizeHotcues_fresh (h : Heap) (x : JsVal) :
  closed h x →
  ∃ h' acc, normalizeHotcues x h = Some (VRef (length h), h') ∧
            h `prefix_of` h' ∧
            h' !! length h = Some acc ∧
            map_Forall (λ _ v, ∃ e, v = VRef e ∧ length h < e < length h') acc.
Proof.
  intros Hc. unfold normalizeHotcues.
  destruct (truthy x) eqn:Hx; simpl.
  - destruct (normalizeLoop_spec h x (length h) (object_keys h x) Hx Hc _
                (loop_inv_init h))
      as (h2 & Hrun & (Hp & _ & acc & Hacc & _ & Hall) & _).
    rewrite Hrun. simpl. by exists h2, acc.
  - exists (h ++ [∅]), ∅. split; [done|]. split; [by apply prefix_app_r|].
    split; [|apply map_Forall_empty].
    by rewrite lookup_app_r, Nat.sub_diag by lia.
Qed.

Lemma named_heap_closed : closed named_heap (VRef 0).
Proof.
  split; [reflexivity|]. apply (bool_decide_eq_true_1 _). vm_compute. reflexivity.
Defined.

(** X22.  [normalizeHotcues] copies the mapping and its entries, and no
    more than that.  On every input without dangling references it
    returns a new object whose entries are new objects, and leaves every
    object that existed before, the argument and its entries among them,
    as it was; so a later write performed in place on the raw mapping or
    on one of its entries does not change which entries the normalized
    set has nor the fields of any of them.  The name of a normalized
    entry is the very value found in the raw entry ([value.name || '']):
    a name that is an object is not copied, the raw entry and the
    normalized one refer to the same object. *)
Theorem normalizeHotcues_copies_mapping_and_entries (h : Heap) (x : JsVal) :
  closed h x →
  ∃ r h', normalizeHotcues x h = Some (r, h') ∧
          h `prefix_of` h' ∧ view h' x = view h x ∧
          valid_ref h r = false ∧
          map_Forall (λ _ e, is_ref e = true ∧ valid_ref h e = false) (obj_of h' r) ∧
          (∀ target k v, valid_ref h target = true →
                         view (set_prop target k v h') r = view h' r) ∧
          (∀ key value n, key ≠ "__proto__" → obj_of h x !! key = Some value →
             is_object value = true → is_number (prop h value "time") = true →
             prop h value "name" = n → truthy n = true →
             ∃ e, obj_of h' r !! key = Some e ∧ prop h' e "name" = n).
Proof.
  intros Hc. destruct (normalizeHotcues_fresh h x Hc) as (h' & acc & Hrun & Hp & Hacc & Hall).
  destruct (normalizeHotcues_spec h x Hc) as (r2 & h2 & Hrun2 & _ & _ & Hview).
  rewrite Hrun in Hrun2. injection Hrun2 as <- <-.
  exists (VRef (length h)), h'. split; [done|]. split; [done|].
  split; [by apply view_prefix|]. split.
  { simpl. apply bool_decide_eq_false. lia. }
  assert (Hobj : obj_of h' (VRef (length h)) = acc).
  { unfold obj_of. by rewrite Hacc. }
  split.
  { rewrite Hobj. intros k v Hk. destruct (Hall k v Hk) as (e & -> & He).
    split; [done|]. simpl. apply bool_decide_eq_false. lia. }
  split.
  { intros target k v Hvalid. destruct target as [| | | | |l]; try done.
    apply valid_ref_lt in Hvalid. unfold set_prop.
    destruct (h' !! l) as [o|] eqn:Hl; [|done].
    destruct (_ && _); [done|].
    unfold view, obj_of. rewrite list_lookup_insert_ne by lia. rewrite Hacc. simpl.
    apply map_fmap_ext. intros key w Hw.
    destruct (Hall key w Hw) as (e & -> & He). unfold view_val.
    by rewrite list_lookup_insert_ne by lia. }
  intros key value n Hne Hk Ho Ht Hn Htr.
  pose proof (Hview key) as Hv. rewrite wire_at_other, Hk in Hv by done.
  apply is_number_VNum in Ht as [t Ht].
  assert (Hw : wire_entry h value = Some (entry (VNum t) n)).
  { destruct value as [| |b|y|s|l];
      try (by vm_compute in Ho); try (by vm_compute in Ht).
    unfold wire_entry. rewrite Ht, Hn. unfold js_or. by rewrite Htr. }
  simpl in Hv. rewrite Hw in Hv. simpl in Hv.
  unfold view in Hv. rewrite lookup_fmap, Hobj in Hv.
  destruct (acc !! key) as [e|] eqn:He; [|done]. simpl in Hv.
  exists e. split; [by rewrite Hobj|].
  destruct (Hall key e He) as (l' & -> & Hl'). unfold view_val in Hv.
  destruct (h' !! l') as [o|] eqn:Hl; [|done]. injection Hv as ->.
  unfold prop, obj_of. rewrite Hl. simpl. unfold entry.
  rewrite lookup_insert_ne by done. by rewrite lookup_insert_eq.
Qed.

Lemma normalizeHotcues_copies_mapping_and_entries_witness :
  ∃ r h' e, normalizeHotcues (VRef 0) named_heap = Some (r, h') ∧
            view (set_prop (VRef 1) "name" (VStr "x") h') r = view h' r ∧
            obj_of h' r !! "q" = Some e ∧
            prop h' e "name" = prop named_heap (VRef 1) "name".
Proof.
  destruct (normalizeHotcues_copies_mapping_and_entries named_heap (VRef 0)
              named_heap_closed)
    as (r & h' & Hrun & _ & _ & _ & _ & Hindep & Hname).
  destruct (Hname "q" (VRef 1) (VRef 2)) as (e & He & Hn);
    [discriminate|reflexivity..|].
  exists r, h', e. split; [exact Hrun|]. split; [apply Hindep; reflexivity|].
  split; [exact He|exact Hn].
Defined.

(** * The answer to a save *)

Lemma append_nonempty (a b : string) : a ≠ "" → a +:+ b ≠ "".
Proof. by destruct a. Qed.

Lemma errorMessage_nonempty (error : AxiosError) : errorMessage error ≠ "".
Proof.
  unfold errorMessage.
  destruct (bool_decide (err_code error = Some "ECONNREFUSED")
            || bool_decide (err_code error = Some "ERR_NETWORK")); [done|].
  destruct (bool_decide (err_code error = Some "ECONNABORTED")
            || includes "timeout" (err_message error)); [done|].
  destruct (err_response error) as [response|]; [|done].
  destruct (present (data_type (response_data response)));
    destruct (data_missingFields (response_data response));
    repeat apply append_nonempty; done.
Qed.

Lemma str_or_nonempty (m : option string) (b : string) : b ≠ "" → str_or m b ≠ "".
Proof.
  intros Hb. unfold str_or. destruct m as [s|]; [|done]. by case_bool_decide.
Qed.

Lemma missingDataMessage_cases (props : Props) :
  missingDataMessage props
  = match present (youtubeUrl props), present (videoId props) with
    | true, true => "Missing required data:"
    | true, false => "Missing required data:  Video ID"
    | false, true => "Missing required data: YouTube URL"
    | false, false => "Missing required data: YouTube URL Video ID"
    end.
Proof.
  unfold missingDataMessage.
  by destruct (present (youtubeUrl props)), (present (videoId props)).
Qed.

(** X23.  Every save attempt is answered, and the saving flag never
    sticks.  Whatever the props, the user and the way the request
    settles, after [handleSave] a message is shown and its text is not
    empty; it is a success message exactly when the save succeeded
    (request sent and fulfilled), and then its text is the server's
    message, or the default text when the server sent none; and if no
    save was in progress before, none is marked in progress afterwards. *)
Theorem every_save_attempt_is_answered (props : Props) (username : option string)
    (r : Settled) (σ : State) :
  ∃ type text,
    saveMessage (saveUi (handleSave props username r σ)) = Some (type, text) ∧
    text ≠ "" ∧
    (type = MsgSuccess ↔ save_succeeds props username r = true) ∧
    (∀ message, type = MsgSuccess → r = Fulfilled message →
       text = str_or message "Video and hotcues saved successfully!") ∧
    (isSaving (saveUi σ) = false →
     isSaving (saveUi (handleSave props username r σ)) = false).
Proof.
  unfold handleSave, handleSave_begin, save_succeeds.
  rewrite (missingDataMessage_cases props).
  destruct (present (youtubeUrl props)), (present (videoId props)); simpl;
    try (eexists _, _; split; [done|]; by split_and!).
  destruct (present username); simpl;
    try (eexists _, _; split; [done|]; by split_and!).
  destruct r as [message|error]; simpl.
  - eexists _, _. split; [done|]. split; [by apply str_or_nonempty|].
    split; [done|]. split; [|done]. by intros m _ [= ->].
  - eexists _, _. split; [done|]. split; [apply errorMessage_nonempty|].
    by split_and!.
Qed.

(** X24.  A save refused for missing data names what is missing.  When
    the URL or the video id is missing, [handleSave] sends no request,
    whatever the user and however a request would settle; it leaves the
    hotcue sets and the saving flag as they were and shows an error
    that starts with [Missing required data:] and contains [YouTube URL]
    exactly when the URL is missing and [Video ID] exactly when the id is
    missing. *)
Theorem refused_save_names_what_is_missing (props : Props)
    (username : option string) (r : Settled) (σ : State) :
  present (youtubeUrl props) && present (videoId props) = false →
  ∃ text,
    handleSave_begin props username σ
    = (with_saveUi {| isSaving := isSaving (saveUi σ);
                      saveMessage := Some (MsgError, text) |} σ, false) ∧
    handleSave props username r σ = (handleSave_begin props username σ).1 ∧
    startsWith "Missing required data:" text = true ∧
    includes "YouTube URL" text = negb (present (youtubeUrl props)) ∧
    includes "Video ID" text = negb (present (videoId props)).
Proof.
  intros Hmiss. exists (missingDataMessage props).
  unfold handleSave, handleSave_begin. rewrite (missingDataMessage_cases props).
  destruct (present (youtubeUrl props)), (present (videoId props)); try done;
    simpl; by split_and!.
Qed.

Lemma refused_save_names_what_is_missing_witness :
  ∃ text,
    saveMessage (saveUi (handleSave {| videoId := Some "dQw4w9WgXcQ";
                                       youtubeUrl := None |}
                           (Some "ann") (Fulfilled None) q_store))
    = Some (MsgError, text) ∧
    includes "YouTube URL" text = true ∧ includes "Video ID" text = false.
Proof.
  destruct (refused_save_names_what_is_missing
              {| videoId := Some "dQw4w9WgXcQ"; youtubeUrl := None |}
              (Some "ann") (Fulfilled None) q_store eq_refl)
    as (text & Hbegin & Hsave & _ & Hurl & Hid).
  exists text. rewrite Hsave, Hbegin. split; [reflexivity|].
  split; [exact Hurl|exact Hid].
Defined.
